(** * EmpraDB: the knowledge-dependency graph engine and the study planner

    A shallow embedding of [packages/graph/src/index.ts] (class [MathGraph]),
    of the diagnostics engine (class [DiagnosticsEngine]) and of the two
    [StudyPlanner] methods that re-order and measure a study path, followed
    by the properties of these functions.

    Conventions of the embedding.
    - A JavaScript [Map<string, V>] is an association list in insertion
      order ([JSMap]); a [Set<string>] is a duplicate-free list in insertion
      order ([JSSet]).  Iteration order is part of the model.
    - A JavaScript [number] that is only stored and compared is the rational
      that the double is ([Q]; no stored number is [NaN]), and a literal is the
      rational of the double it denotes; the counters of [topologicalSort] are
      integers with an explicit [NaN], the value of [undefined + 1].  The
      rounding of floating-point arithmetic is not modelled: the two sums of
      [updateProgress] are exact here, and no property below depends on them.
    - A function that can throw, or whose loop needs a bound here, returns an
      [outcome]: [Return v], [TypeError] (reading through [undefined]) or
      [OutOfFuel] (the bound given to a [while] loop or a recursion was too
      small).  *)

From Stdlib Require Import String List ZArith QArith Lia Bool Permutation Ascii Arith.
From Stdlib Require Import Relations.
Import ListNotations.
Close Scope Q_scope.
Open Scope string_scope.
Open Scope list_scope.

(** ** Outcomes *)

Inductive outcome (A : Type) : Type :=
| Return (a : A)
| TypeError
| OutOfFuel.
Arguments Return {A} a.
Arguments TypeError {A}.
Arguments OutOfFuel {A}.

Definition bind {A B : Type} (m : outcome A) (k : A -> outcome B) : outcome B :=
  match m with
  | Return a => k a
  | TypeError => TypeError
  | OutOfFuel => OutOfFuel
  end.

Notation "x <- m ;; k" := (bind m (fun x => k))
  (at level 61, m at next level, right associativity).

(** [for (const x of xs) body(x)] over a state [s] that [body] may abort. *)
Fixpoint forOf {A S : Type} (body : S -> A -> outcome S) (xs : list A) (s : S)
  : outcome S :=
  match xs with
  | [] => Return s
  | x :: rest => s' <- body s x ;; forOf body rest s'
  end.

(** ** [Map<string, V>] in insertion order *)

Module JSMap.
Section Defs.
Context {V : Type}.

Definition t : Type := list (string * V).

Definition empty : t := [].

Fixpoint get (m : t) (k : string) : option V :=
    match m with
    | [] => None
    | (k', v) :: rest => if String.eqb k' k then Some v else get rest k
    end.

Definition has (m : t) (k : string) : bool :=
    match get m k with Some _ => true | None => false end.

  (** [set] keeps the position of an existing key and appends a new one. *)
Fixpoint set (m : t) (k : string) (v : V) : t :=
    match m with
    | [] => [(k, v)]
    | (k', v') :: rest =>
        if String.eqb k' k then (k, v) :: rest else (k', v') :: set rest k v
    end.

Definition keys (m : t) : list string := map fst m.
Definition values (m : t) : list V := map snd m.
End Defs.
Arguments t V : clear implicits.
End JSMap.

(** ** [Set<string>] in insertion order *)

Module JSSet.
Definition t : Type := list string.

Definition empty : t := [].

Fixpoint has (s : t) (x : string) : bool :=
    match s with
    | [] => false
    | y :: rest => if String.eqb y x then true else has rest x
    end.

Definition add (s : t) (x : string) : t :=
    if has s x then s else s ++ [x].

Fixpoint delete (s : t) (x : string) : t :=
    match s with
    | [] => []
    | y :: rest => if String.eqb y x then delete rest x else y :: delete rest x
    end.

  (** [new Set(xs)] and [xs.forEach(x => s.add(x))]. *)
Definition addAll (s : t) (xs : list string) : t := fold_left add xs s.
Definition ofList (xs : list string) : t := addAll empty xs.
Definition size (s : t) : nat := length s.
End JSSet.

(** [xs.includes(x)] on an array of strings. *)
Definition includes (xs : list string) (x : string) : bool := JSSet.has xs x.

(** ** JSON values and [JSON.stringify(value, null, gap)] *)

#[local] Set Warnings "-register-all".
Open Scope string_scope.

Inductive json : Type :=
| JNull
| JBool (b : bool)
| JNumber (q : Q)
| JString (s : string)
| JArray (items : list json)
| JObject (props : list (string * json)).

Definition newline : string := String (ascii_of_nat 10) EmptyString.

Fixpoint join (sep : string) (parts : list string) : string :=
  match parts with
  | [] => EmptyString
  | [p] => p
  | p :: rest => p ++ sep ++ join sep rest
  end.

Definition hexDigit (n : nat) : string :=
  String (nth n (list_ascii_of_string "0123456789abcdef") "0"%char) EmptyString.

Definition dquote : string := String (ascii_of_nat 34) EmptyString.
Definition backslash : string := String (ascii_of_nat 92) EmptyString.

(** One code unit of [QuoteJSONString]. *)
Definition quoteChar (c : ascii) : string :=
  let n := nat_of_ascii c in
  if Nat.eqb n 34 then backslash ++ dquote
  else if Nat.eqb n 92 then backslash ++ backslash
  else if Nat.eqb n 8 then backslash ++ "b"
  else if Nat.eqb n 9 then backslash ++ "t"
  else if Nat.eqb n 10 then backslash ++ "n"
  else if Nat.eqb n 12 then backslash ++ "f"
  else if Nat.eqb n 13 then backslash ++ "r"
  else if Nat.ltb n 32
       then backslash ++ "u00" ++ hexDigit (n / 16) ++ hexDigit (n mod 16)
  else String c EmptyString.

Fixpoint quoteBody (s : string) : string :=
  match s with
  | EmptyString => EmptyString
  | String c rest => quoteChar c ++ quoteBody rest
  end.

Definition Quote (s : string) : string := dquote ++ quoteBody s ++ dquote.

Section Stringify.
  (** [Number::toString] for a finite number; its digits play no role in the
      layout of the text. *)
Variable Number_toString : Q -> string.
  (** The [gap] of [JSON.stringify(value, null, gap)], already turned into
      blanks: the empty string when no third argument is given. *)
Variable gap : string.

Definition isEmpty (s : string) : bool :=
    match s with EmptyString => true | _ => false end.

  (** [SerializeJSONObject] and [SerializeJSONArray] share their layout. *)
Definition layout (opening closing indent : string) (partial : list string)
    : string :=
    match partial with
    | [] => opening ++ closing
    | _ :: _ =>
        if isEmpty gap
        then opening ++ join "," partial ++ closing
        else
          let stepback := indent in
          let indent' := indent ++ gap in
          opening ++ newline ++ indent'
            ++ join ("," ++ newline ++ indent') partial
            ++ newline ++ stepback ++ closing
    end.

Fixpoint serialize (indent : string) (v : json) : string :=
    match v with
    | JNull => "null"
    | JBool true => "true"
    | JBool false => "false"
    | JNumber q => Number_toString q
    | JString s => Quote s
    | JArray items =>
        layout "[" "]" indent
          (map (fun item => serialize (indent ++ gap) item) items)
    | JObject props =>
        layout "{" "}" indent
          (map (fun kv =>
                  match kv with
                  | (k, item) =>
                      Quote k ++ ":" ++ (if isEmpty gap then EmptyString else " ")
                        ++ serialize (indent ++ gap) item
                  end) props)
    end.

Definition JSON_stringify (v : json) : string := serialize EmptyString v.
End Stringify.

(** [JSON.stringify(value, null, 2)]: the gap is two blanks. *)
Definition JSON_stringify_2 (Number_toString : Q -> string) (v : json) : string :=
  JSON_stringify Number_toString "  " v.

Open Scope list_scope.

(** ** The schema ([packages/schema/src/index.ts]) *)

Inductive MathNodeType : Type :=
| concept | formula | theorem | definition | identity | proof | symbol.

Inductive EdgeType : Type :=
| REQUIRES | GENERALIZES | SPECIAL_CASE_OF | USED_IN | APPEARS_WITH.

Inductive DepthLevel : Type := intro | core | advanced | olympiad.

Inductive CurriculumSystem : Type :=
| VCE | GCSE | A_LEVEL | IB | AP | SAT | ACT | UNIVERSITY | OLYMPIAD.

(** [e.type === "REQUIRES"]. *)
Definition isREQUIRES (t : EdgeType) : bool :=
  match t with REQUIRES => true | _ => false end.

Module ExamRef.
Record t : Type := {
    system : CurriculumSystem;
    exam : string;
    year_level : Q;
    depth : DepthLevel;
    required : bool
  }.
End ExamRef.

Module MathNode.
Record t : Type := {
    id : string;
    type : MathNodeType;
    title : string;
    latex : option string;
    description : string;
    domains : list string;
    tags : list string;
    complexity : Q;
    requires : list string;
    generalizes : list string;
    special_cases : list string;
    used_in : list string;
    appears_in : list ExamRef.t;
    created_at : Q;
    updated_at : Q
  }.
End MathNode.

Module GraphEdge.
Record t : Type := {
    from : string;
    to : string;
    type : EdgeType;
    weight : Q;
    metadata : option json
  }.
End GraphEdge.

Module ConceptProgress.
Record t : Type := {
    user_id : string;
    concept_id : string;
    confidence : Q;
    last_reviewed : Q;
    review_count : Q;
    time_spent_seconds : Q
  }.
End ConceptProgress.

(** The JSON value of each record: the properties in the order of the
    interface, an optional property left out when it is [undefined]. *)

Definition MathNodeType_toJSON (t : MathNodeType) : json :=
  JString match t with
          | concept => "concept" | formula => "formula" | theorem => "theorem"
          | definition => "definition" | identity => "identity"
          | proof => "proof" | symbol => "symbol"
          end.

Definition EdgeType_toJSON (t : EdgeType) : json :=
  JString match t with
          | REQUIRES => "REQUIRES" | GENERALIZES => "GENERALIZES"
          | SPECIAL_CASE_OF => "SPECIAL_CASE_OF" | USED_IN => "USED_IN"
          | APPEARS_WITH => "APPEARS_WITH"
          end.

Definition DepthLevel_toJSON (d : DepthLevel) : json :=
  JString match d with
          | intro => "intro" | core => "core" | advanced => "advanced"
          | olympiad => "olympiad"
          end.

Definition CurriculumSystem_toJSON (s : CurriculumSystem) : json :=
  JString match s with
          | VCE => "VCE" | GCSE => "GCSE" | A_LEVEL => "A_LEVEL" | IB => "IB"
          | AP => "AP" | SAT => "SAT" | ACT => "ACT"
          | UNIVERSITY => "UNIVERSITY" | OLYMPIAD => "OLYMPIAD"
          end.

Definition strings_toJSON (xs : list string) : json := JArray (map JString xs).

Definition optional (k : string) (v : option json) : list (string * json) :=
  match v with Some j => [(k, j)] | None => [] end.

Definition ExamRef_toJSON (r : ExamRef.t) : json :=
  JObject [ ("system", CurriculumSystem_toJSON (ExamRef.system r));
            ("exam", JString (ExamRef.exam r));
            ("year_level", JNumber (ExamRef.year_level r));
            ("depth", DepthLevel_toJSON (ExamRef.depth r));
            ("required", JBool (ExamRef.required r)) ].

Definition MathNode_toJSON (n : MathNode.t) : json :=
  JObject ([ ("id", JString (MathNode.id n));
             ("type", MathNodeType_toJSON (MathNode.type n));
             ("title", JString (MathNode.title n)) ]
           ++ optional "latex" (option_map JString (MathNode.latex n))
           ++ [ ("description", JString (MathNode.description n));
                ("domains", strings_toJSON (MathNode.domains n));
                ("tags", strings_toJSON (MathNode.tags n));
                ("complexity", JNumber (MathNode.complexity n));
                ("requires", strings_toJSON (MathNode.requires n));
                ("generalizes", strings_toJSON (MathNode.generalizes n));
                ("special_cases", strings_toJSON (MathNode.special_cases n));
                ("used_in", strings_toJSON (MathNode.used_in n));
                ("appears_in", JArray (map ExamRef_toJSON (MathNode.appears_in n)));
                ("created_at", JNumber (MathNode.created_at n));
                ("updated_at", JNumber (MathNode.updated_at n)) ]).

Definition GraphEdge_toJSON (e : GraphEdge.t) : json :=
  JObject ([ ("from", JString (GraphEdge.from e));
             ("to", JString (GraphEdge.to e));
             ("type", EdgeType_toJSON (GraphEdge.type e));
             ("weight", JNumber (GraphEdge.weight e)) ]
           ++ optional "metadata" (GraphEdge.metadata e)).

(** ** Numbers that are counted with: an integer or [NaN] *)

Inductive number : Type :=
| Num (z : Z)
| NaN.

(** [x! + 1] and [x! - 1] where [x] may be [undefined]. *)
Definition plus1 (x : option number) : number :=
  match x with Some (Num z) => Num (z + 1) | _ => NaN end.

Definition minus1 (x : option number) : number :=
  match x with Some (Num z) => Num (z - 1) | _ => NaN end.

(** [x === 0]. *)
Definition isZero (x : option number) : bool :=
  match x with Some (Num z) => Z.eqb z 0 | _ => false end.

(** ** Array helpers *)

(** [xs.indexOf(x)]: the first index of [x], or [-1]. *)
Fixpoint indexOf (xs : list string) (x : string) : Z :=
  match xs with
  | [] => (-1)%Z
  | y :: rest =>
      if String.eqb y x then 0%Z
      else let i := indexOf rest x in
           if Z.ltb i 0 then (-1)%Z else (i + 1)%Z
  end.

(** [xs.slice(start)]: a negative [start] counts from the end. *)
Definition slice {A : Type} (xs : list A) (start : Z) : list A :=
  if Z.ltb start 0
  then skipn (Z.to_nat (Z.max 0 (Z.of_nat (length xs) + start))) xs
  else skipn (Z.to_nat start) xs.

(** ** GraphCore ([packages/graph/src/index.ts]) *)

Module MathGraph.

Record t : Type := {
  nodes : JSMap.t MathNode.t;
  edges : JSMap.t (list GraphEdge.t);
  reverseEdges : JSMap.t (list GraphEdge.t)
}.

(** [new MathGraph()]. *)
Definition new : t :=
  {| nodes := JSMap.empty; edges := JSMap.empty; reverseEdges := JSMap.empty |}.

(** [if (!m.has(k)) m.set(k, [])]. *)
Definition ensure {V : Type} (m : JSMap.t (list V)) (k : string)
  : JSMap.t (list V) :=
  if JSMap.has m k then m else JSMap.set m k [].

(** [m.get(k)!.push(x)]; it throws when [k] has no entry. *)
Definition pushAt {V : Type} (m : JSMap.t (list V)) (k : string) (x : V)
  : outcome (JSMap.t (list V)) :=
  match JSMap.get m k with
  | Some l => Return (JSMap.set m k (l ++ [x]))
  | None => TypeError
  end.

(** [m.get(k)!.push(x)] right after [ensure m k], where the entry exists. *)
Definition push {V : Type} (m : JSMap.t (list V)) (k : string) (x : V)
  : JSMap.t (list V) :=
  match JSMap.get m k with
  | Some l => JSMap.set m k (l ++ [x])
  | None => m
  end.

Definition addNode (g : t) (node : MathNode.t) : t :=
  {| nodes := JSMap.set (nodes g) (MathNode.id node) node;
     edges := ensure (edges g) (MathNode.id node);
     reverseEdges := ensure (reverseEdges g) (MathNode.id node) |}.

Definition addEdge (g : t) (edge : GraphEdge.t) : t :=
  {| nodes := nodes g;
     edges := push (ensure (edges g) (GraphEdge.from edge))
                (GraphEdge.from edge) edge;
     reverseEdges := push (ensure (reverseEdges g) (GraphEdge.to edge))
                       (GraphEdge.to edge) edge |}.

Definition getNode (g : t) (id : string) : option MathNode.t :=
  JSMap.get (nodes g) id.

Definition getOutgoingEdges (g : t) (nodeId : string) : list GraphEdge.t :=
  match JSMap.get (edges g) nodeId with Some l => l | None => [] end.

Definition getIncomingEdges (g : t) (nodeId : string) : list GraphEdge.t :=
  match JSMap.get (reverseEdges g) nodeId with Some l => l | None => [] end.

Definition getPrerequisites (g : t) (nodeId : string) : list string :=
  map GraphEdge.from
    (filter (fun e => isREQUIRES (GraphEdge.type e)) (getIncomingEdges g nodeId)).

Definition getDependents (g : t) (nodeId : string) : list string :=
  map GraphEdge.to
    (filter (fun e => isREQUIRES (GraphEdge.type e)) (getOutgoingEdges g nodeId)).

(** The [while (queue.length > 0)] loop of [getAllPrerequisites]; [fuel]
    bounds the number of [queue.shift()]. *)
Fixpoint expand (g : t) (fuel : nat) (visited : JSSet.t) (queue : list string)
  : outcome JSSet.t :=
  match queue with
  | [] => Return visited
  | current :: rest =>
      match fuel with
      | O => OutOfFuel
      | S fuel' =>
          if JSSet.has visited current
          then expand g fuel' visited rest
          else expand g fuel' (JSSet.add visited current)
                 (rest ++ getPrerequisites g current)
      end
  end.

(** Every entry of the reverse index, over all keys. *)
Definition incomingCount (g : t) : nat :=
  length (concat (JSMap.values (reverseEdges g))).

(** The loop shifts the start node and then at most one element per entry of
    the reverse index: [S (incomingCount g)] shifts always suffice. *)
Definition getAllPrerequisites (g : t) (nodeId : string) : outcome JSSet.t :=
  visited <- expand g (S (incomingCount g)) JSSet.empty [nodeId] ;;
  Return (JSSet.delete visited nodeId).

(** *** [topologicalSort] *)

(** The two tables of [topologicalSort]: [inDegree] and [graph]. *)
Definition Tables : Type := (JSMap.t number * JSMap.t (list string))%type.

(** First loop: [inDegree.set(id, 0); graph.set(id, [])]. *)
Definition initTables (nodeIds : list string) : Tables :=
  fold_left
    (fun tb id => (JSMap.set (fst tb) id (Num 0), JSMap.set (snd tb) id []))
    nodeIds (JSMap.empty, JSMap.empty).

(** Body of the inner loop:
    [graph.get(prereq)!.push(id); inDegree.set(id, inDegree.get(id)! + 1)]. *)
Definition link (id : string) (tb : Tables) (prereq : string) : outcome Tables :=
  graph' <- pushAt (snd tb) prereq id ;;
  Return (JSMap.set (fst tb) id (plus1 (JSMap.get (fst tb) id)), graph').

(** [this.getPrerequisites(id).filter(p => nodeIds.includes(p))]. *)
Definition prereqsWithin (g : t) (nodeIds : list string) (id : string)
  : list string :=
  filter (includes nodeIds) (getPrerequisites g id).

(** Second loop, over [nodeIds]. *)
Definition linkAll (g : t) (nodeIds : list string) (tb : Tables) : outcome Tables :=
  forOf (fun tb id => forOf (link id) (prereqsWithin g nodeIds id) tb) nodeIds tb.

(** [for (const [id, degree] of inDegree) if (degree === 0) queue.push(id)]. *)
Definition seeds (inDegree : JSMap.t number) : list string :=
  map fst (filter (fun kv => isZero (Some (snd kv))) inDegree).

(** Body of [for (const neighbor of graph.get(current)!)], on the pair of
    [inDegree] and [queue]. *)
Definition relax (st : JSMap.t number * list string) (neighbor : string)
  : JSMap.t number * list string :=
  let inDegree' :=
    JSMap.set (fst st) neighbor (minus1 (JSMap.get (fst st) neighbor)) in
  (inDegree',
   if isZero (JSMap.get inDegree' neighbor) then snd st ++ [neighbor] else snd st).

(** The [while (queue.length > 0)] loop; [fuel] bounds the number of
    [queue.shift()].  Iterating over [graph.get(current)!] throws when
    [current] has no adjacency list. *)
Fixpoint drain (graph : JSMap.t (list string)) (fuel : nat)
  (inDegree : JSMap.t number) (queue result : list string)
  : outcome (list string) :=
  match queue with
  | [] => Return result
  | current :: rest =>
      match fuel with
      | O => OutOfFuel
      | S fuel' =>
          match JSMap.get graph current with
          | None => TypeError
          | Some neighbors =>
              let st := fold_left relax neighbors (inDegree, rest) in
              drain graph fuel' (fst st) (snd st) (result ++ [current])
          end
      end
  end.

(** Each shift moves one key of [inDegree] to the result and no key is
    shifted twice: [length nodeIds] shifts always suffice. *)
Definition topologicalSort (g : t) (nodeIds : list string) : outcome (list string) :=
  tb <- linkAll g nodeIds (initTables nodeIds) ;;
  drain (snd tb) (length nodeIds) (fst tb) (seeds (fst tb)) [].

(** *** [detectCycles] *)

Record Search : Type := {
  visited : JSSet.t;
  recursionStack : JSSet.t;
  cycles : list (list string)
}.

(** The closure [dfs]; [path] is this call's own copy, [fuel] bounds the depth
    of the recursion. *)
Fixpoint dfs (g : t) (fuel : nat) (nodeId : string) (path : list string)
  (s : Search) : outcome Search :=
  match fuel with
  | O => OutOfFuel
  | S fuel' =>
      let path' := path ++ [nodeId] in
      s' <- forOf
              (fun s dep =>
                 if negb (JSSet.has (visited s) dep)
                 then dfs g fuel' dep path' s
                 else if JSSet.has (recursionStack s) dep
                 then Return {| visited := visited s;
                                recursionStack := recursionStack s;
                                cycles := cycles s
                                            ++ [slice path' (indexOf path' dep)] |}
                 else Return s)
              (getDependents g nodeId)
              {| visited := JSSet.add (visited s) nodeId;
                 recursionStack := JSSet.add (recursionStack s) nodeId;
                 cycles := cycles s |} ;;
      Return {| visited := visited s';
                recursionStack := JSSet.delete (recursionStack s') nodeId;
                cycles := cycles s' |}
  end.

(** Every ID the traversal can reach is a key of [nodes] or the target of an
    entry of the forward index; the recursion is never deeper than their
    number. *)
Definition depthBound (g : t) : nat :=
  S (length (JSMap.keys (nodes g)) + length (concat (JSMap.values (edges g)))).

Definition detectCycles (g : t) : outcome (list (list string)) :=
  s <- forOf
         (fun s nodeId =>
            if negb (JSSet.has (visited s) nodeId)
            then dfs g (depthBound g) nodeId [] s
            else Return s)
         (JSMap.keys (nodes g))
         {| visited := JSSet.empty; recursionStack := JSSet.empty; cycles := [] |} ;;
  Return (cycles s).

(** *** [getSubgraph] *)

Definition getSubgraph (g : t) (nodeIds : list string) : t :=
  let nodeSet := JSSet.ofList nodeIds in
  let withNodes :=
    fold_left
      (fun sub id =>
         match getNode g id with Some node => addNode sub node | None => sub end)
      nodeIds new in
  fold_left
    (fun sub id =>
       fold_left
         (fun sub edge =>
            if JSSet.has nodeSet (GraphEdge.to edge) then addEdge sub edge else sub)
         (getOutgoingEdges g id) sub)
    nodeIds withNodes.

End MathGraph.

(** *** Snapshots: [exportJSON] and [fromJSON] *)

Module Snapshot.
Record t : Type := {
  nodes : list MathNode.t;
  edges : list GraphEdge.t
}.

Definition toJSON (s : t) : json :=
  JObject [ ("nodes", JArray (map MathNode_toJSON (nodes s)));
            ("edges", JArray (map GraphEdge_toJSON (edges s))) ].
End Snapshot.

(** The object that [exportJSON] hands to [JSON.stringify]. *)
Definition exportSnapshot (g : MathGraph.t) : Snapshot.t :=
  {| Snapshot.nodes := JSMap.values (MathGraph.nodes g);
     Snapshot.edges := concat (JSMap.values (MathGraph.edges g)) |}.

(** [JSON.stringify({ nodes, edges }, null, 2)]. *)
Definition exportJSON (Number_toString : Q -> string) (g : MathGraph.t) : string :=
  JSON_stringify_2 Number_toString (Snapshot.toJSON (exportSnapshot g)).

(** The two loops of [fromJSON], on the object [data] that [JSON.parse]
    returned. *)
Definition fromSnapshot (data : Snapshot.t) : MathGraph.t :=
  fold_left MathGraph.addEdge (Snapshot.edges data)
    (fold_left MathGraph.addNode (Snapshot.nodes data) MathGraph.new).

(** [fromJSON(json)].  [JSON.parse] is a parameter: it gives the object that
    a text denotes, or nothing when it throws on the text. *)
Definition fromJSON (JSON_parse : string -> option Snapshot.t) (json : string)
  : option MathGraph.t :=
  option_map fromSnapshot (JSON_parse json).

(** ** DiagnosticsEngine *)

(** The literal [0.7]: the rational that the nearest double is. *)
Definition literal_0_7 : Q := 3152519739159347 # 4503599627370496.

(** [a < b] on numbers. *)
Definition Qlt_bool (a b : Q) : bool := negb (Qle_bool b a).

(** [Partial<ConceptProgress>]: every property may be absent. *)
Module PartialProgress.
Record t : Type := {
  user_id : option string;
  concept_id : option string;
  confidence : option Q;
  last_reviewed : option Q;
  review_count : option Q;
  time_spent_seconds : option Q
}.
End PartialProgress.

(** [a ?? b]. *)
Definition orElse {A : Type} (a : option A) (b : A) : A :=
  match a with Some x => x | None => b end.

Module DiagnosticsEngine.

Record t : Type := {
  progress : JSMap.t (JSMap.t ConceptProgress.t)
}.

Definition new : t := {| progress := JSMap.empty |}.

(** The user's map, created empty on first use. *)
Definition userMap (eng : t) (userId : string) : JSMap.t ConceptProgress.t :=
  orElse (JSMap.get (progress eng) userId) JSMap.empty.

(** [now] is the value of [Date.now()]. *)
Definition updateProgress (eng : t) (userId conceptId : string)
  (update : PartialProgress.t) (now : Q) : t :=
  let userProgress := userMap eng userId in
  let existing := JSMap.get userProgress conceptId in
  let newProgress :=
    {| ConceptProgress.user_id := userId;
       ConceptProgress.concept_id := conceptId;
       ConceptProgress.confidence :=
         orElse (PartialProgress.confidence update)
           (orElse (option_map ConceptProgress.confidence existing) 0%Q);
       ConceptProgress.last_reviewed :=
         orElse (PartialProgress.last_reviewed update) now;
       ConceptProgress.review_count :=
         (orElse (option_map ConceptProgress.review_count existing) 0 + 1)%Q;
       ConceptProgress.time_spent_seconds :=
         (orElse (option_map ConceptProgress.time_spent_seconds existing) 0
          + orElse (PartialProgress.time_spent_seconds update) 0)%Q |} in
  {| progress :=
       JSMap.set (progress eng) userId
         (JSMap.set userProgress conceptId newProgress) |}.

Definition importProgress (eng : t) (userId : string)
  (progressArray : list ConceptProgress.t) : t :=
  {| progress :=
       JSMap.set (progress eng) userId
         (fold_left
            (fun userProgress prog =>
               JSMap.set userProgress (ConceptProgress.concept_id prog) prog)
            progressArray (userMap eng userId)) |}.

Definition getProgress (eng : t) (userId conceptId : string)
  : option ConceptProgress.t :=
  match JSMap.get (progress eng) userId with
  | Some userProgress => JSMap.get userProgress conceptId
  | None => None
  end.

Definition getUserProgress (eng : t) (userId : string) : list ConceptProgress.t :=
  match JSMap.get (progress eng) userId with
  | Some userProgress => JSMap.values userProgress
  | None => []
  end.

Definition getConfidence (eng : t) (userId conceptId : string) : Q :=
  match getProgress eng userId conceptId with
  | Some prog => ConceptProgress.confidence prog
  | None => 0%Q
  end.

Definition getKnownConcepts (eng : t) (userId : string) (threshold : Q) : JSSet.t :=
  JSSet.ofList
    (map ConceptProgress.concept_id
       (filter (fun p => Qle_bool threshold (ConceptProgress.confidence p))
          (getUserProgress eng userId))).

Record Gaps : Type := {
  missing : list string;
  weak : list string;
  strongPrereqs : list string
}.

(** The closure loop of [detectGaps]. *)
Definition allRequired (graph : MathGraph.t) (targetConcepts : list string)
  : outcome JSSet.t :=
  forOf
    (fun all conceptId =>
       prereqs <- MathGraph.getAllPrerequisites graph conceptId ;;
       Return (JSSet.add (JSSet.addAll all prereqs) conceptId))
    targetConcepts JSSet.empty.

(** The classification loop, on the pair of [missing] and [weak]. *)
Definition classify (eng : t) (userId : string) (confidenceThreshold : Q)
  (mw : list string * list string) (conceptId : string)
  : list string * list string :=
  let confidence := getConfidence eng userId conceptId in
  if Qeq_bool confidence 0%Q then (fst mw ++ [conceptId], snd mw)
  else if Qlt_bool confidence confidenceThreshold
       then (fst mw, snd mw ++ [conceptId])
       else mw.

Definition detectGaps (eng : t) (userId : string) (graph : MathGraph.t)
  (targetConcepts : list string) (confidenceThreshold : Q) : outcome Gaps :=
  let known := getKnownConcepts eng userId confidenceThreshold in
  all <- allRequired graph targetConcepts ;;
  let mw := fold_left (classify eng userId confidenceThreshold) all ([], []) in
  Return {| missing := fst mw;
            weak := snd mw;
            strongPrereqs :=
              filter (fun id => JSSet.has known id
                                && negb (includes targetConcepts id)) all |}.

End DiagnosticsEngine.

(** ** StudyPlanner *)

(** [xs.sort(compare)]: the sort is stable, and the comparators used here are
    consistent, so the result is the one of a stable insertion sort: an
    element moves in front of a later one only when [compare] is positive. *)
Fixpoint insertSorted (compare : string -> string -> Z) (x : string)
  (sorted : list string) : list string :=
  match sorted with
  | [] => [x]
  | y :: rest =>
      if Z.leb (compare x y) 0 then x :: y :: rest
      else y :: insertSorted compare x rest
  end.

Fixpoint sort (compare : string -> string -> Z) (xs : list string) : list string :=
  match xs with
  | [] => []
  | x :: rest => insertSorted compare x (sort compare rest)
  end.

Module StudyPlanner.

(** The two collaborators that the methods below read; the curriculum and
    exam engines take no part in them. *)
Record t : Type := {
  graph : MathGraph.t;
  diagnosticsEngine : DiagnosticsEngine.t
}.

(** The literal [0.7]. *)
Definition knownThreshold : Q := literal_0_7.

(** The first loop of [optimizeStudyOrder]. *)
Definition weakConceptsOf (sp : t) (userId : string) (targetConcepts : list string)
  : JSSet.t :=
  fold_left
    (fun weakConcepts conceptId =>
       let confidence :=
         DiagnosticsEngine.getConfidence (diagnosticsEngine sp) userId conceptId in
       if Qlt_bool 0%Q confidence && Qlt_bool confidence knownThreshold
       then JSSet.add weakConcepts conceptId
       else weakConcepts)
    targetConcepts JSSet.empty.

(** The comparator handed to [ordered.sort]. *)
Definition weakFirst (weakConcepts : JSSet.t) (a b : string) : Z :=
  let aWeak := JSSet.has weakConcepts a in
  let bWeak := JSSet.has weakConcepts b in
  if aWeak && negb bWeak then (-1)%Z
  else if negb aWeak && bWeak then 1%Z
  else 0%Z.

(** [Array.from(allRequired).filter(c => !knownConcepts.has(c))]. *)
Definition toStudyOf (sp : t) (userId : string) (targetConcepts : list string)
  : outcome (list string) :=
  let knownConcepts :=
    DiagnosticsEngine.getKnownConcepts (diagnosticsEngine sp) userId knownThreshold in
  allRequired <-
    forOf
      (fun all conceptId =>
         prereqs <- MathGraph.getAllPrerequisites (graph sp) conceptId ;;
         Return (JSSet.addAll all prereqs))
      targetConcepts (JSSet.ofList targetConcepts) ;;
  Return (filter (fun c => negb (JSSet.has knownConcepts c)) allRequired).

Definition optimizeStudyOrder (sp : t) (userId : string)
  (targetConcepts : list string) (prioritizeWeakPrereqs : bool)
  : outcome (list string) :=
  let weakConcepts := weakConceptsOf sp userId targetConcepts in
  toStudy <- toStudyOf sp userId targetConcepts ;;
  ordered <- MathGraph.topologicalSort (graph sp) toStudy ;;
  if prioritizeWeakPrereqs
  then Return (sort (weakFirst weakConcepts) ordered)
  else Return ordered.

(** One round of the [while (current.size > 0)] loop: the set [next]. *)
Definition nextWave (g : MathGraph.t) (current : JSSet.t) : JSSet.t :=
  fold_left
    (fun next c => JSSet.addAll next (MathGraph.getPrerequisites g c))
    current JSSet.empty.

(** The loop itself; [fuel] bounds the number of rounds. *)
Fixpoint waves (g : MathGraph.t) (fuel : nat) (current : JSSet.t) (depth : Z)
  : outcome Z :=
  match current with
  | [] => Return depth
  | _ :: _ =>
      match fuel with
      | O => OutOfFuel
      | S fuel' =>
          let next := nextWave g current in
          waves g fuel' next
            (if Nat.ltb 0 (JSSet.size next) then (depth + 1)%Z else depth)
      end
  end.

Record CriticalPath : Type := {
  criticalConcepts : list string;
  depth : Z;
  totalPrerequisites : nat
}.

(** [fuel] is the number of rounds granted to each target's wave loop; the
    method returns when some [fuel] is enough for all of them. *)
Definition identifyCriticalPath (fuel : nat) (sp : t) (targetConcepts : list string)
  : outcome CriticalPath :=
  st <- forOf
          (fun st conceptId =>
             prereqs <- MathGraph.getAllPrerequisites (graph sp) conceptId ;;
             d <- waves (graph sp) fuel [conceptId] 0%Z ;;
             Return (JSSet.addAll (fst st) prereqs, Z.max (snd st) d))
          targetConcepts (JSSet.empty, 0%Z) ;;
  criticalConcepts <-
    MathGraph.topologicalSort (graph sp) (targetConcepts ++ fst st) ;;
  Return {| criticalConcepts := criticalConcepts;
            depth := snd st;
            totalPrerequisites := JSSet.size (fst st) |}.

End StudyPlanner.

(** ** Graphs as they are built, and the vocabulary of the properties *)

(** A graph is what a sequence of [addNode] and [addEdge] calls makes of
    [new MathGraph()]. *)
Inductive Op : Type :=
| AddNode (node : MathNode.t)
| AddEdge (edge : GraphEdge.t).

Definition apply (g : MathGraph.t) (op : Op) : MathGraph.t :=
  match op with
  | AddNode node => MathGraph.addNode g node
  | AddEdge edge => MathGraph.addEdge g edge
  end.

Definition build (ops : list Op) : MathGraph.t := fold_left apply ops MathGraph.new.

(** The edges that were added, in the order of the calls. *)
Definition edgesOf (ops : list Op) : list GraphEdge.t :=
  flat_map (fun op => match op with AddEdge e => [e] | AddNode _ => [] end) ops.

(** The node records that were added, and their IDs. *)
Definition nodesOf (ops : list Op) : list MathNode.t :=
  flat_map (fun op => match op with AddNode n => [n] | AddEdge _ => [] end) ops.

Definition nodeIdsOf (ops : list Op) : list string :=
  map MathNode.id (nodesOf ops).

(** There is a REQUIRES edge [a -> b]: [a] is a prerequisite of [b]. *)
Definition Requires (ops : list Op) (a b : string) : Prop :=
  exists e, In e (edgesOf ops)
            /\ GraphEdge.type e = REQUIRES
            /\ GraphEdge.from e = a /\ GraphEdge.to e = b.

(** A REQUIRES edge of the subgraph induced by the IDs [S]. *)
Definition RequiresWithin (ops : list Op) (S : list string) (a b : string) : Prop :=
  Requires ops a b /\ In a S /\ In b S.

(** [b] is reached from [a] along one or more edges of [R]. *)
Definition Path (R : string -> string -> Prop) (a b : string) : Prop :=
  clos_trans string R a b.

(** [b] is [a] or is reached from [a] along edges of [R]. *)
Definition Reaches (R : string -> string -> Prop) (a b : string) : Prop :=
  clos_refl_trans string R a b.

(** [R] has a cycle. *)
Definition Cyclic (R : string -> string -> Prop) : Prop := exists x, Path R x x.

(** The list stored under a key of an adjacency index, empty when the key is
    absent: what [getOutgoingEdges] and [getIncomingEdges] return. *)
Definition listAt {V : Type} (m : JSMap.t (list V)) (k : string) : list V :=
  match JSMap.get m k with Some l => l | None => [] end.

(** [u] is a direct prerequisite of [v], as [getPrerequisites] reports it. *)
Definition prereqOf (g : MathGraph.t) (u v : string) : Prop :=
  In u (MathGraph.getPrerequisites g v).

(** The prerequisites that [getAllPrerequisites] may still append to its
    queue: those of the keys of the reverse index not visited yet. *)
Definition pendingPrereqs (g : MathGraph.t) (visited : JSSet.t) : nat :=
  list_sum
    (map (fun k => if JSSet.has visited k then 0
                   else length (MathGraph.getPrerequisites g k))
       (JSMap.keys (MathGraph.reverseEdges g))).

(** The invariant of the loop of [getAllPrerequisites], for the start node
    [n]: what was visited or queued reaches [n], [n] was visited or queued,
    and the prerequisites of a visited node were visited or queued. *)
Definition expandInv (g : MathGraph.t) (n : string) (visited : JSSet.t)
  (queue : list string) : Prop :=
  NoDup visited
  /\ (forall x, In x visited \/ In x queue -> Reaches (prereqOf g) x n)
  /\ (In n visited \/ In n queue)
  /\ (forall v u, In v visited -> prereqOf g u v -> In u visited \/ In u queue).

(** The text holds no line feed. *)
Fixpoint newlineFree (s : string) : bool :=
  match s with
  | EmptyString => true
  | String c rest =>
      if Ascii.eqb c (ascii_of_nat 10) then false else newlineFree rest
  end.

(** The adjacency of the table [graph] of [topologicalSort]: the entries
    towards [v] of the keys that are not in [result] yet.  The loop keeps
    [inDegree.get(v)] equal to it. *)
Definition pendingIn (graph : JSMap.t (list string)) (result : list string)
  (v : string) : nat :=
  list_sum
    (map (fun u => if includes result u then 0
                   else count_occ string_dec (listAt graph u) v)
       (JSMap.keys graph)).

(** Every entry of the table [graph] towards a node of [result] comes from a
    key placed earlier in [result]. *)
Definition predecessorsFirst (graph : JSMap.t (list string)) (result : list string)
  : Prop :=
  forall u v,
    In v result -> In u (JSMap.keys graph) -> In v (listAt graph u) ->
    (0 <= indexOf result u < indexOf result v)%Z.

(** The invariant of the [while] loop of [topologicalSort]. *)
Definition drainInv (graph : JSMap.t (list string)) (inDegree : JSMap.t number)
  (queue result : list string) : Prop :=
  NoDup (result ++ queue)
  /\ incl (result ++ queue) (JSMap.keys graph)
  /\ (forall v, In v (JSMap.keys graph) ->
        JSMap.get inDegree v = Some (Num (Z.of_nat (pendingIn graph result v))))
  /\ (forall v, In v (JSMap.keys graph) ->
        (pendingIn graph result v = 0 <-> In v (result ++ queue)))
  /\ predecessorsFirst graph result.

(** The REQUIRES edges into [v] whose source lies in [S], as they were added. *)
Definition edgesInto (ops : list Op) (S : list string) (v : string)
  : list GraphEdge.t :=
  filter (fun e => isREQUIRES (GraphEdge.type e)
                   && String.eqb (GraphEdge.to e) v
                   && includes S (GraphEdge.from e))
    (edgesOf ops).

(** [out] is a topological order of the REQUIRES subgraph induced by [S]: an
    edge of it between two members of [out] points from the smaller index to
    the larger. *)
Definition topologicalOn (ops : list Op) (S out : list string) : Prop :=
  forall a b, RequiresWithin ops S a b -> In a out -> In b out ->
    (indexOf out a < indexOf out b)%Z.

(** ** Progress as it is recorded *)

(** The state of a [DiagnosticsEngine] is what a sequence of [updateProgress]
    and [importProgress] calls makes of a new engine. *)
Inductive ProgressOp : Type :=
| UpdateProgress (userId conceptId : string) (update : PartialProgress.t) (now : Q)
| ImportProgress (userId : string) (progressArray : list ConceptProgress.t).

Definition applyProgress (eng : DiagnosticsEngine.t) (op : ProgressOp)
  : DiagnosticsEngine.t :=
  match op with
  | UpdateProgress userId conceptId update now =>
      DiagnosticsEngine.updateProgress eng userId conceptId update now
  | ImportProgress userId progressArray =>
      DiagnosticsEngine.importProgress eng userId progressArray
  end.

Definition record (ops : list ProgressOp) : DiagnosticsEngine.t :=
  fold_left applyProgress ops DiagnosticsEngine.new.

(** Each user's map has one entry per key, filed under the concept's ID. *)
Definition progressConsistent (eng : DiagnosticsEngine.t) : Prop :=
  forall userId m,
    JSMap.get (DiagnosticsEngine.progress eng) userId = Some m ->
    NoDup (JSMap.keys m)
    /\ forall k p, In (k, p) m -> ConceptProgress.concept_id p = k.

(** ** Scenarios *)

Definition plainNode (id : string) (complexity : Q) : MathNode.t :=
  {| MathNode.id := id; MathNode.type := concept; MathNode.title := id;
     MathNode.latex := None; MathNode.description := EmptyString;
     MathNode.domains := []; MathNode.tags := [];
     MathNode.complexity := complexity;
     MathNode.requires := []; MathNode.generalizes := [];
     MathNode.special_cases := []; MathNode.used_in := [];
     MathNode.appears_in := [];
     MathNode.created_at := 0%Q; MathNode.updated_at := 0%Q |}.

(** [b] requires [a]. *)
Definition requiresEdge (a b : string) : GraphEdge.t :=
  {| GraphEdge.from := a; GraphEdge.to := b; GraphEdge.type := REQUIRES;
     GraphEdge.weight := 1%Q; GraphEdge.metadata := None |}.

(** A (no prerequisites), B requires A, C requires B. *)
Definition chainABC : list Op :=
  [ AddNode (plainNode "A" 1%Q); AddNode (plainNode "B" 1%Q);
    AddNode (plainNode "C" 1%Q);
    AddEdge (requiresEdge "A" "B"); AddEdge (requiresEdge "B" "C") ].

(** A requires B and B requires A. *)
Definition cycleAB : list Op :=
  [ AddNode (plainNode "A" 1%Q); AddNode (plainNode "B" 1%Q);
    AddEdge (requiresEdge "B" "A"); AddEdge (requiresEdge "A" "B") ].

(** The same two edges, with no node record for either end. *)
Definition cycleWithoutNodes : list Op :=
  [ AddEdge (requiresEdge "B" "A"); AddEdge (requiresEdge "A" "B") ].

(** An update that sets the confidence and nothing else. *)
Definition setConfidence (c : Q) : PartialProgress.t :=
  {| PartialProgress.user_id := None; PartialProgress.concept_id := None;
     PartialProgress.confidence := Some c; PartialProgress.last_reviewed := None;
     PartialProgress.review_count := None;
     PartialProgress.time_spent_seconds := None |}.

(** B requires A; the user is half-way through B and has not started A. *)
Definition pairAB : list Op :=
  [ AddNode (plainNode "A" 1%Q); AddNode (plainNode "B" 1%Q);
    AddEdge (requiresEdge "A" "B") ].

Definition weakBeforeMissing : StudyPlanner.t :=
  {| StudyPlanner.graph := build pairAB;
     StudyPlanner.diagnosticsEngine :=
       DiagnosticsEngine.updateProgress DiagnosticsEngine.new "u" "B"
         (setConfidence (1 # 2)) 0%Q |}.

(** Confidences A = 1.0, B = 0.5, C = 0.0 for the user [u]. *)
Definition progressABC : list ProgressOp :=
  [ UpdateProgress "u" "A" (setConfidence 1%Q) 0%Q;
    UpdateProgress "u" "B" (setConfidence (1 # 2)) 0%Q;
    UpdateProgress "u" "C" (setConfidence 0%Q) 0%Q ].

(** The user has opened A, a prerequisite of B, without any confidence yet. *)
Definition progressA0 : list ProgressOp :=
  [ UpdateProgress "u" "A" (setConfidence 0%Q) 0%Q ].

(** [x] reaches [t] along exactly [k] edges of [R]. *)
Fixpoint StepsTo (R : string -> string -> Prop) (k : nat) (x t : string) : Prop :=
  match k with
  | O => x = t
  | S k' => exists y, R y t /\ StepsTo R k' x y
  end.

(** The set [current] of the wave loop of [identifyCriticalPath] after [k]
    rounds. *)
Fixpoint waveAt (g : MathGraph.t) (k : nat) (current : JSSet.t) : JSSet.t :=
  match k with
  | O => current
  | S k' => waveAt g k' (StudyPlanner.nextWave g current)
  end.

(** A REQUIRES cycle from which [t] is reached: one that is reachable
    backward from [t]. *)
Definition cycleBehind (ops : list Op) (t : string) : Prop :=
  exists c, Reaches (Requires ops) c t /\ Path (Requires ops) c c.

(** ** The vocabulary of [detectCycles] *)

(** The body of the [for (const dep of deps)] loop of [dfs], with the
    recursive call as a parameter. *)
Definition dfsStep (visit : string -> MathGraph.Search -> outcome MathGraph.Search)
  (path' : list string) (s : MathGraph.Search) (dep : string)
  : outcome MathGraph.Search :=
  if negb (JSSet.has (MathGraph.visited s) dep)
  then visit dep s
  else if JSSet.has (MathGraph.recursionStack s) dep
  then Return {| MathGraph.visited := MathGraph.visited s;
                 MathGraph.recursionStack := MathGraph.recursionStack s;
                 MathGraph.cycles :=
                   MathGraph.cycles s ++ [slice path' (indexOf path' dep)] |}
  else Return s.

(** A node is finished when its call of [dfs] has returned. *)
Definition finished (s : MathGraph.Search) (x : string) : Prop :=
  In x (MathGraph.visited s) /\ ~ In x (MathGraph.recursionStack s).

(** As long as no cycle was recorded, the finished nodes are closed under the
    edges of [R] and none of them lies on a cycle. *)
Definition searchInv (R : string -> string -> Prop) (s : MathGraph.Search) : Prop :=
  MathGraph.cycles s = [] ->
  (forall x y, finished s x -> R x y -> finished s y)
  /\ (forall x, finished s x -> ~ Path R x x).

(** The IDs of [U] that were not visited yet. *)
Definition unvisitedCount (U : list string) (visited : JSSet.t) : nat :=
  length (filter (fun u => negb (JSSet.has visited u)) U).

(** Every ID the traversal can meet: the keys of [nodes] and the targets of
    the edges. *)
Definition universe (ops : list Op) : list string :=
  JSMap.keys (MathGraph.nodes (build ops)) ++ map GraphEdge.to (edgesOf ops).

(** A REQUIRES cycle that is reached from an ID with a node record. *)
Definition cycleAhead (ops : list Op) : Prop :=
  exists r x, In r (nodeIdsOf ops)
              /\ Reaches (Requires ops) r x /\ Path (Requires ops) x x.

(** What one call [dfs(n, _)] does to the state of the search. *)
Definition dfsPost (ops : list Op) (n : string) (s s' : MathGraph.Search) : Prop :=
  MathGraph.recursionStack s' = MathGraph.recursionStack s
  /\ incl (MathGraph.visited s) (MathGraph.visited s')
  /\ In n (MathGraph.visited s')
  /\ (~ cycleAhead ops -> MathGraph.cycles s' = MathGraph.cycles s)
  /\ (MathGraph.cycles s' = [] -> MathGraph.cycles s = [])
  /\ (searchInv (Requires ops) s -> searchInv (Requires ops) s').

(** What [dfs] needs of the state in which it is called on [d], and what it
    gives when [budget] covers the IDs not visited yet. *)
Definition visitSpec (ops : list Op)
  (visit : string -> MathGraph.Search -> outcome MathGraph.Search) (budget : nat)
  : Prop :=
  forall d s,
    In d (universe ops) ->
    ~ In d (MathGraph.visited s) ->
    unvisitedCount (universe ops) (MathGraph.visited s) <= budget ->
    incl (MathGraph.recursionStack s) (MathGraph.visited s) ->
    (forall a, In a (MathGraph.recursionStack s) -> Path (Requires ops) a d) ->
    (exists r, In r (nodeIdsOf ops) /\ Reaches (Requires ops) r d) ->
    exists s', visit d s = Return s' /\ dfsPost ops d s s'.

(** * Further vocabulary *)

From Stdlib Require Sorted Qround SpecFloat.

(** The most recent node record added under the ID [i]. *)
Definition lastNodeWith (ops : list Op) (i : string) : option MathNode.t :=
  find (fun n => String.eqb (MathNode.id n) i) (rev (nodesOf ops)).

(** The REQUIRES edges [a -> b] that were added, one entry per call. *)
Definition requiresEdges (ops : list Op) (a b : string) : list GraphEdge.t :=
  filter (fun e => isREQUIRES (GraphEdge.type e)
                   && String.eqb (GraphEdge.from e) a
                   && String.eqb (GraphEdge.to e) b)
    (edgesOf ops).

(** The calls that [getSubgraph(nodeIds)] makes on the new graph: the records
    found for the IDs, then, ID by ID, the outgoing edges that end in the
    set. *)
Definition subNodes (g : MathGraph.t) (nodeIds : list string) : list MathNode.t :=
  flat_map (fun id => match MathGraph.getNode g id with
                      | Some node => [node]
                      | None => []
                      end) nodeIds.

Definition keptEdges (g : MathGraph.t) (nodeIds : list string) (id : string)
  : list GraphEdge.t :=
  filter (fun edge => JSSet.has (JSSet.ofList nodeIds) (GraphEdge.to edge))
    (MathGraph.getOutgoingEdges g id).

Definition subEdges (g : MathGraph.t) (nodeIds : list string) : list GraphEdge.t :=
  flat_map (keptEdges g nodeIds) nodeIds.

Definition subOps (g : MathGraph.t) (nodeIds : list string) : list Op :=
  map AddNode (subNodes g nodeIds) ++ map AddEdge (subEdges g nodeIds).

(** ** Closed chains *)

(** Each entry of the list is joined to the next one by [R]. *)
Fixpoint chain (R : string -> string -> Prop) (l : list string) : Prop :=
  match l with
  | x :: (y :: _) as rest => R x y /\ chain R rest
  | _ => True
  end.

(** A cycle as [detectCycles] lists it: distinct IDs, each joined to the next
    and the last one back to the first. *)
Definition closedChain (R : string -> string -> Prop) (c : list string) : Prop :=
  c <> [] /\ NoDup c /\ chain R c /\ R (last c EmptyString) (hd EmptyString c).

(** The state of the search while the calls of [dfs] for the IDs of [path],
    outermost first, are running. *)
Definition searchOn (R : string -> string -> Prop) (path : list string)
  (s : MathGraph.Search) : Prop :=
  NoDup path
  /\ chain R path
  /\ (forall a, In a (MathGraph.recursionStack s) <-> In a path)
  /\ incl path (MathGraph.visited s)
  /\ Forall (closedChain R) (MathGraph.cycles s).

(** ** More of DiagnosticsCore *)

(** [xs.sort(compare)] on any array, as [sort] above: stable, an element
    moves in front of a later one only when [compare] is positive.  The
    comparators are differences of two numbers; the sign of a difference of
    two doubles is the sign of the exact difference. *)
Fixpoint insertBy {A : Type} (compare : A -> A -> Q) (x : A) (sorted : list A)
  : list A :=
  match sorted with
  | [] => [x]
  | y :: rest =>
      if Qle_bool (compare x y) 0 then x :: y :: rest
      else y :: insertBy compare x rest
  end.

Fixpoint sortBy {A : Type} (compare : A -> A -> Q) (xs : list A) : list A :=
  match xs with
  | [] => []
  | x :: rest => insertBy compare x (sortBy compare rest)
  end.

(** [xs.slice(0, end)] for a whole number [end]: a negative [end] counts from
    the end of the array. *)
Definition sliceTo {A : Type} (xs : list A) (end_ : Z) : list A :=
  if Z.ltb end_ 0
  then firstn (Z.to_nat (Z.max 0 (Z.of_nat (length xs) + end_))) xs
  else firstn (Z.to_nat end_) xs.

(** [{ conceptId, confidence }]. *)
Module WeakPrereq.
Record t : Type := {
  conceptId : string;
  confidence : Q
}.
End WeakPrereq.

Definition getWeakestPrerequisites (eng : DiagnosticsEngine.t) (userId : string)
  (graph : MathGraph.t) (conceptId : string) (limit : Z)
  : outcome (list WeakPrereq.t) :=
  prereqs <- MathGraph.getAllPrerequisites graph conceptId ;;
  let weakPrereqs :=
    map (fun prereqId =>
           {| WeakPrereq.conceptId := prereqId;
              WeakPrereq.confidence :=
                DiagnosticsEngine.getConfidence eng userId prereqId |})
      prereqs in
  Return (sliceTo
            (sortBy (fun a b => (WeakPrereq.confidence a - WeakPrereq.confidence b)%Q)
               weakPrereqs)
            limit).

(** [StudyPath].  [curriculum] is the string that the caller passed, and
    [estimated_total_hours] is a double. *)
Module StudyPath.
Record t {F : Type} : Type := {
  user_id : string;
  target_exam : string;
  curriculum : string;
  year_level : Q;
  time_remaining_days : Q;
  ordered_concepts : list string;
  confidence_map : JSMap.t Q;
  gaps : list string;
  estimated_total_hours : F
}.
Arguments t F : clear implicits.
End StudyPath.

(** [o[k] = v] on a plain object [{}] that holds numbers: the property [k] is
    added or replaced, except that assigning a number to [__proto__] changes
    nothing.  The order in which an object lists its properties is not
    modelled. *)
Definition objectSet (o : JSMap.t Q) (k : string) (v : Q) : JSMap.t Q :=
  if String.eqb k "__proto__" then o else JSMap.set o k v.

(** The estimates are computed in double arithmetic.  [F] stands for the
    doubles, [ofQ] for the double that a stored number is, [nan] for [NaN],
    the operations are those that JavaScript performs, and [sign] is what
    [sort] reads off a double returned by a comparator: negative, zero (also
    for [NaN]) or positive. *)
Module Doubles.
Record t : Type := {
  F : Type;
  ofQ : Q -> F;
  add : F -> F -> F;
  sub : F -> F -> F;
  mul : F -> F -> F;
  div : F -> F -> F;
  ceil : F -> F;
  round : F -> F;
  nan : F;
  sign : F -> Q
}.
End Doubles.

Section Estimates.
Variable D : Doubles.t.

#[local] Abbreviation F := (Doubles.F D).
#[local] Abbreviation ofQ := (Doubles.ofQ D).
#[local] Abbreviation fadd := (Doubles.add D).
#[local] Abbreviation fsub := (Doubles.sub D).
#[local] Abbreviation fmul := (Doubles.mul D).
#[local] Abbreviation fdiv := (Doubles.div D).
#[local] Abbreviation Math_ceil := (Doubles.ceil D).
#[local] Abbreviation Math_round := (Doubles.round D).
#[local] Abbreviation nan := (Doubles.nan D).
#[local] Abbreviation signOf := (Doubles.sign D).

(** [confidenceMap[conceptId] || 0], read after [confidenceMap[conceptId]]
    was assigned: the number assigned, or for [__proto__] the prototype
    object, which is [NaN] in arithmetic. *)
Definition confidenceDiscountOf (confidenceMap : JSMap.t Q) (conceptId : string) : F :=
  match JSMap.get confidenceMap conceptId with
  | Some confidence => ofQ confidence
  | None => nan
  end.

Definition generateStudyPath (eng : DiagnosticsEngine.t) (userId : string)
  (graph : MathGraph.t) (targetConcepts : list string) (timeRemainingDays : Q)
  (targetExam curriculumSystem : string) (yearLevel : Q)
  : outcome (StudyPath.t F) :=
  gaps <- DiagnosticsEngine.detectGaps eng userId graph targetConcepts literal_0_7 ;;
  let toStudy := DiagnosticsEngine.missing gaps ++ DiagnosticsEngine.weak gaps in
  ordered <- MathGraph.topologicalSort graph toStudy ;;
  let confidenceMap :=
    fold_left
      (fun confidenceMap conceptId =>
         objectSet confidenceMap conceptId
           (DiagnosticsEngine.getConfidence eng userId conceptId))
      ordered JSMap.empty in
  let totalHours :=
    fold_left
      (fun totalHours conceptId =>
         match MathGraph.getNode graph conceptId with
         | Some node =>
             let baseTime := ofQ (1 # 2) in
             let complexityMultiplier :=
               fadd (ofQ 1) (fdiv (ofQ (MathNode.complexity node)) (ofQ 10)) in
             let confidenceDiscount := confidenceDiscountOf confidenceMap conceptId in
             fadd totalHours
               (fmul (fmul baseTime complexityMultiplier)
                  (fsub (ofQ 1) (fmul confidenceDiscount (ofQ (1 # 2)))))
         | None => totalHours
         end)
      ordered (ofQ 0) in
  Return {| StudyPath.user_id := userId;
            StudyPath.target_exam := targetExam;
            StudyPath.curriculum := curriculumSystem;
            StudyPath.year_level := yearLevel;
            StudyPath.time_remaining_days := timeRemainingDays;
            StudyPath.ordered_concepts := ordered;
            StudyPath.confidence_map := confidenceMap;
            StudyPath.gaps := DiagnosticsEngine.missing gaps;
            StudyPath.estimated_total_hours := Math_ceil totalHours |}.

(** [{ id, priority }]. *)
Record Candidate : Type := {
  candidateId : string;
  priority : F
}.

Definition recommendNextConcepts (eng : DiagnosticsEngine.t) (userId : string)
  (graph : MathGraph.t) (targetConcepts : list string) (limit : Z)
  : outcome (list string) :=
  let known := DiagnosticsEngine.getKnownConcepts eng userId literal_0_7 in
  studyPath <- generateStudyPath eng userId graph targetConcepts 30
                 "unknown" "UNKNOWN" 0 ;;
  let candidates :=
    fold_left
      (fun candidates conceptId =>
         if JSSet.has known conceptId then candidates
         else
           let prereqs := MathGraph.getPrerequisites graph conceptId in
           let prereqsMet := forallb (fun p => JSSet.has known p) prereqs in
           if prereqsMet
           then
             let confidence := DiagnosticsEngine.getConfidence eng userId conceptId in
             let priority := fmul (fsub (ofQ 1) (ofQ confidence)) (ofQ 10) in
             candidates ++ [{| candidateId := conceptId; priority := priority |}]
           else candidates)
      (StudyPath.ordered_concepts studyPath) [] in
  Return (map candidateId
            (sliceTo
               (sortBy (fun a b => signOf (fsub (priority b) (priority a)))
                  candidates)
               limit)).

(** The record that [getStudyStats] returns. *)
Record StudyStats : Type := {
  totalConcepts : nat;
  strongConcepts : nat;
  weakConcepts : nat;
  unstartedConcepts : nat;
  totalTimeSpent : F;
  averageConfidence : F
}.

Definition getStudyStats (eng : DiagnosticsEngine.t) (userId : string) : StudyStats :=
  let userProgress := DiagnosticsEngine.getUserProgress eng userId in
  let strong :=
    length (filter (fun p => Qle_bool literal_0_7 (ConceptProgress.confidence p))
              userProgress) in
  let weak :=
    length (filter (fun p => Qlt_bool 0 (ConceptProgress.confidence p)
                             && Qlt_bool (ConceptProgress.confidence p) literal_0_7)
              userProgress) in
  let unstarted :=
    length (filter (fun p => Qeq_bool (ConceptProgress.confidence p) 0)
              userProgress) in
  let totalTime :=
    fold_left (fun sum p => fadd sum (ofQ (ConceptProgress.time_spent_seconds p)))
      userProgress (ofQ 0) in
  let avgConfidence :=
    if Nat.ltb 0 (length userProgress)
    then fdiv (fold_left (fun sum p => fadd sum (ofQ (ConceptProgress.confidence p)))
                 userProgress (ofQ 0))
           (ofQ (inject_Z (Z.of_nat (length userProgress))))
    else ofQ 0 in
  {| totalConcepts := length userProgress;
     strongConcepts := strong;
     weakConcepts := weak;
     unstartedConcepts := unstarted;
     totalTimeSpent := Math_round (fdiv totalTime (ofQ 60));
     averageConfidence := fdiv (Math_round (fmul avgConfidence (ofQ 100))) (ofQ 100) |}.

End Estimates.

(** ** More of StudyPlanner *)

(** [xs.slice(start, end)] for whole numbers [0 <= start] and [0 <= end]. *)
Definition sliceBetween {A : Type} (xs : list A) (start end_ : nat) : list A :=
  firstn (end_ - start) (skipn start xs).

(** [{ date, concepts }]; [date] is given as the number of days after the
    date of the call, which is the day that [setDate(getDate() + day)]
    reaches. *)
Module Session.
Record t : Type := {
  date : nat;
  concepts : list string
}.
End Session.

(** [suggestReviewSchedule].  The loop runs for the whole numbers
    [0 <= day < time_remaining_days].  [conceptsPerSession] is computed
    exactly, which is what [Math.ceil] of the double quotient gives when
    [time_remaining_days] is a whole number; it is not negative when the loop
    runs at all. *)
Definition suggestReviewSchedule {F : Type} (userId : string)
  (studyPath : StudyPath.t F) : list Session.t :=
  let ordered := StudyPath.ordered_concepts studyPath in
  let days := StudyPath.time_remaining_days studyPath in
  let conceptsPerSession :=
    Z.to_nat (Qround.Qceiling (inject_Z (Z.of_nat (length ordered)) / days)) in
  flat_map
    (fun day =>
       let startIdx := day * conceptsPerSession in
       let endIdx := Nat.min (startIdx + conceptsPerSession) (length ordered) in
       let concepts := sliceBetween ordered startIdx endIdx in
       if Nat.ltb 0 (length concepts)
       then [{| Session.date := day; Session.concepts := concepts |}]
       else [])
    (seq 0 (Z.to_nat (Qround.Qceiling days))).

(** Five concepts over three days: two, two and one. *)
Definition fiveInThreeDays : StudyPath.t unit :=
  {| StudyPath.user_id := "u";
     StudyPath.target_exam := "exam";
     StudyPath.curriculum := "VCE";
     StudyPath.year_level := 12%Q;
     StudyPath.time_remaining_days := inject_Z 3;
     StudyPath.ordered_concepts := ["A"; "B"; "C"; "D"; "E"];
     StudyPath.confidence_map := JSMap.empty;
     StudyPath.gaps := [];
     StudyPath.estimated_total_hours := tt |}.

(** ** ExamEngine ([packages/exams/src/index.ts]) *)

Module ExamProfile.
Record t : Type := {
  id : string;
  system : CurriculumSystem;
  name : string;
  year_level : Q;
  required_concepts : list string;
  optional_concepts : list string;
  excluded_concepts : list string;
  typical_depth : JSMap.t DepthLevel;
  time_limit_minutes : Q
}.
End ExamProfile.

Module ExamEngine.

Record t : Type := {
  profiles : JSMap.t ExamProfile.t
}.

Definition new : t := {| profiles := JSMap.empty |}.

Definition addProfile (eng : t) (profile : ExamProfile.t) : t :=
  {| profiles := JSMap.set (profiles eng) (ExamProfile.id profile) profile |}.

Definition getProfile (eng : t) (examId : string) : option ExamProfile.t :=
  JSMap.get (profiles eng) examId.

Definition getAllRequiredConcepts (eng : t) (examId : string) : list string :=
  match getProfile eng examId with
  | Some profile => ExamProfile.required_concepts profile
  | None => []
  end.

Definition isConceptRequired (eng : t) (conceptId examId : string) : bool :=
  match getProfile eng examId with
  | Some profile => includes (ExamProfile.required_concepts profile) conceptId
  | None => false
  end.

Definition isConceptOptional (eng : t) (conceptId examId : string) : bool :=
  match getProfile eng examId with
  | Some profile => includes (ExamProfile.optional_concepts profile) conceptId
  | None => false
  end.

Definition isConceptExcluded (eng : t) (conceptId examId : string) : bool :=
  match getProfile eng examId with
  | Some profile => includes (ExamProfile.excluded_concepts profile) conceptId
  | None => false
  end.

(** The loop of [getExamSubgraph] that collects the prerequisites. *)
Definition collectPrereqs (graph : MathGraph.t) (conceptSet : JSSet.t)
  : outcome JSSet.t :=
  forOf
    (fun allPrereqs conceptId =>
       prereqs <- MathGraph.getAllPrerequisites graph conceptId ;;
       Return (JSSet.addAll allPrereqs prereqs))
    conceptSet JSSet.empty.

Definition getExamSubgraph (eng : t) (graph : MathGraph.t) (examId : string)
  (includeOptional : bool) : outcome MathGraph.t :=
  match getProfile eng examId with
  | None => Return MathGraph.new
  | Some profile =>
      let conceptSet := JSSet.ofList (ExamProfile.required_concepts profile) in
      let conceptSet :=
        if includeOptional
        then JSSet.addAll conceptSet (ExamProfile.optional_concepts profile)
        else conceptSet in
      allPrereqs <- collectPrereqs graph conceptSet ;;
      let conceptSet := JSSet.addAll conceptSet allPrereqs in
      let filtered :=
        filter (fun id => negb (includes (ExamProfile.excluded_concepts profile) id))
          conceptSet in
      Return (MathGraph.getSubgraph graph filtered)
  end.

Record StudyPlan : Type := {
  ordered : list string;
  required : list string;
  optional : list string;
  gaps : list string;
  totalConcepts : nat
}.

(** The loop of [getStudyPlan] that collects the prerequisites which the
    profile does not exclude. *)
Definition collectAllowedPrereqs (graph : MathGraph.t) (profile : ExamProfile.t)
  (allConcepts : JSSet.t) : outcome JSSet.t :=
  forOf
    (fun allPrereqs conceptId =>
       prereqs <- MathGraph.getAllPrerequisites graph conceptId ;;
       Return
         (fold_left
            (fun allPrereqs p =>
               if negb (includes (ExamProfile.excluded_concepts profile) p)
               then JSSet.add allPrereqs p
               else allPrereqs)
            prereqs allPrereqs))
    allConcepts JSSet.empty.

Definition getStudyPlan (eng : t) (graph : MathGraph.t) (examId : string)
  (knownConcepts : JSSet.t) (includeOptional : bool) : outcome StudyPlan :=
  match getProfile eng examId with
  | None =>
      Return {| ordered := []; required := []; optional := []; gaps := [];
                totalConcepts := 0 |}
  | Some profile =>
      let requiredSet := JSSet.ofList (ExamProfile.required_concepts profile) in
      let optionalSet := JSSet.ofList (ExamProfile.optional_concepts profile) in
      let allConcepts :=
        JSSet.addAll JSSet.empty (ExamProfile.required_concepts profile) in
      let allConcepts :=
        if includeOptional
        then JSSet.addAll allConcepts (ExamProfile.optional_concepts profile)
        else allConcepts in
      allPrereqs <- collectAllowedPrereqs graph profile allConcepts ;;
      let studySet := JSSet.ofList (allConcepts ++ allPrereqs) in
      let toStudy :=
        filter (fun id => negb (JSSet.has knownConcepts id)) studySet in
      ordered <- MathGraph.topologicalSort graph toStudy ;;
      Return {| ordered := ordered;
                required := filter (fun id => JSSet.has requiredSet id) ordered;
                optional := filter (fun id => JSSet.has optionalSet id) ordered;
                gaps := filter (fun id => negb (JSSet.has requiredSet id)
                                          && negb (JSSet.has optionalSet id))
                          ordered;
                totalConcepts := length ordered |}
  end.

(** [Array.from(this.profiles.values())], the array that [exportProfiles]
    writes out. *)
Definition profileList (eng : t) : list ExamProfile.t :=
  JSMap.values (profiles eng).

(** The loop of [fromJSON] over the parsed array. *)
Definition fromProfiles (parsed : list ExamProfile.t) : t :=
  fold_left addProfile parsed new.

(** [fromJSON(json)].  [JSON.parse] is a parameter: it gives the array that a
    text denotes, or nothing when it throws on the text. *)
Definition fromJSON (JSON_parse : string -> option (list ExamProfile.t))
  (json : string) : option t :=
  match JSON_parse json with
  | Some parsed => Some (fromProfiles parsed)
  | None => None
  end.

End ExamEngine.

(** The concepts an exam asks for: the required ones, with the optional ones
    on request. *)
Definition examConcepts (profile : ExamProfile.t) (includeOptional : bool)
  : list string :=
  ExamProfile.required_concepts profile
  ++ (if includeOptional then ExamProfile.optional_concepts profile else []).

(** [c] is a target or a prerequisite, direct or not, of a target. *)
Definition InClosure (ops : list Op) (targets : list string) (c : string) : Prop :=
  In c targets \/ exists t, In t targets /\ Path (Requires ops) c t.

(** The string that a [CurriculumSystem] is. *)
Definition CurriculumSystem_name (s : CurriculumSystem) : string :=
  match s with
  | VCE => "VCE" | GCSE => "GCSE" | A_LEVEL => "A_LEVEL" | IB => "IB"
  | AP => "AP" | SAT => "SAT" | ACT => "ACT" | UNIVERSITY => "UNIVERSITY"
  | OLYMPIAD => "OLYMPIAD"
  end.

(** [generateExamStudyPath]; [None] is [null].  The planner's exam engine is
    passed beside the planner. *)
Definition generateExamStudyPath (D : Doubles.t) (sp : StudyPlanner.t)
  (examEngine : ExamEngine.t) (userId examId : string) (timeRemainingDays : Q)
  (includeOptional : bool) : outcome (option (StudyPath.t (Doubles.F D))) :=
  match ExamEngine.getProfile examEngine examId with
  | None => Return None
  | Some examProfile =>
      let knownConcepts :=
        DiagnosticsEngine.getKnownConcepts (StudyPlanner.diagnosticsEngine sp)
          userId literal_0_7 in
      studyPlan <- ExamEngine.getStudyPlan examEngine (StudyPlanner.graph sp)
                     examId knownConcepts includeOptional ;;
      path <- generateStudyPath D (StudyPlanner.diagnosticsEngine sp) userId
                (StudyPlanner.graph sp) (ExamEngine.ordered studyPlan)
                timeRemainingDays examId
                (CurriculumSystem_name (ExamProfile.system examProfile))
                (ExamProfile.year_level examProfile) ;;
      Return (Some path)
  end.

(** ** CurriculumEngine *)

Module CurriculumMapping.
Record t : Type := {
  id : string;
  system : CurriculumSystem;
  year_level : Q;
  name : string;
  description : string;
  concepts : list string;
  optional_concepts : list string;
  excluded_concepts : list string;
  estimated_hours : Q
}.
End CurriculumMapping.

Module CurriculumEngine.

Record t : Type := {
  mappings : JSMap.t CurriculumMapping.t
}.

Definition new : t := {| mappings := JSMap.empty |}.

Record Comparison : Type := {
  shared : list string;
  only1 : list string;
  only2 : list string
}.

Section Keys.

(** How a template literal writes a number. *)
Variable Number_toString : Q -> string.

(** The key [`${system}:${yearLevel}`]; [system] is the string that the
    caller passed. *)
Definition getMappingKey (system : string) (yearLevel : Q) : string :=
  (system ++ ":" ++ Number_toString yearLevel)%string.

Definition addMapping (eng : t) (mapping : CurriculumMapping.t) : t :=
  let key :=
    getMappingKey (CurriculumSystem_name (CurriculumMapping.system mapping))
      (CurriculumMapping.year_level mapping) in
  {| mappings := JSMap.set (mappings eng) key mapping |}.

Definition getMapping (eng : t) (system : string) (yearLevel : Q)
  : option CurriculumMapping.t :=
  JSMap.get (mappings eng) (getMappingKey system yearLevel).

Definition getAllConcepts (eng : t) (system : string) (yearLevel : Q)
  : list string :=
  match getMapping eng system yearLevel with
  | Some mapping =>
      CurriculumMapping.concepts mapping
      ++ CurriculumMapping.optional_concepts mapping
  | None => []
  end.

Definition getRequiredConcepts (eng : t) (system : string) (yearLevel : Q)
  : list string :=
  match getMapping eng system yearLevel with
  | Some mapping => CurriculumMapping.concepts mapping
  | None => []
  end.

Definition isConceptExcluded (eng : t) (conceptId system : string) (yearLevel : Q)
  : bool :=
  match getMapping eng system yearLevel with
  | Some mapping => includes (CurriculumMapping.excluded_concepts mapping) conceptId
  | None => false
  end.

Definition getCurriculumSubgraph (eng : t) (graph : MathGraph.t) (system : string)
  (yearLevel : Q) (includePrerequisites : bool) : outcome MathGraph.t :=
  match getMapping eng system yearLevel with
  | None => Return MathGraph.new
  | Some mapping =>
      let conceptSet := JSSet.ofList (CurriculumMapping.concepts mapping) in
      conceptSet <-
        (if includePrerequisites
         then
           allPrereqs <-
             forOf
               (fun allPrereqs conceptId =>
                  prereqs <- MathGraph.getAllPrerequisites graph conceptId ;;
                  Return (JSSet.addAll allPrereqs prereqs))
               (CurriculumMapping.concepts mapping) JSSet.empty ;;
           Return (JSSet.addAll conceptSet allPrereqs)
         else Return conceptSet) ;;
      let filtered :=
        filter
          (fun id => negb (includes (CurriculumMapping.excluded_concepts mapping) id))
          conceptSet in
      Return (MathGraph.getSubgraph graph filtered)
  end.

Definition comparePrograms (eng : t) (system1 : string) (year1 : Q)
  (system2 : string) (year2 : Q) : Comparison :=
  let concepts1 := JSSet.ofList (getAllConcepts eng system1 year1) in
  let concepts2 := JSSet.ofList (getAllConcepts eng system2 year2) in
  let first :=
    fold_left
      (fun acc c =>
         if JSSet.has concepts2 c
         then (fst acc ++ [c], snd acc)
         else (fst acc, snd acc ++ [c]))
      concepts1 ([], []) in
  let only2 :=
    fold_left
      (fun only2 c => if negb (JSSet.has concepts1 c) then only2 ++ [c] else only2)
      concepts2 [] in
  {| shared := fst first; only1 := snd first; only2 := only2 |}.

Definition getConceptDepth (eng : t) (conceptId system : string) (yearLevel : Q)
  : option DepthLevel :=
  match getMapping eng system yearLevel with
  | None => None
  | Some mapping =>
      if includes (CurriculumMapping.concepts mapping) conceptId then Some core
      else if includes (CurriculumMapping.optional_concepts mapping) conceptId
           then Some intro
           else None
  end.

End Keys.

End CurriculumEngine.

(** [generateCurriculumStudyPath]; [None] is [null].  The planner's
    curriculum engine is passed beside the planner. *)
Definition generateCurriculumStudyPath (D : Doubles.t)
  (Number_toString : Q -> string) (sp : StudyPlanner.t)
  (curriculumEngine : CurriculumEngine.t) (userId system : string)
  (yearLevel timeRemainingDays : Q)
  : outcome (option (StudyPath.t (Doubles.F D))) :=
  match CurriculumEngine.getMapping Number_toString curriculumEngine system
          yearLevel with
  | None => Return None
  | Some mapping =>
      let knownConcepts :=
        DiagnosticsEngine.getKnownConcepts (StudyPlanner.diagnosticsEngine sp)
          userId literal_0_7 in
      let toStudy :=
        filter (fun c => negb (JSSet.has knownConcepts c))
          (CurriculumMapping.concepts mapping) in
      path <- generateStudyPath D (StudyPlanner.diagnosticsEngine sp) userId
                (StudyPlanner.graph sp) toStudy timeRemainingDays
                (system ++ "_year" ++ Number_toString yearLevel)%string
                system yearLevel ;;
      Return (Some path)
  end.

(** ** The hours estimate of [generateStudyPath] *)

(** One term of [totalHours]:
    [baseTime * complexityMultiplier * (1 - confidenceDiscount * 0.5)] with
    [baseTime = 0.5] and [complexityMultiplier = 1 + (node.complexity / 10)]. *)
Definition hoursTerm (D : Doubles.t) (complexity : Q)
  (confidenceDiscount : Doubles.F D) : Doubles.F D :=
  Doubles.mul D
    (Doubles.mul D (Doubles.ofQ D (1 # 2))
       (Doubles.add D (Doubles.ofQ D 1)
          (Doubles.div D (Doubles.ofQ D complexity) (Doubles.ofQ D 10))))
    (Doubles.sub D (Doubles.ofQ D 1)
       (Doubles.mul D confidenceDiscount (Doubles.ofQ D (1 # 2)))).

(** The numbers of JavaScript: IEEE 754 binary64 with rounding to nearest,
    ties to even, as the Standard Library specifies it. *)
Module Binary64.

Definition prec : Z := 53.
Definition emax : Z := 1024.

Definition double : Type := SpecFloat.spec_float.

(** The double nearest to a whole number. *)
Definition ofZ (z : Z) : double :=
  SpecFloat.binary_normalize prec emax z 0 false.

(** The double that a rational is.  A stored number is a double, that is a
    whole number over a power of two, and is taken as it is; any other
    rational with numerator and denominator below [2^53] is rounded to the
    nearest double by the division. *)
Definition ofQ (q : Q) : double :=
  let k := Z.log2 (Zpos (Qden q)) in
  if Z.eqb (Zpos (Qden q)) (2 ^ k)
  then SpecFloat.binary_normalize prec emax (Qnum q) (- k) false
  else SpecFloat.SFdiv prec emax (ofZ (Qnum q)) (ofZ (Zpos (Qden q))).

Definition add : double -> double -> double := SpecFloat.SFadd prec emax.
Definition sub : double -> double -> double := SpecFloat.SFsub prec emax.
Definition mul : double -> double -> double := SpecFloat.SFmul prec emax.
Definition div : double -> double -> double := SpecFloat.SFdiv prec emax.

(** The whole number [n] of a finite double [n * 2^e]. *)
Definition signed (s : bool) (m : positive) : Z :=
  if s then Z.neg m else Z.pos m.

(** [Math.ceil]: a double with [e >= 0] is whole; a negative double above
    [-1] gives [-0]. *)
Definition ceil (x : double) : double :=
  match x with
  | SpecFloat.S754_finite s m e =>
      if Z.leb 0 e then x
      else
        let c := (- ((- signed s m) / 2 ^ (- e)))%Z in
        if Z.eqb c 0 then SpecFloat.S754_zero s
        else SpecFloat.binary_normalize prec emax c 0 false
  | _ => x
  end.

(** [Math.round]: [floor(x + 0.5)], computed exactly; [-0] for
    [-0.5 <= x < 0]. *)
Definition round (x : double) : double :=
  match x with
  | SpecFloat.S754_finite s m e =>
      if Z.leb 0 e then x
      else
        let r := ((2 * signed s m + 2 ^ (- e)) / 2 ^ (1 - e))%Z in
        if Z.eqb r 0 then SpecFloat.S754_zero s
        else SpecFloat.binary_normalize prec emax r 0 false
  | _ => x
  end.

(** What [sort] makes of the value of a comparator. *)
Definition sign (x : double) : Q :=
  match x with
  | SpecFloat.S754_finite s _ _ | SpecFloat.S754_infinity s =>
      if s then (-1)%Q else 1%Q
  | _ => 0%Q
  end.

Definition doubles : Doubles.t :=
  {| Doubles.F := double;
     Doubles.ofQ := ofQ;
     Doubles.add := add;
     Doubles.sub := sub;
     Doubles.mul := mul;
     Doubles.div := div;
     Doubles.ceil := ceil;
     Doubles.round := round;
     Doubles.nan := SpecFloat.S754_nan;
     Doubles.sign := sign |}.

End Binary64.

(** Arithmetic that never rounds: the rationals themselves. *)
Definition exactArithmetic : Doubles.t :=
  {| Doubles.F := Q;
     Doubles.ofQ := fun q => q;
     Doubles.add := Qplus;
     Doubles.sub := Qminus;
     Doubles.mul := Qmult;
     Doubles.div := Qdiv;
     Doubles.ceil := fun x => inject_Z (Qround.Qceiling x);
     Doubles.round := fun x => inject_Z (Qround.Qfloor (x + (1 # 2)));
     Doubles.nan := 0%Q;
     Doubles.sign := fun x => x |}.

(** [val] reads every double as the rational it is, and no operation of [D]
    rounds. *)
Record Exact (D : Doubles.t) (val : Doubles.F D -> Q) : Prop := {
  val_ofQ : forall q, (val (Doubles.ofQ D q) == q)%Q;
  val_add : forall x y, (val (Doubles.add D x y) == val x + val y)%Q;
  val_sub : forall x y, (val (Doubles.sub D x y) == val x - val y)%Q;
  val_mul : forall x y, (val (Doubles.mul D x y) == val x * val y)%Q;
  val_div : forall x y, ~ (val y == 0)%Q ->
                        (val (Doubles.div D x y) == val x / val y)%Q;
  val_ceil : forall x,
      (val (Doubles.ceil D x) == inject_Z (Qround.Qceiling (val x)))%Q
}.

(** The formula of the specification, over the rationals: the time of a
    concept without discount, its discounted time, and the sum over the
    ordered concepts rounded up to whole hours. *)
Definition nominalHours (complexity : Q) : Q :=
  ((1 # 2) * (1 + complexity / 10))%Q.

Definition discountFactor (confidence : Q) : Q :=
  (1 - confidence * (1 # 2))%Q.

Definition claimedSum (g : MathGraph.t) (eng : DiagnosticsEngine.t)
  (userId : string) (ordered : list string) : Q :=
  fold_left
    (fun sum conceptId =>
       match MathGraph.getNode g conceptId with
       | Some node =>
           (sum + nominalHours (MathNode.complexity node)
                  * discountFactor
                      (DiagnosticsEngine.getConfidence eng userId conceptId))%Q
       | None => sum
       end)
    ordered 0%Q.

Definition claimedHours (g : MathGraph.t) (eng : DiagnosticsEngine.t)
  (userId : string) (ordered : list string) : Z :=
  Qround.Qceiling (claimedSum g eng userId ordered).

(** Ten concepts of complexity 4 without edges; the user has no record. *)
Definition tenIds : list string :=
  ["c0"; "c1"; "c2"; "c3"; "c4"; "c5"; "c6"; "c7"; "c8"; "c9"].

Definition tenConcepts : list Op :=
  map (fun id => AddNode (plainNode id 4%Q)) tenIds.

(** * Properties *)

(** ** Maps and sets *)

Ltac eqb_case a b :=
  let E := fresh "E" in
  destruct (String.eqb a b) eqn:E;
  [ apply String.eqb_eq in E | apply String.eqb_neq in E ].

Section MapFacts.
Context {V : Type}.
Implicit Types (m : JSMap.t V) (k : string) (v : V).

Lemma get_set m k v k' :
  JSMap.get (JSMap.set m k v) k' = if String.eqb k k' then Some v else JSMap.get m k'.
Proof.
  induction m as [|[k0 v0] m IH]; simpl.
  - reflexivity.
  - eqb_case k0 k; simpl.
    + subst k0. destruct (String.eqb k k'); reflexivity.
    + rewrite IH. eqb_case k0 k'; [|reflexivity].
      subst k0. apply String.eqb_neq in E. rewrite String.eqb_sym in E.
      now rewrite E.
Qed.

Lemma get_set_same m k v : JSMap.get (JSMap.set m k v) k = Some v.
Proof. now rewrite get_set, String.eqb_refl. Qed.

Lemma get_set_other m k v k' :
  k <> k' -> JSMap.get (JSMap.set m k v) k' = JSMap.get m k'.
Proof. intros H. rewrite get_set. apply String.eqb_neq in H. now rewrite H. Qed.

Lemma get_None m k : JSMap.get m k = None <-> ~ In k (JSMap.keys m).
Proof.
  induction m as [|[k0 v0] m IH]; simpl.
  - tauto.
  - eqb_case k0 k.
    + split; [discriminate | intros H; exfalso; apply H; now left].
    + rewrite IH. tauto.
Qed.

Lemma get_Some_In m k v : JSMap.get m k = Some v -> In (k, v) m.
Proof.
  induction m as [|[k0 v0] m IH]; simpl; [discriminate|].
  eqb_case k0 k.
  - intros [= <-]. subst. now left.
  - intros H. right. now apply IH.
Qed.

Lemma In_get_Some m k v :
  NoDup (JSMap.keys m) -> In (k, v) m -> JSMap.get m k = Some v.
Proof.
  induction m as [|[k0 v0] m IH]; simpl; [tauto|].
  intros ND [H|H].
  - injection H as -> ->. now rewrite String.eqb_refl.
  - inversion ND as [|? ? Hn ND']; subst.
    eqb_case k0 k.
    + subst k0. exfalso. apply Hn. change k with (fst (k, v)). now apply in_map.
    + now apply IH.
Qed.

Lemma has_In_keys m k : JSMap.has m k = true <-> In k (JSMap.keys m).
Proof.
  unfold JSMap.has. destruct (JSMap.get m k) eqn:E.
  - split; [intros _|reflexivity].
    apply get_Some_In in E. change k with (fst (k, v)). now apply in_map.
  - split; [discriminate|]. intros H. now apply get_None in E.
Qed.

Lemma keys_set m k v :
  JSMap.keys (JSMap.set m k v)
  = if JSMap.has m k then JSMap.keys m else JSMap.keys m ++ [k].
Proof.
  unfold JSMap.has.
  induction m as [|[k0 v0] m IH]; simpl; [reflexivity|].
  eqb_case k0 k; simpl.
  - now subst.
  - rewrite IH. now destruct (JSMap.get m k).
Qed.

Lemma In_keys_set m k v k' :
  In k' (JSMap.keys (JSMap.set m k v)) <-> In k' (JSMap.keys m) \/ k' = k.
Proof.
  rewrite keys_set. destruct (JSMap.has m k) eqn:E.
  - apply has_In_keys in E. split; [tauto|]. intros [H| ->]; assumption.
  - rewrite in_app_iff. simpl. intuition congruence.
Qed.

Lemma NoDup_keys_set m k v :
  NoDup (JSMap.keys m) -> NoDup (JSMap.keys (JSMap.set m k v)).
Proof.
  intros ND. rewrite keys_set. destruct (JSMap.has m k) eqn:E; [assumption|].
  apply NoDup_app; [assumption | repeat constructor; simpl; tauto |].
  intros x Hx [<-|[]].
  apply has_In_keys in Hx. congruence.
Qed.
End MapFacts.

Lemma has_In s x : JSSet.has s x = true <-> In x s.
Proof.
  induction s as [|y s IH]; simpl.
  - split; [discriminate | tauto].
  - eqb_case y x.
    + split; [now left | reflexivity].
    + rewrite IH. intuition congruence.
Qed.

Lemma has_false s x : JSSet.has s x = false <-> ~ In x s.
Proof.
  rewrite <- has_In. destruct (JSSet.has s x); split; congruence.
Qed.

Lemma includes_In xs x : includes xs x = true <-> In x xs.
Proof. apply has_In. Qed.

Lemma In_add s x y : In y (JSSet.add s x) <-> In y s \/ y = x.
Proof.
  unfold JSSet.add. destruct (JSSet.has s x) eqn:E.
  - apply has_In in E. split; [tauto|]. intros [H| ->]; assumption.
  - rewrite in_app_iff. simpl. intuition congruence.
Qed.

Lemma NoDup_add s x : NoDup s -> NoDup (JSSet.add s x).
Proof.
  intros ND. unfold JSSet.add. destruct (JSSet.has s x) eqn:E; [assumption|].
  apply has_false in E.
  apply NoDup_app; [assumption | repeat constructor; simpl; tauto |].
  intros z Hz [<-|[]]. contradiction.
Qed.

Lemma In_delete s x y : In y (JSSet.delete s x) <-> In y s /\ y <> x.
Proof.
  induction s as [|z s IH]; simpl; [tauto|].
  eqb_case z x; simpl; rewrite IH; intuition congruence.
Qed.

Lemma NoDup_delete s x : NoDup s -> NoDup (JSSet.delete s x).
Proof.
  induction 1 as [|z s Hz ND IH]; simpl; [constructor|].
  eqb_case z x; [assumption|].
  constructor; [|assumption]. rewrite In_delete. tauto.
Qed.

Lemma In_addAll xs s y : In y (JSSet.addAll s xs) <-> In y s \/ In y xs.
Proof.
  unfold JSSet.addAll. revert s.
  induction xs as [|x xs IH]; intros s; simpl; [tauto|].
  rewrite IH, In_add. intuition congruence.
Qed.

Lemma NoDup_addAll xs s : NoDup s -> NoDup (JSSet.addAll s xs).
Proof.
  unfold JSSet.addAll. revert s.
  induction xs as [|x xs IH]; intros s ND; simpl; [assumption|].
  apply IH. now apply NoDup_add.
Qed.

Lemma In_ofList xs y : In y (JSSet.ofList xs) <-> In y xs.
Proof. unfold JSSet.ofList. rewrite In_addAll. simpl. tauto. Qed.

Lemma NoDup_ofList xs : NoDup (JSSet.ofList xs).
Proof. apply NoDup_addAll. constructor. Qed.

(** ** The two adjacency indexes of a built graph *)

Section IndexFacts.
Context {V : Type}.
Implicit Types (m : JSMap.t (list V)) (k : string).

Lemma get_ensure_same m k :
  JSMap.get (MathGraph.ensure m k) k = Some (listAt m k).
Proof.
  unfold MathGraph.ensure, JSMap.has, listAt.
  destruct (JSMap.get m k) eqn:E; [assumption|].
  apply get_set_same.
Qed.

Lemma listAt_ensure m k a : listAt (MathGraph.ensure m k) a = listAt m a.
Proof.
  unfold MathGraph.ensure, JSMap.has, listAt.
  destruct (JSMap.get m k) eqn:E; [reflexivity|].
  rewrite get_set. eqb_case k a; [|reflexivity].
  subst. now rewrite E.
Qed.

Lemma listAt_push_ensure m k x a :
  listAt (MathGraph.push (MathGraph.ensure m k) k x) a
  = if String.eqb k a then listAt m k ++ [x] else listAt m a.
Proof.
  unfold MathGraph.push. rewrite get_ensure_same.
  unfold listAt at 1. rewrite get_set.
  eqb_case k a; [reflexivity|].
  apply listAt_ensure.
Qed.

Lemma NoDup_keys_ensure m k :
  NoDup (JSMap.keys m) -> NoDup (JSMap.keys (MathGraph.ensure m k)).
Proof.
  intros ND. unfold MathGraph.ensure.
  destruct (JSMap.has m k); [assumption|]. now apply NoDup_keys_set.
Qed.

Lemma NoDup_keys_push m k x :
  NoDup (JSMap.keys m) -> NoDup (JSMap.keys (MathGraph.push m k x)).
Proof.
  intros ND. unfold MathGraph.push.
  destruct (JSMap.get m k); [|assumption]. now apply NoDup_keys_set.
Qed.

Lemma concat_values_set m k l x :
  JSMap.get m k = Some l ->
  Permutation (concat (JSMap.values (JSMap.set m k (l ++ [x]))))
    (x :: concat (JSMap.values m)).
Proof.
  induction m as [|[k0 l0] m IH]; simpl; [discriminate|].
  eqb_case k0 k; simpl.
  - intros [= ->]. rewrite <- app_assoc. simpl.
    symmetry. apply Permutation_middle.
  - intros H. specialize (IH H). unfold JSMap.values in IH.
    rewrite IH. symmetry. apply Permutation_middle.
Qed.

Lemma concat_values_ensure m k :
  concat (JSMap.values (MathGraph.ensure m k)) = concat (JSMap.values m).
Proof.
  unfold MathGraph.ensure. destruct (JSMap.has m k) eqn:E; [reflexivity|].
  unfold JSMap.has in E. destruct (JSMap.get m k) eqn:G; [discriminate|].
  clear E. induction m as [|[k0 l0] m IH]; simpl; [reflexivity|].
  simpl in G. eqb_case k0 k; [discriminate|].
  simpl. f_equal. now apply IH.
Qed.
End IndexFacts.

Lemma build_snoc ops op : build (ops ++ [op]) = apply (build ops) op.
Proof. unfold build. now rewrite fold_left_app. Qed.

Lemma edgesOf_snoc ops op :
  edgesOf (ops ++ [op])
  = edgesOf ops ++ match op with AddEdge e => [e] | AddNode _ => [] end.
Proof. unfold edgesOf. rewrite flat_map_app. simpl. now rewrite app_nil_r. Qed.

Lemma getOutgoingEdges_build ops a :
  MathGraph.getOutgoingEdges (build ops) a
  = filter (fun e => String.eqb (GraphEdge.from e) a) (edgesOf ops).
Proof.
  induction ops as [|op ops IH] using rev_ind; [reflexivity|].
  rewrite build_snoc, edgesOf_snoc, filter_app, <- IH.
  unfold MathGraph.getOutgoingEdges.
  destruct op as [n|e]; simpl.
  - rewrite app_nil_r. apply (listAt_ensure (MathGraph.edges (build ops))).
  - pose proof (listAt_push_ensure (MathGraph.edges (build ops))
                  (GraphEdge.from e) e a) as H.
    unfold listAt in H. rewrite H.
    destruct (String.eqb (GraphEdge.from e) a) eqn:E.
    + apply String.eqb_eq in E. now subst.
    + now rewrite app_nil_r.
Qed.

Lemma getIncomingEdges_build ops b :
  MathGraph.getIncomingEdges (build ops) b
  = filter (fun e => String.eqb (GraphEdge.to e) b) (edgesOf ops).
Proof.
  induction ops as [|op ops IH] using rev_ind; [reflexivity|].
  rewrite build_snoc, edgesOf_snoc, filter_app, <- IH.
  unfold MathGraph.getIncomingEdges.
  destruct op as [n|e]; simpl.
  - rewrite app_nil_r. apply (listAt_ensure (MathGraph.reverseEdges (build ops))).
  - pose proof (listAt_push_ensure (MathGraph.reverseEdges (build ops))
                  (GraphEdge.to e) e b) as H.
    unfold listAt in H. rewrite H.
    destruct (String.eqb (GraphEdge.to e) b) eqn:E.
    + apply String.eqb_eq in E. now subst.
    + now rewrite app_nil_r.
Qed.

Lemma isREQUIRES_true t : isREQUIRES t = true <-> t = REQUIRES.
Proof. destruct t; simpl; split; congruence. Qed.

Lemma In_getPrerequisites ops a b :
  In a (MathGraph.getPrerequisites (build ops) b) <-> Requires ops a b.
Proof.
  unfold MathGraph.getPrerequisites, Requires.
  rewrite getIncomingEdges_build, in_map_iff.
  split.
  - intros (e & <- & H). apply filter_In in H. destruct H as [H T].
    apply filter_In in H. destruct H as [H B].
    exists e. apply String.eqb_eq in B. apply isREQUIRES_true in T. auto.
  - intros (e & H & T & <- & <-). exists e. split; [reflexivity|].
    apply filter_In. split; [|now apply isREQUIRES_true].
    apply filter_In. split; [assumption | apply String.eqb_refl].
Qed.

Lemma In_getDependents ops a b :
  In b (MathGraph.getDependents (build ops) a) <-> Requires ops a b.
Proof.
  unfold MathGraph.getDependents, Requires.
  rewrite getOutgoingEdges_build, in_map_iff.
  split.
  - intros (e & <- & H). apply filter_In in H. destruct H as [H T].
    apply filter_In in H. destruct H as [H B].
    exists e. apply String.eqb_eq in B. apply isREQUIRES_true in T. auto.
  - intros (e & H & T & <- & <-). exists e. split; [reflexivity|].
    apply filter_In. split; [|now apply isREQUIRES_true].
    apply filter_In. split; [assumption | apply String.eqb_refl].
Qed.

Lemma NoDup_keys_build ops :
  NoDup (JSMap.keys (MathGraph.nodes (build ops)))
  /\ NoDup (JSMap.keys (MathGraph.edges (build ops)))
  /\ NoDup (JSMap.keys (MathGraph.reverseEdges (build ops))).
Proof.
  induction ops as [|op ops (Hn & He & Hr)] using rev_ind.
  - repeat split; constructor.
  - rewrite build_snoc. destruct op as [n|e]; simpl; repeat split.
    + now apply NoDup_keys_set.
    + now apply NoDup_keys_ensure.
    + now apply NoDup_keys_ensure.
    + assumption.
    + now apply NoDup_keys_push, NoDup_keys_ensure.
    + now apply NoDup_keys_push, NoDup_keys_ensure.
Qed.

Lemma Permutation_edges_build ops :
  Permutation (concat (JSMap.values (MathGraph.edges (build ops)))) (edgesOf ops).
Proof.
  induction ops as [|op ops IH] using rev_ind; [constructor|].
  rewrite build_snoc, edgesOf_snoc. destruct op as [n|e]; simpl.
  - rewrite app_nil_r, concat_values_ensure. exact IH.
  - unfold MathGraph.push. rewrite get_ensure_same.
    rewrite concat_values_set by apply get_ensure_same.
    rewrite concat_values_ensure, IH.
    apply Permutation_cons_append.
Qed.

Lemma Permutation_reverseEdges_build ops :
  Permutation (concat (JSMap.values (MathGraph.reverseEdges (build ops))))
    (edgesOf ops).
Proof.
  induction ops as [|op ops IH] using rev_ind; [constructor|].
  rewrite build_snoc, edgesOf_snoc. destruct op as [n|e]; simpl.
  - rewrite app_nil_r, concat_values_ensure. exact IH.
  - unfold MathGraph.push. rewrite get_ensure_same.
    rewrite concat_values_set by apply get_ensure_same.
    rewrite concat_values_ensure, IH.
    apply Permutation_cons_append.
Qed.

(** ** [getAllPrerequisites]: termination and the set it returns *)

Lemma Reaches_or_Path (R : string -> string -> Prop) x y :
  Reaches R x y <-> x = y \/ Path R x y.
Proof.
  unfold Reaches, Path. split.
  - induction 1 as [x y H|x|x y z _ IH1 _ IH2].
    + right. now apply t_step.
    + now left.
    + destruct IH1 as [->|H1]; [assumption|].
      destruct IH2 as [<-|H2]; right; [assumption|].
      now apply t_trans with y.
  - intros [->|H]; [apply rt_refl | now apply clos_t_clos_rt].
Qed.

Lemma Path_ext (R R' : string -> string -> Prop) x y :
  (forall a b, R a b -> R' a b) -> Path R x y -> Path R' x y.
Proof.
  intros HR. unfold Path. induction 1 as [x y H|x y z _ IH1 _ IH2].
  - apply t_step. now apply HR.
  - now apply t_trans with y.
Qed.

Section Expand.
Variable g : MathGraph.t.

Let prereqs := MathGraph.getPrerequisites g.

Lemma getPrerequisites_absent k :
  ~ In k (JSMap.keys (MathGraph.reverseEdges g)) -> prereqs k = [].
Proof.
  intros H. apply get_None in H.
  unfold prereqs, MathGraph.getPrerequisites, MathGraph.getIncomingEdges.
  now rewrite H.
Qed.

Lemma pending_term_mono visited c k :
  (if JSSet.has (JSSet.add visited c) k then 0 else length (prereqs k))
  <= (if JSSet.has visited k then 0 else length (prereqs k)).
Proof.
  destruct (JSSet.has visited k) eqn:E.
  - apply has_In in E.
    assert (H : JSSet.has (JSSet.add visited c) k = true)
      by (apply has_In, In_add; now left).
    now rewrite H.
  - destruct (JSSet.has (JSSet.add visited c) k); lia.
Qed.

Lemma pending_sum_mono visited c ks :
  list_sum (map (fun k => if JSSet.has (JSSet.add visited c) k then 0
                          else length (prereqs k)) ks)
  <= list_sum (map (fun k => if JSSet.has visited k then 0
                             else length (prereqs k)) ks).
Proof.
  induction ks as [|k ks IH]; simpl; [lia|].
  pose proof (pending_term_mono visited c k). lia.
Qed.

Lemma pending_sum_add visited c ks :
  JSSet.has visited c = false -> In c ks ->
  list_sum (map (fun k => if JSSet.has (JSSet.add visited c) k then 0
                          else length (prereqs k)) ks)
  + length (prereqs c)
  <= list_sum (map (fun k => if JSSet.has visited k then 0
                             else length (prereqs k)) ks).
Proof.
  intros Hc. induction ks as [|k ks IH]; simpl; [tauto|].
  intros [->|Hin].
  - rewrite Hc.
    assert (H : JSSet.has (JSSet.add visited c) c = true)
      by (apply has_In, In_add; now right).
    rewrite H. pose proof (pending_sum_mono visited c ks). lia.
  - specialize (IH Hin). pose proof (pending_term_mono visited c k). lia.
Qed.

Lemma pendingPrereqs_add visited c :
  JSSet.has visited c = false ->
  pendingPrereqs g (JSSet.add visited c) + length (prereqs c)
  <= pendingPrereqs g visited.
Proof.
  intros Hc. unfold pendingPrereqs.
  destruct (in_dec string_dec c (JSMap.keys (MathGraph.reverseEdges g))) as [Hin|Hout].
  - now apply pending_sum_add.
  - rewrite (getPrerequisites_absent c Hout). simpl. rewrite Nat.add_0_r.
    apply pending_sum_mono.
Qed.

Lemma expand_returns fuel :
  forall visited queue,
    length queue + pendingPrereqs g visited <= fuel ->
    exists v, MathGraph.expand g fuel visited queue = Return v.
Proof.
  induction fuel as [|fuel IH]; intros visited [|c rest] H; simpl in *;
    try (eexists; reflexivity); try lia.
  destruct (JSSet.has visited c) eqn:E.
  - apply IH. lia.
  - apply IH. rewrite length_app.
    pose proof (pendingPrereqs_add visited c E). fold prereqs. lia.
Qed.

Lemma expand_invariant n fuel :
  forall visited queue v,
    expandInv g n visited queue ->
    MathGraph.expand g fuel visited queue = Return v ->
    expandInv g n v [].
Proof.
  induction fuel as [|fuel IH]; intros visited [|c rest] v Inv; simpl;
    try discriminate; try (intros [= <-]; exact Inv).
  destruct Inv as (ND & Hreach & Hn & Hclosed).
  destruct (JSSet.has visited c) eqn:E; apply IH.
  - apply has_In in E. repeat split.
    + assumption.
    + intros x [Hx|Hx]; apply Hreach; simpl; tauto.
    + destruct Hn as [Hn|[<-|Hn]]; tauto.
    + intros w u Hw Hu. destruct (Hclosed w u Hw Hu) as [H|[<-|H]]; tauto.
  - repeat split.
    + now apply NoDup_add.
    + intros x [Hx|Hx].
      * apply In_add in Hx. destruct Hx as [Hx| ->]; apply Hreach; simpl; tauto.
      * apply in_app_iff in Hx. destruct Hx as [Hx|Hx].
        -- apply Hreach; simpl; tauto.
        -- apply rt_trans with c; [now apply rt_step|].
           apply Hreach; simpl; tauto.
    + rewrite In_add. destruct Hn as [Hn|[<-|Hn]]; [tauto|tauto|].
      right. apply in_app_iff. tauto.
    + intros w u Hw Hu. rewrite In_add, in_app_iff.
      apply In_add in Hw. destruct Hw as [Hw| ->].
      * destruct (Hclosed w u Hw Hu) as [H|[<-|H]]; tauto.
      * right. right. exact Hu.
Qed.

Lemma expandInv_final n v x :
  expandInv g n v [] -> (In x v <-> Reaches (prereqOf g) x n).
Proof.
  intros (_ & Hreach & Hn & Hclosed). split.
  - intros H. apply Hreach. now left.
  - intros H. apply clos_rt_rt1n in H.
    induction H as [x|x y z Hxy _ IH].
    + destruct Hn as [Hn|[]]. exact Hn.
    + destruct (Hclosed y x (IH Hreach Hn) Hxy) as [H|[]]. exact H.
Qed.
End Expand.

Lemma list_sum_listAt {V : Type} (m : JSMap.t (list V)) :
  NoDup (JSMap.keys m) ->
  list_sum (map (fun k => length (listAt m k)) (JSMap.keys m))
  = length (concat (JSMap.values m)).
Proof.
  induction m as [|[k0 l0] m IH]; simpl; [reflexivity|].
  intros ND. inversion ND as [|? ? Hn ND']; subst.
  rewrite length_app. unfold listAt at 1. simpl. rewrite String.eqb_refl.
  f_equal. rewrite <- (IH ND'). f_equal.
  apply map_ext_in. intros k Hk. unfold listAt. simpl.
  eqb_case k0 k; [|reflexivity]. subst. contradiction.
Qed.

Lemma pendingPrereqs_initial g :
  NoDup (JSMap.keys (MathGraph.reverseEdges g)) ->
  pendingPrereqs g JSSet.empty <= MathGraph.incomingCount g.
Proof.
  intros ND. unfold pendingPrereqs, MathGraph.incomingCount.
  rewrite <- (list_sum_listAt _ ND).
  unfold JSSet.empty. clear ND.
  induction (JSMap.keys (MathGraph.reverseEdges g)) as [|k ks IH]; simpl in *; [lia|].
  assert (length (MathGraph.getPrerequisites g k)
          <= length (listAt (MathGraph.reverseEdges g) k)).
  { unfold MathGraph.getPrerequisites. rewrite length_map.
    apply filter_length_le. }
  lia.
Qed.

Lemma getAllPrerequisites_spec ops n :
  exists r,
    MathGraph.getAllPrerequisites (build ops) n = Return r
    /\ NoDup r
    /\ forall u, In u r <-> u <> n /\ Reaches (Requires ops) u n.
Proof.
  set (g := build ops).
  destruct (expand_returns g (S (MathGraph.incomingCount g)) JSSet.empty [n])
    as [v Hv].
  { simpl. pose proof (pendingPrereqs_initial g) as H.
    specialize (H (proj2 (proj2 (NoDup_keys_build ops)))). lia. }
  assert (Inv : expandInv g n v []).
  { eapply expand_invariant; [|exact Hv].
    repeat split.
    - constructor.
    - intros x [[]|[<-|[]]]. apply rt_refl.
    - right. now left.
    - intros w u []. }
  exists (JSSet.delete v n). split; [|split].
  - unfold MathGraph.getAllPrerequisites. fold g. now rewrite Hv.
  - apply NoDup_delete. apply Inv.
  - intros u. rewrite In_delete, (expandInv_final g n v u Inv).
    assert (E : Reaches (prereqOf g) u n <-> Reaches (Requires ops) u n).
    { unfold Reaches. split; apply clos_refl_trans_ind_left; try apply rt_refl;
        intros y z Hy IH Hyz; apply rt_trans with y; try assumption;
        apply rt_step; apply In_getPrerequisites; assumption. }
    rewrite E. tauto.
Qed.

(** The closure in terms of paths. *)
Lemma getAllPrerequisites_paths (ops : list Op) (n : string) :
  exists r,
    MathGraph.getAllPrerequisites (build ops) n = Return r
    /\ NoDup r
    /\ ~ In n r
    /\ forall u, In u r <-> u <> n /\ Path (Requires ops) u n.
Proof.
  destruct (getAllPrerequisites_spec ops n) as (r & Hr & ND & Hin).
  exists r. repeat split; try assumption.
  - intros H. apply Hin in H. tauto.
  - now apply Hin.
  - apply Hin in H. destruct H as [Hne H].
    apply Reaches_or_Path in H. tauto.
  - intros [Hne H]. apply Hin. split; [assumption|].
    apply Reaches_or_Path. now right.
Qed.

(** C4.  For every graph, cycles allowed, and every ID [n],
    [getAllPrerequisites(n)] returns (its loop ends within the bound of the
    model, and nothing throws) a duplicate-free collection that holds exactly
    the IDs [u <> n] from which [n] is reached along one or more REQUIRES
    edges; [n] itself is never in it, whether or not [n] lies on a cycle. *)
Theorem getAllPrerequisites_closure (ops : list Op) (n : string) :
  exists r,
    MathGraph.getAllPrerequisites (build ops) n = Return r
    /\ NoDup r
    /\ ~ In n r
    /\ forall u, In u r <-> u <> n /\ Path (Requires ops) u n.
Proof. exact (getAllPrerequisites_paths ops n). Qed.

(** ** Snapshots: export, rebuild, export *)

Section NodeTable.
Context {V : Type}.
Implicit Types (m : JSMap.t V) (k : string) (v : V).

Lemma set_fresh m k v :
  ~ In k (JSMap.keys m) -> JSMap.set m k v = m ++ [(k, v)].
Proof.
  induction m as [|[k0 v0] m IH]; simpl; [reflexivity|].
  intros H. eqb_case k0 k; [tauto|]. f_equal. apply IH. tauto.
Qed.

Lemma In_set m k v k' v' :
  In (k', v') (JSMap.set m k v) -> (k', v') = (k, v) \/ In (k', v') m.
Proof.
  induction m as [|[k0 v0] m IH]; simpl.
  - intros [H|[]]. now left.
  - eqb_case k0 k; simpl.
    + intros [H|H]; [now left | right; now right].
    + intros [H|H]; [right; now left|].
      destruct (IH H); [now left | right; now right].
Qed.

Lemma refill (key : V -> string) (m2 : JSMap.t V) :
  forall m1,
    NoDup (JSMap.keys (m1 ++ m2)) ->
    (forall k v, In (k, v) m2 -> key v = k) ->
    fold_left (fun m v => JSMap.set m (key v) v) (JSMap.values m2) m1 = m1 ++ m2.
Proof.
  induction m2 as [|[k v] m2 IH]; intros m1 ND Hkey; simpl.
  - now rewrite app_nil_r.
  - rewrite (Hkey k v) by now left.
    assert (Hfresh : ~ In k (JSMap.keys m1)).
    { unfold JSMap.keys in *. rewrite map_app in ND. simpl in ND.
      apply NoDup_remove_2 in ND. rewrite in_app_iff in ND. tauto. }
    rewrite (set_fresh m1 k v Hfresh).
    unfold JSMap.values in IH. rewrite IH.
    + now rewrite <- app_assoc.
    + now rewrite <- app_assoc.
    + intros k' v' H. apply Hkey. now right.
Qed.
End NodeTable.

Lemma nodesOf_snoc ops op :
  nodesOf (ops ++ [op])
  = nodesOf ops ++ match op with AddNode n => [n] | AddEdge _ => [] end.
Proof. unfold nodesOf. rewrite flat_map_app. simpl. now rewrite app_nil_r. Qed.

Lemma nodes_build ops :
  MathGraph.nodes (build ops)
  = fold_left (fun m n => JSMap.set m (MathNode.id n) n) (nodesOf ops) JSMap.empty.
Proof.
  induction ops as [|op ops IH] using rev_ind; [reflexivity|].
  rewrite build_snoc, nodesOf_snoc, fold_left_app, <- IH.
  destruct op; reflexivity.
Qed.

Lemma nodes_build_id ops k n :
  In (k, n) (MathGraph.nodes (build ops)) -> MathNode.id n = k.
Proof.
  induction ops as [|op ops IH] using rev_ind; [intros []|].
  rewrite build_snoc. destruct op as [n'|e]; simpl; [|exact IH].
  intros H. apply In_set in H. destruct H as [[= -> ->]|H]; [reflexivity|].
  now apply IH.
Qed.

Lemma keys_nodes_build ops k :
  In k (JSMap.keys (MathGraph.nodes (build ops))) <-> In k (nodeIdsOf ops).
Proof.
  unfold nodeIdsOf.
  induction ops as [|op ops IH] using rev_ind; [reflexivity|].
  rewrite build_snoc, nodesOf_snoc, map_app, in_app_iff, <- IH.
  destruct op as [n|e]; simpl.
  - rewrite In_keys_set. intuition congruence.
  - tauto.
Qed.

Lemma fromSnapshot_build data :
  fromSnapshot data
  = build (map AddNode (Snapshot.nodes data) ++ map AddEdge (Snapshot.edges data)).
Proof.
  unfold fromSnapshot, build. rewrite fold_left_app.
  assert (H : forall (A : Type) (f : MathGraph.t -> A -> MathGraph.t)
                (c : A -> Op), (forall g a, apply g (c a) = f g a) ->
              forall l g, fold_left apply (map c l) g = fold_left f l g).
  { intros A f c Hc l. induction l as [|a l IHl]; intros g; simpl;
      [reflexivity|]. now rewrite Hc, IHl. }
  rewrite (H _ MathGraph.addNode AddNode) by reflexivity.
  now rewrite (H _ MathGraph.addEdge AddEdge) by reflexivity.
Qed.

Lemma edgesOf_rebuild ns es : edgesOf (map AddNode ns ++ map AddEdge es) = es.
Proof.
  unfold edgesOf. rewrite flat_map_app.
  assert (H1 : flat_map (fun op => match op with AddEdge e => [e] | AddNode _ => [] end)
                 (map AddNode ns) = []).
  { induction ns; simpl; auto. }
  assert (H2 : flat_map (fun op => match op with AddEdge e => [e] | AddNode _ => [] end)
                 (map AddEdge es) = es).
  { induction es; simpl; congruence. }
  now rewrite H1, H2.
Qed.

Lemma nodesOf_rebuild ns es : nodesOf (map AddNode ns ++ map AddEdge es) = ns.
Proof.
  unfold nodesOf. rewrite flat_map_app.
  assert (H1 : flat_map (fun op => match op with AddNode n => [n] | AddEdge _ => [] end)
                 (map AddNode ns) = ns).
  { induction ns; simpl; congruence. }
  assert (H2 : flat_map (fun op => match op with AddNode n => [n] | AddEdge _ => [] end)
                 (map AddEdge es) = []).
  { induction es; simpl; auto. }
  now rewrite H1, H2, app_nil_r.
Qed.

(** Exporting the graph rebuilt from a snapshot gives the node list of the
    snapshot again, and a permutation of its edge list. *)
Lemma fromSnapshot_roundtrip (ops : list Op) :
  let first := exportSnapshot (build ops) in
  let second := exportSnapshot (fromSnapshot first) in
  Snapshot.nodes second = Snapshot.nodes first
  /\ Permutation (Snapshot.edges second) (Snapshot.edges first).
Proof.
  intros first second. split.
  - unfold second. rewrite fromSnapshot_build. unfold exportSnapshot at 1. simpl.
    rewrite nodes_build, nodesOf_rebuild. unfold first, exportSnapshot. simpl.
    rewrite (refill MathNode.id (MathGraph.nodes (build ops)) JSMap.empty).
    + reflexivity.
    + apply NoDup_keys_build.
    + intros k v. apply nodes_build_id.
  - unfold second. rewrite fromSnapshot_build. unfold exportSnapshot at 1. simpl.
    rewrite Permutation_edges_build, edgesOf_rebuild. reflexivity.
Qed.

(** C5.  For every graph, when [JSON.parse] gives back the object whose text
    [exportJSON] produced, [fromJSON] of that text returns a graph whose own
    snapshot holds the same nodes (the very same list, hence the same set)
    and the same multiset of edges (a permutation of the list) as the first
    snapshot. *)
Theorem exportJSON_fromJSON_roundtrip (Number_toString : Q -> string)
  (JSON_parse : string -> option Snapshot.t) (ops : list Op) :
  let first := exportSnapshot (build ops) in
  JSON_parse (exportJSON Number_toString (build ops)) = Some first ->
  exists rebuilt,
    fromJSON JSON_parse (exportJSON Number_toString (build ops)) = Some rebuilt
    /\ Snapshot.nodes (exportSnapshot rebuilt) = Snapshot.nodes first
    /\ (forall n, In n (Snapshot.nodes (exportSnapshot rebuilt))
                   <-> In n (Snapshot.nodes first))
    /\ Permutation (Snapshot.edges (exportSnapshot rebuilt)) (Snapshot.edges first).
Proof.
  intros first Hparse.
  destruct (fromSnapshot_roundtrip ops) as [Hn He].
  exists (fromSnapshot first). unfold fromJSON. rewrite Hparse.
  split; [reflexivity|]. split; [exact Hn|]. split; [|exact He].
  fold first in Hn. now rewrite Hn.
Qed.

Lemma exportJSON_fromJSON_roundtrip_witness :
  exists rebuilt,
    fromJSON (fun _ => Some (exportSnapshot (build chainABC)))
      (exportJSON (fun _ => EmptyString) (build chainABC)) = Some rebuilt
    /\ Snapshot.nodes (exportSnapshot rebuilt)
       = Snapshot.nodes (exportSnapshot (build chainABC))
    /\ (forall n, In n (Snapshot.nodes (exportSnapshot rebuilt))
                   <-> In n (Snapshot.nodes (exportSnapshot (build chainABC))))
    /\ Permutation (Snapshot.edges (exportSnapshot rebuilt))
         (Snapshot.edges (exportSnapshot (build chainABC))).
Proof.
  apply (exportJSON_fromJSON_roundtrip (fun _ => EmptyString)
           (fun _ => Some (exportSnapshot (build chainABC))) chainABC).
  reflexivity.
Defined.

(** ** The text of a snapshot *)

Lemma concat_values_listAt {V : Type} (m : JSMap.t (list V)) :
  NoDup (JSMap.keys m) ->
  concat (JSMap.values m) = flat_map (listAt m) (JSMap.keys m).
Proof.
  induction m as [|[k0 l0] m IH]; simpl; [reflexivity|].
  intros ND. inversion ND as [|? ? Hn ND']; subst.
  assert (H0 : listAt ((k0, l0) :: m) k0 = l0)
    by (unfold listAt; simpl; now rewrite String.eqb_refl).
  rewrite H0. f_equal. rewrite (IH ND').
  rewrite !flat_map_concat_map. f_equal.
  apply map_ext_in. intros k Hk. unfold listAt. simpl.
  eqb_case k0 k; [|reflexivity]. subst. contradiction.
Qed.

Lemma string_app_assoc (a b c : string) :
  ((a ++ b) ++ c = a ++ (b ++ c))%string.
Proof. induction a as [|x a IH]; simpl; [reflexivity | now rewrite IH]. Qed.

(** C9, as the code has it.  For every graph the text that [exportJSON]
    produces is the object [{ nodes, edges }] laid out by
    [JSON.stringify(_, null, 2)]: an opening brace, a line feed, the two
    properties each on a line of its own indented by two blanks, a line feed
    and the closing brace.  So the text is never free of line feeds.  Its
    [edges] array is the concatenation, over the keys of the forward index,
    of each key's outgoing edge list, and holds exactly the edges that were
    added. *)
Theorem exportJSON_layout (Number_toString : Q -> string) (ops : list Op) :
  let g := build ops in
  let edges := flat_map (MathGraph.getOutgoingEdges g)
                 (JSMap.keys (MathGraph.edges g)) in
  exportJSON Number_toString g
  = ("{" ++ newline
       ++ "  " ++ Quote "nodes" ++ ": "
       ++ serialize Number_toString "  " "  "
            (JArray (map MathNode_toJSON (JSMap.values (MathGraph.nodes g))))
       ++ "," ++ newline
       ++ "  " ++ Quote "edges" ++ ": "
       ++ serialize Number_toString "  " "  "
            (JArray (map GraphEdge_toJSON edges))
       ++ newline ++ "}")%string
  /\ newlineFree (exportJSON Number_toString g) = false
  /\ Snapshot.edges (exportSnapshot g) = edges
  /\ Permutation edges (edgesOf ops).
Proof.
  intros g edges.
  assert (E : Snapshot.edges (exportSnapshot g) = edges).
  { unfold exportSnapshot, edges. simpl.
    apply (concat_values_listAt (MathGraph.edges g)).
    apply NoDup_keys_build. }
  split; [|split; [|split]].
  - unfold exportJSON, JSON_stringify_2, JSON_stringify, Snapshot.toJSON.
    rewrite E. unfold serialize at 1. unfold layout at 1.
    cbn [map isEmpty join]. rewrite !string_app_assoc. reflexivity.
  - reflexivity.
  - exact E.
  - rewrite <- E. apply Permutation_edges_build.
Qed.

(** C9 as stated fails: the text of the snapshot of the empty graph already
    holds line feeds. *)
Lemma exportJSON_not_newline_free :
  ~ (forall (Number_toString : Q -> string) (ops : list Op),
        newlineFree (exportJSON Number_toString (build ops)) = true).
Proof.
  intros H. specialize (H (fun _ => EmptyString) []). discriminate H.
Qed.

(** ** Positions in an array *)

Lemma indexOf_bounds xs x : (-1 <= indexOf xs x < Z.of_nat (length xs))%Z.
Proof.
  induction xs as [|y xs IH]; simpl; [lia|].
  destruct (String.eqb y x); [lia|].
  destruct (Z.ltb_spec (indexOf xs x) 0); lia.
Qed.

Lemma indexOf_In xs x : In x xs <-> (0 <= indexOf xs x)%Z.
Proof.
  induction xs as [|y xs IH]; simpl; [lia|].
  eqb_case y x.
  - split; [lia | now left].
  - destruct (Z.ltb_spec (indexOf xs x) 0) as [Hneg|Hpos]; split; try lia.
    + intros [H|H]; [contradiction | apply IH in H; lia].
    + intros _. right. apply IH. lia.
Qed.

Lemma indexOf_app_l xs ys x : In x xs -> indexOf (xs ++ ys) x = indexOf xs x.
Proof.
  induction xs as [|y xs IH]; simpl; [tauto|].
  eqb_case y x; [reflexivity|].
  intros [H|H]; [contradiction|]. now rewrite IH.
Qed.

Lemma indexOf_app_fresh xs x :
  ~ In x xs -> indexOf (xs ++ [x]) x = Z.of_nat (length xs).
Proof.
  induction xs as [|y xs IH]; simpl.
  - now rewrite String.eqb_refl.
  - intros H. eqb_case y x; [tauto|].
    rewrite IH by tauto.
    destruct (Z.ltb_spec (Z.of_nat (length xs)) 0); lia.
Qed.

Lemma indexOf_nth_error xs x i :
  NoDup xs -> nth_error xs i = Some x -> indexOf xs x = Z.of_nat i.
Proof.
  revert i. induction xs as [|y xs IH]; intros [|i] ND H; simpl in *;
    try discriminate.
  - injection H as ->. now rewrite String.eqb_refl.
  - inversion ND as [|? ? Hy ND']; subst.
    eqb_case y x.
    + subst. apply nth_error_In in H. contradiction.
    + rewrite (IH i ND' H).
      destruct (Z.ltb_spec (Z.of_nat i) 0); lia.
Qed.

(** ** Counting entries *)

Lemma count_occ_repeat (x v : string) n :
  count_occ string_dec (repeat x n) v = if String.eqb x v then n else 0.
Proof.
  induction n as [|n IH]; simpl.
  - now destruct (String.eqb x v).
  - destruct (string_dec x v) as [->|Hne].
    + rewrite IH, String.eqb_refl. reflexivity.
    + rewrite IH. apply String.eqb_neq in Hne. now rewrite Hne.
Qed.

Lemma count_occ_flat_repeat (f : string -> nat) (ids : list string) v :
  count_occ string_dec (flat_map (fun id => repeat id (f id)) ids) v
  = count_occ string_dec ids v * f v.
Proof.
  induction ids as [|id ids IH]; simpl; [reflexivity|].
  rewrite count_occ_app, IH, count_occ_repeat.
  destruct (string_dec id v) as [->|Hne].
  - rewrite String.eqb_refl. lia.
  - apply String.eqb_neq in Hne. rewrite Hne. lia.
Qed.

Lemma sum_count_occ (ks l : list string) :
  NoDup ks -> incl l ks ->
  list_sum (map (fun u => count_occ string_dec l u) ks) = length l.
Proof.
  intros ND. induction l as [|x l IH]; intros Hincl; simpl.
  - clear ND Hincl. induction ks as [|k ks IHk]; simpl; auto.
  - assert (Hx : In x ks) by (apply Hincl; now left).
    assert (Hl : incl l ks) by (intros y Hy; apply Hincl; now right).
    rewrite <- (IH Hl). clear IH Hincl Hl.
    induction ks as [|k ks IHk]; simpl; [contradiction|].
    inversion ND as [|? ? Hk ND']; subst.
    destruct Hx as [->|Hx].
    + destruct (string_dec x x) as [_|]; [|congruence].
      simpl. f_equal. f_equal. f_equal.
      apply map_ext_in. intros u Hu.
      destruct (string_dec x u) as [->|]; [contradiction | reflexivity].
    + destruct (string_dec x k) as [->|Hne]; [contradiction|].
      rewrite (IHk ND' Hx). lia.
Qed.

Lemma list_sum_zero (l : list nat) x : list_sum l = 0 -> In x l -> x = 0.
Proof.
  induction l as [|y l IH]; simpl; [tauto|].
  intros H [->|Hx]; [lia|]. apply IH; [lia | assumption].
Qed.

(** ** The table [graph] and the entries still pending *)

Section Pending.
Variable graph : JSMap.t (list string).
Hypothesis NoDup_keys : NoDup (JSMap.keys graph).

Lemma pendingIn_push result c v :
  In c (JSMap.keys graph) -> ~ In c result ->
  pendingIn graph (result ++ [c]) v
  + count_occ string_dec (listAt graph c) v
  = pendingIn graph result v.
Proof.
  intros Hc Hfresh. unfold pendingIn.
  induction (JSMap.keys graph) as [|k ks IH]; simpl; [contradiction|].
  inversion NoDup_keys as [|? ? Hk ND']; subst.
  assert (Hother : forall u, u <> c ->
            includes (result ++ [c]) u = includes result u).
  { intros u Hu. destruct (includes result u) eqn:E.
    - apply includes_In. apply includes_In in E. apply in_app_iff. now left.
    - apply has_false. apply has_false in E. rewrite in_app_iff. simpl.
      intuition congruence. }
  destruct Hc as [->|Hc].
  - assert (E1 : includes (result ++ [c]) c = true)
      by (apply includes_In, in_app_iff; right; now left).
    assert (E2 : includes result c = false) by now apply has_false.
    rewrite E1, E2. simpl.
    assert (E : map (fun u => if includes (result ++ [c]) u then 0
                              else count_occ string_dec (listAt graph u) v) ks
                = map (fun u => if includes result u then 0
                                else count_occ string_dec (listAt graph u) v) ks).
    { apply map_ext_in. intros u Hu. rewrite Hother; [reflexivity|].
      intros ->. contradiction. }
    rewrite E. lia.
  - rewrite Hother by (intros ->; contradiction).
    specialize (IH ND' Hc). lia.
Qed.

Lemma pendingIn_zero result u v :
  pendingIn graph result v = 0 ->
  In u (JSMap.keys graph) -> In v (listAt graph u) -> In u result.
Proof.
  intros H Hu Hv. unfold pendingIn in H.
  pose proof (list_sum_zero _
                (if includes result u then 0
                 else count_occ string_dec (listAt graph u) v) H) as Hz.
  destruct (includes result u) eqn:E; [now apply includes_In|].
  exfalso.
  assert (Hpos : count_occ string_dec (listAt graph u) v > 0)
    by now apply count_occ_In.
  rewrite Hz in Hpos; [lia|].
  apply in_map_iff. exists u. rewrite E. auto.
Qed.
End Pending.

(** ** The loop of [topologicalSort] *)

Section Relax.
Variable keys : list string.
Variable base : string -> nat.

Lemma relax_fold (s : list string) :
  forall (p : list string) (inDegree : JSMap.t number) (queue : list string),
    (forall v, In v (p ++ s) -> In v keys) ->
    (forall v, count_occ string_dec (p ++ s) v <= base v) ->
    (forall v, In v keys ->
       JSMap.get inDegree v
       = Some (Num (Z.of_nat (base v) - Z.of_nat (count_occ string_dec p v)))) ->
    exists extra,
      snd (fold_left MathGraph.relax s (inDegree, queue)) = queue ++ extra
      /\ NoDup extra
      /\ (forall v, In v extra <->
            In v s /\ base v = count_occ string_dec (p ++ s) v)
      /\ (forall v, In v keys ->
            JSMap.get (fst (fold_left MathGraph.relax s (inDegree, queue))) v
            = Some (Num (Z.of_nat (base v)
                         - Z.of_nat (count_occ string_dec (p ++ s) v)))).
Proof.
  induction s as [|x s IH]; intros p inDegree queue Hkeys Hle Hget.
  - exists []. simpl. rewrite !app_nil_r.
    split; [reflexivity|]. split; [constructor|].
    split; [intros v; tauto | exact Hget].
  - assert (Hps : (p ++ [x]) ++ s = p ++ x :: s) by now rewrite <- app_assoc.
    assert (Hx : In x keys) by (apply Hkeys, in_app_iff; right; now left).
    assert (Hcx : count_occ string_dec (p ++ [x]) x
                  = S (count_occ string_dec p x)).
    { rewrite count_occ_app. simpl.
      destruct (string_dec x x); [lia | congruence]. }
    assert (Hcv : forall v, v <> x ->
              count_occ string_dec (p ++ [x]) v = count_occ string_dec p v).
    { intros v Hv. rewrite count_occ_app. simpl.
      destruct (string_dec x v); [congruence | lia]. }
    assert (Hmono : forall v, count_occ string_dec (p ++ [x]) v
                              <= count_occ string_dec (p ++ x :: s) v).
    { intros v. rewrite <- Hps, (count_occ_app _ (p ++ [x]) s). lia. }
    set (inDegree' := JSMap.set inDegree x
                        (Num (Z.of_nat (base x)
                              - Z.of_nat (count_occ string_dec p x) - 1))).
    assert (Hstep : MathGraph.relax (inDegree, queue) x
                    = (inDegree',
                       if Z.eqb (Z.of_nat (base x)
                                 - Z.of_nat (count_occ string_dec p x) - 1) 0
                       then queue ++ [x] else queue)).
    { unfold MathGraph.relax. simpl fst. simpl snd.
      rewrite get_set_same, (Hget x Hx). reflexivity. }
    simpl fold_left. rewrite Hstep. clear Hstep.
    assert (Hget' : forall v, In v keys ->
              JSMap.get inDegree' v
              = Some (Num (Z.of_nat (base v)
                           - Z.of_nat (count_occ string_dec (p ++ [x]) v)))).
    { intros v Hv. unfold inDegree'. rewrite get_set. eqb_case x v.
      - subst v. rewrite Hcx. do 2 f_equal. lia.
      - rewrite Hcv by congruence. now apply Hget. }
    destruct (Z.eqb_spec (Z.of_nat (base x)
                          - Z.of_nat (count_occ string_dec p x) - 1) 0)
      as [Hzero|Hpos].
    + destruct (IH (p ++ [x]) inDegree' (queue ++ [x]))
        as (extra & Hq & ND & Hin & Hd).
      { intros v. rewrite Hps. apply Hkeys. }
      { intros v. rewrite Hps. apply Hle. }
      { exact Hget'. }
      assert (Hbx : base x = count_occ string_dec (p ++ x :: s) x).
      { apply Nat.le_antisymm; [|apply Hle]. specialize (Hmono x). lia. }
      assert (Hxs : ~ In x s).
      { intros Hxs. apply (count_occ_In string_dec) in Hxs.
        rewrite <- Hps, count_occ_app in Hbx. lia. }
      exists (x :: extra). rewrite Hq, <- app_assoc. simpl.
      split; [reflexivity|]. split; [|split].
      * constructor; [|exact ND]. intros Hx'. apply Hin in Hx'. tauto.
      * intros v. rewrite Hin, Hps. split.
        -- intros [<-|[Hv Hb]]; [tauto|]. tauto.
        -- intros [[<-|Hv] Hb]; [now left|]. right. tauto.
      * intros v Hv. rewrite <- Hps. now apply Hd.
    + destruct (IH (p ++ [x]) inDegree' queue)
        as (extra & Hq & ND & Hin & Hd).
      { intros v. rewrite Hps. apply Hkeys. }
      { intros v. rewrite Hps. apply Hle. }
      { exact Hget'. }
      exists extra. split; [exact Hq|]. split; [exact ND|]. split.
      * intros v. rewrite Hin, Hps. split.
        -- intros [Hv Hb]. split; [now right | exact Hb].
        -- intros [[<-|Hv] Hb]; [|tauto].
           split; [|exact Hb].
           destruct (in_dec string_dec x s) as [Hvs|Hvs]; [exact Hvs|].
           exfalso. apply Hpos.
           apply (count_occ_not_In string_dec) in Hvs.
           rewrite <- Hps, count_occ_app, Hvs, Hcx in Hb. lia.
      * intros v Hv. rewrite <- Hps. now apply Hd.
Qed.
End Relax.

Section Drain.
Variable graph : JSMap.t (list string).
Hypothesis NoDup_keys : NoDup (JSMap.keys graph).
Hypothesis closed :
  forall u v, In v (listAt graph u) -> In v (JSMap.keys graph).

Lemma get_key (c : string) :
  In c (JSMap.keys graph) -> JSMap.get graph c = Some (listAt graph c).
Proof.
  intros Hc. unfold listAt. destruct (JSMap.get graph c) eqn:E; [reflexivity|].
  apply get_None in E. contradiction.
Qed.

Lemma drain_step inDegree c rest result :
  drainInv graph inDegree (c :: rest) result ->
  exists extra,
    snd (fold_left MathGraph.relax (listAt graph c) (inDegree, rest))
    = rest ++ extra
    /\ drainInv graph
         (fst (fold_left MathGraph.relax (listAt graph c) (inDegree, rest)))
         (rest ++ extra) (result ++ [c]).
Proof.
  intros (ND & Hincl & Hget & Hzero & Hord).
  assert (Hc : In c (JSMap.keys graph))
    by (apply Hincl, in_app_iff; right; now left).
  assert (Hfresh : ~ In c result).
  { intros H. apply NoDup_remove_2 in ND. apply ND, in_app_iff. now left. }
  assert (Hpush := fun v => pendingIn_push graph NoDup_keys result c v Hc Hfresh).
  destruct (relax_fold (JSMap.keys graph) (pendingIn graph result)
              (listAt graph c) [] inDegree rest)
    as (extra & Hq & NDx & Hin & Hd).
  { intros v Hv. now apply (closed c). }
  { intros v. simpl. specialize (Hpush v). lia. }
  { intros v Hv. rewrite (Hget v Hv). simpl. now rewrite Z.sub_0_r. }
  simpl app in Hin, Hd.
  exists extra. split; [exact Hq|].
  assert (Hassoc : (result ++ [c]) ++ rest ++ extra
                   = (result ++ c :: rest) ++ extra).
  { rewrite <- !app_assoc. reflexivity. }
  assert (Hextra : forall v, In v extra ->
            In v (JSMap.keys graph) /\ pendingIn graph result v <> 0
            /\ pendingIn graph (result ++ [c]) v = 0).
  { intros v Hv. apply Hin in Hv. destruct Hv as [Hv Hb].
    assert (Hpos : count_occ string_dec (listAt graph c) v > 0)
      by now apply count_occ_In.
    specialize (Hpush v). split; [now apply (closed c)|]. lia. }
  repeat split.
  - rewrite Hassoc. apply NoDup_app; [exact ND | exact NDx |].
    intros v Hv Hx. apply Hextra in Hx. destruct Hx as (Hk & Hnz & _).
    apply Hnz. now apply Hzero.
  - rewrite Hassoc. intros v Hv. apply in_app_iff in Hv.
    destruct Hv as [Hv|Hv]; [now apply Hincl | now apply Hextra].
  - intros v Hv. rewrite (Hd v Hv). do 2 f_equal.
    specialize (Hpush v). lia.
  - intros Hz. rewrite Hassoc. apply in_app_iff.
    destruct (Nat.eq_dec (pendingIn graph result v) 0) as [Hz0|Hnz].
    + left. now apply Hzero.
    + right. apply Hin. specialize (Hpush v).
      split; [|lia].
      apply (count_occ_In string_dec). lia.
  - rewrite Hassoc. intros Hv. apply in_app_iff in Hv.
    destruct Hv as [Hv|Hv]; [|now apply Hextra].
    apply Hzero in Hv; [|assumption]. specialize (Hpush v). lia.
  - apply indexOf_In.
    apply in_app_iff in H. destruct H as [Hv|[<-|[]]].
    + destruct (Hord u v Hv H0 H1) as [Hu _]. apply indexOf_In in Hu.
      apply in_app_iff. now left.
    + apply in_app_iff. left.
      apply (pendingIn_zero graph result u c); try assumption.
      apply Hzero; [assumption|]. apply in_app_iff. right. now left.
  - apply in_app_iff in H. destruct H as [Hv|[<-|[]]].
    + destruct (Hord u v Hv H0 H1) as [Hu Hlt].
      apply indexOf_In in Hu.
      now rewrite !indexOf_app_l.
    + assert (Hu : In u result).
      { apply (pendingIn_zero graph result u c); try assumption.
        apply Hzero; [assumption|]. apply in_app_iff. right. now left. }
      rewrite indexOf_app_l by assumption.
      rewrite indexOf_app_fresh by assumption.
      apply indexOf_bounds.
Qed.

Lemma drain_returns fuel :
  forall inDegree queue result,
    drainInv graph inDegree queue result ->
    length (JSMap.keys graph) <= fuel + length result ->
    exists out inDegree',
      MathGraph.drain graph fuel inDegree queue result = Return out
      /\ drainInv graph inDegree' [] out.
Proof.
  induction fuel as [|fuel IH]; intros inDegree [|c rest] result Inv Hfuel.
  - exists result, inDegree. split; [reflexivity | exact Inv].
  - exfalso. destruct Inv as (ND & Hincl & _).
    pose proof (NoDup_incl_length ND Hincl) as Hlen.
    rewrite length_app in Hlen. simpl in *. lia.
  - exists result, inDegree. split; [reflexivity | exact Inv].
  - simpl. assert (Hc : In c (JSMap.keys graph)).
    { destruct Inv as (_ & Hincl & _). apply Hincl, in_app_iff. right. now left. }
    rewrite (get_key c Hc).
    destruct (drain_step inDegree c rest result Inv) as (extra & Hq & Inv').
    rewrite Hq in *. apply IH; [exact Inv'|].
    rewrite length_app. simpl. lia.
Qed.
End Drain.

(** ** The tables that [topologicalSort] builds *)

Lemma has_keys {V : Type} (m : JSMap.t V) k :
  JSMap.has m k = JSSet.has (JSMap.keys m) k.
Proof.
  destruct (JSSet.has (JSMap.keys m) k) eqn:E.
  - apply has_In_keys. now apply has_In.
  - apply has_false in E. apply get_None in E. unfold JSMap.has. now rewrite E.
Qed.

Lemma keys_set_add {V : Type} (m : JSMap.t V) k v :
  JSMap.keys (JSMap.set m k v) = JSSet.add (JSMap.keys m) k.
Proof. rewrite keys_set, has_keys. reflexivity. Qed.

Lemma keys_set_present {V : Type} (m : JSMap.t V) k v :
  In k (JSMap.keys m) -> JSMap.keys (JSMap.set m k v) = JSMap.keys m.
Proof.
  intros H. rewrite keys_set. apply has_In_keys in H. now rewrite H.
Qed.

Lemma initTables_snoc ids x :
  MathGraph.initTables (ids ++ [x])
  = (JSMap.set (fst (MathGraph.initTables ids)) x (Num 0),
     JSMap.set (snd (MathGraph.initTables ids)) x []).
Proof. unfold MathGraph.initTables. now rewrite fold_left_app. Qed.

Lemma initTables_keys ids :
  JSMap.keys (fst (MathGraph.initTables ids)) = JSSet.ofList ids
  /\ JSMap.keys (snd (MathGraph.initTables ids)) = JSSet.ofList ids.
Proof.
  induction ids as [|x ids [IH1 IH2]] using rev_ind; [split; reflexivity|].
  rewrite initTables_snoc. simpl. rewrite !keys_set_add, IH1, IH2.
  unfold JSSet.ofList, JSSet.addAll. rewrite fold_left_app. now split.
Qed.

Lemma initTables_get ids k :
  In k ids ->
  JSMap.get (fst (MathGraph.initTables ids)) k = Some (Num 0)
  /\ JSMap.get (snd (MathGraph.initTables ids)) k = Some [].
Proof.
  induction ids as [|x ids IH] using rev_ind; [intros []|].
  rewrite initTables_snoc. simpl. rewrite !get_set. intros H.
  eqb_case x k; [now split|].
  apply IH. apply in_app_iff in H. destruct H as [H|[H|[]]]; [assumption|].
  contradiction.
Qed.

Lemma listAt_set {V : Type} (m : JSMap.t (list V)) k l u :
  listAt (JSMap.set m k l) u = if String.eqb k u then l else listAt m u.
Proof. unfold listAt. rewrite get_set. now destruct (String.eqb k u). Qed.

Section Linking.
Variable id : string.

Lemma link_all_prereqs (ps : list string) :
  forall (tb : MathGraph.Tables) (z : Z),
    (forall p, In p ps -> In p (JSMap.keys (snd tb))) ->
    JSMap.get (fst tb) id = Some (Num z) ->
    exists tb',
      forOf (MathGraph.link id) ps tb = Return tb'
      /\ JSMap.keys (fst tb') = JSMap.keys (fst tb)
      /\ JSMap.keys (snd tb') = JSMap.keys (snd tb)
      /\ (forall u, listAt (snd tb') u
                    = listAt (snd tb) u
                        ++ repeat id (count_occ string_dec ps u))
      /\ JSMap.get (fst tb') id = Some (Num (z + Z.of_nat (length ps)))
      /\ (forall v, v <> id -> JSMap.get (fst tb') v = JSMap.get (fst tb) v).
Proof.
  induction ps as [|p ps IH]; intros tb z Hkeys Hid.
  - exists tb. simpl. repeat split; try reflexivity.
    + intros u. now rewrite app_nil_r.
    + rewrite Hid. do 2 f_equal. lia.
  - assert (Hp : In p (JSMap.keys (snd tb))) by (apply Hkeys; now left).
    assert (Hgp : JSMap.get (snd tb) p = Some (listAt (snd tb) p)).
    { unfold listAt. destruct (JSMap.get (snd tb) p) eqn:E; [reflexivity|].
      apply get_None in E. contradiction. }
    set (tb1 := (JSMap.set (fst tb) id (Num (z + 1)),
                 JSMap.set (snd tb) p (listAt (snd tb) p ++ [id]))).
    assert (Hlink : MathGraph.link id tb p = Return tb1).
    { unfold MathGraph.link, MathGraph.pushAt. rewrite Hgp, Hid. reflexivity. }
    destruct (IH tb1 (z + 1)%Z) as (tb' & Hrun & Hk1 & Hk2 & Hadj & Hdeg & Hoth).
    { intros q Hq. simpl. rewrite keys_set_present by assumption.
      apply Hkeys. now right. }
    { simpl. apply get_set_same. }
    exists tb'. simpl forOf. rewrite Hlink. simpl bind.
    split; [exact Hrun|]. split; [|split; [|split; [|split]]].
    + rewrite Hk1. simpl. apply keys_set_present.
      apply has_In_keys. unfold JSMap.has. now rewrite Hid.
    + rewrite Hk2. simpl. now apply keys_set_present.
    + intros u. rewrite Hadj. simpl snd. rewrite listAt_set. simpl count_occ.
      destruct (string_dec p u) as [->|Hne].
      * rewrite String.eqb_refl, <- app_assoc. reflexivity.
      * apply String.eqb_neq in Hne. now rewrite Hne.
    + rewrite Hdeg. do 2 f_equal. simpl length. lia.
    + intros v Hv. rewrite (Hoth v Hv). simpl. now apply get_set_other.
Qed.
End Linking.

Section LinkAll.
Variable g : MathGraph.t.
Variable nodeIds : list string.

Let within := MathGraph.prereqsWithin g nodeIds.

Lemma linkAll_spec (ids : list string) :
  forall tb : MathGraph.Tables,
    (forall id p, In id ids -> In p (within id) -> In p (JSMap.keys (snd tb))) ->
    (forall id, In id ids -> exists z, JSMap.get (fst tb) id = Some (Num z)) ->
    exists tb',
      forOf (fun tb id => forOf (MathGraph.link id) (within id) tb) ids tb
      = Return tb'
      /\ JSMap.keys (fst tb') = JSMap.keys (fst tb)
      /\ JSMap.keys (snd tb') = JSMap.keys (snd tb)
      /\ (forall u, listAt (snd tb') u
                    = listAt (snd tb) u
                        ++ flat_map
                             (fun id => repeat id (count_occ string_dec (within id) u))
                             ids)
      /\ (forall v z, JSMap.get (fst tb) v = Some (Num z) ->
            JSMap.get (fst tb') v
            = Some (Num (z + Z.of_nat (count_occ string_dec ids v
                                       * length (within v))))).
Proof.
  induction ids as [|id ids IH]; intros tb Hkeys Hdeg.
  - exists tb. simpl. repeat split; try reflexivity.
    + intros u. now rewrite app_nil_r.
    + intros v z ->. do 2 f_equal. lia.
  - destruct (Hdeg id (or_introl eq_refl)) as [z0 Hz0].
    destruct (link_all_prereqs id (within id) tb z0)
      as (tb1 & Hrun1 & Hk1 & Hk2 & Hadj1 & Hdeg1 & Hoth1).
    { intros p Hp. apply (Hkeys id p); [now left | assumption]. }
    { exact Hz0. }
    destruct (IH tb1) as (tb' & Hrun & Hk1' & Hk2' & Hadj & Hget).
    { intros i p Hi Hp. rewrite Hk2. apply (Hkeys i p); [now right | assumption]. }
    { intros i Hi. destruct (string_dec i id) as [->|Hne].
      - eexists. exact Hdeg1.
      - rewrite (Hoth1 i Hne). apply Hdeg. now right. }
    exists tb'. simpl forOf. rewrite Hrun1. simpl bind.
    split; [exact Hrun|]. split; [congruence|]. split; [congruence|]. split.
    + intros u. rewrite Hadj, Hadj1, <- app_assoc. reflexivity.
    + intros v z Hv. simpl count_occ.
      destruct (string_dec id v) as [->|Hne].
      * rewrite Hv in Hz0. injection Hz0 as <-.
        rewrite (Hget v _ Hdeg1). do 2 f_equal. lia.
      * rewrite <- (Hoth1 v) in Hv by congruence.
        apply (Hget v z Hv).
Qed.
End LinkAll.

Lemma listAt_initTables ids u : listAt (snd (MathGraph.initTables ids)) u = [].
Proof.
  induction ids as [|x ids IH] using rev_ind; [reflexivity|].
  rewrite initTables_snoc. simpl. rewrite listAt_set.
  now destruct (String.eqb x u).
Qed.

Lemma In_prereqsWithin g S u v :
  In u (MathGraph.prereqsWithin g S v)
  <-> In u (MathGraph.getPrerequisites g v) /\ In u S.
Proof.
  unfold MathGraph.prereqsWithin. rewrite filter_In, includes_In. tauto.
Qed.

Lemma In_adjacency (f : string -> string -> nat) (S : list string) u v :
  In v (flat_map (fun id => repeat id (f id u)) S) <-> In v S /\ f v u > 0.
Proof.
  rewrite (count_occ_In string_dec).
  rewrite (count_occ_flat_repeat (fun id => f id u)).
  rewrite (count_occ_In string_dec). nia.
Qed.

Lemma list_sum_scale (a : nat) (f : string -> nat) (ks : list string) :
  list_sum (map (fun u => a * f u) ks) = a * list_sum (map f ks).
Proof. induction ks as [|k ks IH]; simpl; [lia | rewrite IH; lia]. Qed.

Lemma list_sum_all_zero (f : string -> nat) (ks : list string) :
  (forall k, In k ks -> f k = 0) -> list_sum (map f ks) = 0.
Proof.
  induction ks as [|k ks IH]; simpl; intros H; [reflexivity|].
  rewrite (H k) by now left. apply IH. intros; apply H; now right.
Qed.

Lemma length_ofList xs : length (JSSet.ofList xs) <= length xs.
Proof.
  apply NoDup_incl_length; [apply NoDup_ofList|].
  intros x. apply In_ofList.
Qed.

Lemma In_seeds (inDegree : JSMap.t number) v :
  NoDup (JSMap.keys inDegree) ->
  (In v (MathGraph.seeds inDegree) <-> JSMap.get inDegree v = Some (Num 0)).
Proof.
  intros ND. unfold MathGraph.seeds. rewrite in_map_iff. split.
  - intros ([k n] & <- & H). apply filter_In in H. destruct H as [H Hz].
    simpl in *. rewrite (In_get_Some _ _ _ ND H).
    destruct n as [z|]; [|discriminate].
    apply Z.eqb_eq in Hz. now subst.
  - intros H. exists (v, Num 0). split; [reflexivity|].
    apply filter_In. split; [now apply get_Some_In | reflexivity].
Qed.

Lemma NoDup_seeds (inDegree : JSMap.t number) :
  NoDup (JSMap.keys inDegree) -> NoDup (MathGraph.seeds inDegree).
Proof.
  unfold MathGraph.seeds, JSMap.keys.
  induction inDegree as [|[k n] m IH]; intros ND; [constructor|].
  inversion ND as [|? ? Hk ND']; subst.
  cbn [filter snd]. destruct (isZero (Some n)); [|now apply IH].
  cbn [map fst]. constructor; [|now apply IH].
  intros H. apply Hk. apply in_map_iff in H. destruct H as (kv & <- & H).
  apply filter_In in H. now apply in_map.
Qed.

(** The tables after the two [for] loops of [topologicalSort]. *)
Lemma topologicalSort_tables g S :
  exists tb,
    MathGraph.linkAll g S (MathGraph.initTables S) = Return tb
    /\ JSMap.keys (fst tb) = JSSet.ofList S
    /\ JSMap.keys (snd tb) = JSSet.ofList S
    /\ (forall u, listAt (snd tb) u
                  = flat_map
                      (fun id => repeat id
                                   (count_occ string_dec
                                      (MathGraph.prereqsWithin g S id) u)) S)
    /\ (forall v, In v S ->
          JSMap.get (fst tb) v
          = Some (Num (Z.of_nat (count_occ string_dec S v
                                 * length (MathGraph.prereqsWithin g S v))))).
Proof.
  destruct (initTables_keys S) as [Hk1 Hk2].
  destruct (linkAll_spec g S S (MathGraph.initTables S))
    as (tb & Hrun & Hk1' & Hk2' & Hadj & Hdeg).
  { intros id p _ Hp. rewrite Hk2. apply In_ofList.
    now apply In_prereqsWithin in Hp. }
  { intros id Hid. exists 0%Z. now apply initTables_get. }
  exists tb. split; [exact Hrun|]. split; [congruence|]. split; [congruence|].
  split.
  - intros u. now rewrite Hadj, listAt_initTables.
  - intros v Hv. apply (Hdeg v 0%Z). now apply initTables_get.
Qed.

Lemma topologicalSort_spec g S :
  exists out,
    MathGraph.topologicalSort g S = Return out
    /\ NoDup out
    /\ incl out S
    /\ (forall u v, In v out -> In u (MathGraph.prereqsWithin g S v) ->
          (0 <= indexOf out u < indexOf out v)%Z)
    /\ (forall v, In v S ->
          (forall u, In u (MathGraph.prereqsWithin g S v) -> In u out) ->
          In v out).
Proof.
  destruct (topologicalSort_tables g S) as (tb & Hrun & Hk1 & Hk2 & Hadj & Hdeg).
  set (within := MathGraph.prereqsWithin g S) in *.
  assert (NDk : NoDup (JSMap.keys (snd tb))) by (rewrite Hk2; apply NoDup_ofList).
  assert (Hedge : forall u v, In v (listAt (snd tb) u) <-> In v S /\ In u (within v)).
  { intros u v. rewrite Hadj.
    rewrite (In_adjacency (fun id u => count_occ string_dec (within id) u)).
    now rewrite <- (count_occ_In string_dec). }
  assert (Hclosed : forall u v, In v (listAt (snd tb) u) -> In v (JSMap.keys (snd tb))).
  { intros u v Hv. apply Hedge in Hv. rewrite Hk2. now apply In_ofList. }
  assert (Hpend0 : forall v, In v S ->
            pendingIn (snd tb) [] v
            = count_occ string_dec S v * length (within v)).
  { intros v Hv. unfold pendingIn. simpl includes.
    rewrite <- (sum_count_occ (JSMap.keys (snd tb)) (within v) NDk).
    - rewrite <- list_sum_scale. f_equal. apply map_ext. intros u.
      rewrite Hadj. apply (count_occ_flat_repeat
                             (fun id => count_occ string_dec (within id) u)).
    - intros p Hp. rewrite Hk2. apply In_ofList.
      now apply In_prereqsWithin in Hp. }
  assert (Inv0 : drainInv (snd tb) (fst tb) (MathGraph.seeds (fst tb)) []).
  { assert (NDd : NoDup (JSMap.keys (fst tb))) by (rewrite Hk1; apply NoDup_ofList).
    split; [|split; [|split; [|split]]].
    - simpl. now apply NoDup_seeds.
    - simpl. intros v Hv. apply (In_seeds _ _ NDd) in Hv.
      rewrite Hk2, <- Hk1. apply has_In_keys. unfold JSMap.has. now rewrite Hv.
    - intros v Hv. rewrite Hk2, In_ofList in Hv.
      rewrite (Hdeg v Hv), (Hpend0 v Hv). reflexivity.
    - intros v Hv. rewrite Hk2, In_ofList in Hv. simpl.
      rewrite (In_seeds _ _ NDd), (Hdeg v Hv), <- (Hpend0 v Hv).
      split; [now intros -> | intros [= Hz]; lia].
    - intros u v []. }
  destruct (drain_returns (snd tb) NDk Hclosed (length S) (fst tb)
              (MathGraph.seeds (fst tb)) [] Inv0)
    as (out & inDegree' & Hout & ND & Hincl & Hget & Hzero & Hord).
  { rewrite Hk2. simpl. pose proof (length_ofList S). lia. }
  rewrite app_nil_r in ND, Hincl.
  exists out. split; [|split; [|split; [|split]]].
  - unfold MathGraph.topologicalSort. rewrite Hrun. exact Hout.
  - exact ND.
  - intros v Hv. apply Hincl in Hv. rewrite Hk2, In_ofList in Hv. exact Hv.
  - intros u v Hv Hu. apply Hord; [exact Hv | |].
    + rewrite Hk2. apply In_ofList. now apply In_prereqsWithin in Hu.
    + apply Hedge. split; [|exact Hu].
      apply Hincl in Hv. rewrite Hk2, In_ofList in Hv. exact Hv.
  - intros v Hv Hall.
    assert (Hk : In v (JSMap.keys (snd tb))) by (rewrite Hk2; now apply In_ofList).
    specialize (Hzero v Hk). rewrite app_nil_r in Hzero. apply Hzero.
    unfold pendingIn. apply list_sum_all_zero. intros u Hu.
    destruct (includes out u) eqn:E; [reflexivity|].
    apply (count_occ_not_In string_dec). intros Hin.
    apply Hedge in Hin. destruct Hin as [_ Hin].
    apply has_false in E. apply E, Hall, Hin.
Qed.

(** ** [topologicalSort] on a built graph *)

Lemma In_prereqsWithin_build ops S u v :
  In v S ->
  (In u (MathGraph.prereqsWithin (build ops) S v) <-> RequiresWithin ops S u v).
Proof.
  intros Hv. rewrite In_prereqsWithin, In_getPrerequisites.
  unfold RequiresWithin. tauto.
Qed.

Lemma length_prereqsWithin ops S v :
  length (MathGraph.prereqsWithin (build ops) S v) = length (edgesInto ops S v).
Proof.
  unfold MathGraph.prereqsWithin, MathGraph.getPrerequisites, edgesInto.
  rewrite getIncomingEdges_build.
  induction (edgesOf ops) as [|e es IH]; simpl; [reflexivity|].
  destruct (String.eqb (GraphEdge.to e) v); simpl;
    [|now rewrite andb_false_r].
  rewrite andb_true_r.
  destruct (isREQUIRES (GraphEdge.type e)); simpl; [|exact IH].
  destruct (includes S (GraphEdge.from e)); simpl; now rewrite IH.
Qed.

Lemma RequiresWithin_left ops S a b : RequiresWithin ops S a b -> In a S.
Proof. intros (_ & H & _). exact H. Qed.

Lemma Path_RequiresWithin_left ops S a b :
  Path (RequiresWithin ops S) a b -> In a S.
Proof.
  intros H. apply clos_trans_t1n in H.
  destruct H as [y H|y z H _]; now apply RequiresWithin_left in H.
Qed.

(** In the output of [topologicalSort] a node comes after everything that
    reaches it inside the subset. *)
Lemma path_before ops S out :
  (forall u v, In v out -> In u (MathGraph.prereqsWithin (build ops) S v) ->
     (0 <= indexOf out u < indexOf out v)%Z) ->
  incl out S ->
  forall a b, Path (RequiresWithin ops S) a b -> In b out ->
    In a out /\ (indexOf out a < indexOf out b)%Z.
Proof.
  intros Hord Hincl a b H. unfold Path in H.
  induction H as [a b Hab|a y b _ IH1 _ IH2]; intros Hb.
  - assert (Hin : In a (MathGraph.prereqsWithin (build ops) S b)).
    { apply In_prereqsWithin_build; [now apply Hincl | exact Hab]. }
    destruct (Hord a b Hb Hin) as [H0 Hlt].
    split; [now apply indexOf_In | exact Hlt].
  - destruct (IH2 Hb) as [Hy Hlt2]. destruct (IH1 Hy) as [Ha Hlt1].
    split; [exact Ha | lia].
Qed.

(** C1.  For every graph and every list [S] of node IDs, [topologicalSort(S)]
    returns a list in which, whenever a REQUIRES edge [a -> b] has both ends in
    [S] and both ends are in the list, [a] stands at a strictly smaller index
    than [b].  The two tables are built from the REQUIRES edges with both ends
    in [S] only: [b] is entered in the adjacency list of [a] exactly when such
    an edge [a -> b] exists, and the in-degree of an ID [v] of [S] is the
    number of REQUIRES edges into [v] whose source lies in [S], once per
    occurrence of [v] in [S]; a prerequisite outside [S] adds nothing. *)
Theorem topologicalSort_respects_edges (ops : list Op) (S : list string) :
  exists tb out,
    MathGraph.linkAll (build ops) S (MathGraph.initTables S) = Return tb
    /\ MathGraph.topologicalSort (build ops) S = Return out
    /\ (forall a b, RequiresWithin ops S a b -> In a out -> In b out ->
          (0 <= indexOf out a < indexOf out b)%Z)
    /\ (forall a b, In b (listAt (snd tb) a) <-> RequiresWithin ops S a b)
    /\ (forall v, In v S ->
          JSMap.get (fst tb) v
          = Some (Num (Z.of_nat (count_occ string_dec S v
                                 * length (edgesInto ops S v))))).
Proof.
  destruct (topologicalSort_tables (build ops) S)
    as (tb & Hrun & Hk1 & Hk2 & Hadj & Hdeg).
  destruct (topologicalSort_spec (build ops) S)
    as (out & Hout & ND & Hincl & Hord & _).
  exists tb, out. split; [exact Hrun|]. split; [exact Hout|].
  split; [|split].
  - intros a b Hab Ha Hb. apply Hord; [exact Hb|].
    apply In_prereqsWithin_build; [now apply Hincl | exact Hab].
  - intros a b. rewrite Hadj.
    rewrite (In_adjacency
               (fun id u => count_occ string_dec
                              (MathGraph.prereqsWithin (build ops) S id) u)).
    rewrite <- (count_occ_In string_dec). split.
    + intros [Hb Ha]. now apply In_prereqsWithin_build.
    + intros Hab. assert (Hb : In b S) by apply Hab.
      split; [exact Hb | now apply In_prereqsWithin_build].
  - intros v Hv. rewrite (Hdeg v Hv), length_prereqsWithin. reflexivity.
Qed.

(** C8.  When the REQUIRES subgraph induced by [S] has a cycle,
    [topologicalSort(S)] still returns; no node on a cycle and no node reached
    from one inside [S] is in the result, which is therefore strictly shorter
    than the number of distinct IDs of [S]. *)
Theorem topologicalSort_omits_cycles (ops : list Op) (S : list string) :
  Cyclic (RequiresWithin ops S) ->
  exists out,
    MathGraph.topologicalSort (build ops) S = Return out
    /\ (forall x y, Path (RequiresWithin ops S) x x ->
          Reaches (RequiresWithin ops S) x y -> ~ In y out)
    /\ length out < JSSet.size (JSSet.ofList S).
Proof.
  intros [x Hx].
  destruct (topologicalSort_spec (build ops) S)
    as (out & Hout & ND & Hincl & Hord & _).
  assert (Hcycle : forall z, Path (RequiresWithin ops S) z z -> ~ In z out).
  { intros z Hz Hin.
    destruct (path_before ops S out Hord Hincl z z Hz Hin) as [_ Hlt]. lia. }
  exists out. split; [exact Hout|]. split.
  - intros z y Hz Hzy Hy. apply (Hcycle z Hz).
    apply Reaches_or_Path in Hzy. destruct Hzy as [->|Hzy]; [exact Hy|].
    now apply (path_before ops S out Hord Hincl z y Hzy).
  - assert (HxS : In x S) by now apply Path_RequiresWithin_left in Hx.
    assert (Hlen : length (x :: out) <= length (JSSet.ofList S)).
    { apply NoDup_incl_length.
      - constructor; [now apply Hcycle | exact ND].
      - intros y [<-|Hy]; apply In_ofList; [exact HxS | now apply Hincl]. }
    simpl in Hlen. unfold JSSet.size. lia.
Qed.

Example topologicalSort_chain :
  MathGraph.topologicalSort (build chainABC) ["A"; "B"; "C"]
  = Return ["A"; "B"; "C"].
Proof. reflexivity. Qed.

Example getAllPrerequisites_chain :
  MathGraph.getAllPrerequisites (build chainABC) "C" = Return ["B"; "A"].
Proof. reflexivity. Qed.

Example topologicalSort_cycleAB :
  MathGraph.topologicalSort (build cycleAB) ["A"; "B"] = Return [].
Proof. reflexivity. Qed.

Lemma topologicalSort_omits_cycles_witness :
  Cyclic (RequiresWithin cycleAB ["A"; "B"])
  /\ exists out,
       MathGraph.topologicalSort (build cycleAB) ["A"; "B"] = Return out
       /\ (forall x y, Path (RequiresWithin cycleAB ["A"; "B"]) x x ->
             Reaches (RequiresWithin cycleAB ["A"; "B"]) x y -> ~ In y out)
       /\ length out < 2.
Proof.
  assert (HAB : RequiresWithin cycleAB ["A"; "B"] "A" "B").
  { split; [|simpl; tauto]. exists (requiresEdge "A" "B"). simpl. tauto. }
  assert (HBA : RequiresWithin cycleAB ["A"; "B"] "B" "A").
  { split; [|simpl; tauto]. exists (requiresEdge "B" "A"). simpl. tauto. }
  assert (H : Cyclic (RequiresWithin cycleAB ["A"; "B"])).
  { exists "A". apply t_trans with "B"; now apply t_step. }
  split; [exact H|].
  exact (topologicalSort_omits_cycles cycleAB ["A"; "B"] H).
Defined.

(** ** [optimizeStudyOrder]: the weak concepts first *)

Lemma forOf_returns {A S : Type} (body : S -> A -> outcome S) (xs : list A) :
  (forall s x, exists s', body s x = Return s') ->
  forall s, exists s', forOf body xs s = Return s'.
Proof.
  intros Hbody. induction xs as [|x xs IH]; intros s; simpl.
  - now exists s.
  - destruct (Hbody s x) as [s1 H1]. rewrite H1. simpl. apply IH.
Qed.

Lemma getAllPrerequisites_returns ops n :
  exists r, MathGraph.getAllPrerequisites (build ops) n = Return r.
Proof.
  destruct (getAllPrerequisites_spec ops n) as (r & Hr & _). now exists r.
Qed.

Section WeakFirst.
Variable weakConcepts : JSSet.t.

Let isWeak := JSSet.has weakConcepts.
Let compare := StudyPlanner.weakFirst weakConcepts.

Lemma insertSorted_weak x l :
  isWeak x = true -> insertSorted compare x l = x :: l.
Proof.
  intros Hx. destruct l as [|y l]; simpl; [reflexivity|].
  unfold compare, StudyPlanner.weakFirst. fold isWeak. rewrite Hx. simpl.
  now destruct (isWeak y).
Qed.

Lemma insertSorted_strong x ws ns :
  isWeak x = false ->
  Forall (fun y => isWeak y = true) ws ->
  Forall (fun y => isWeak y = false) ns ->
  insertSorted compare x (ws ++ ns) = ws ++ x :: ns.
Proof.
  intros Hx Hws Hns. induction Hws as [|y ws Hy _ IH]; simpl.
  - destruct Hns as [|y ns Hy _]; simpl; [reflexivity|].
    unfold compare, StudyPlanner.weakFirst. fold isWeak. now rewrite Hx, Hy.
  - unfold compare at 1, StudyPlanner.weakFirst. fold isWeak.
    rewrite Hx, Hy. simpl. now rewrite IH.
Qed.

Lemma sort_weakFirst l :
  sort compare l
  = filter isWeak l ++ filter (fun c => negb (isWeak c)) l.
Proof.
  induction l as [|x l IH]; simpl; [reflexivity|].
  rewrite IH. destruct (isWeak x) eqn:Hx; simpl.
  - now apply insertSorted_weak.
  - apply insertSorted_strong; [exact Hx | |].
    + apply Forall_forall. intros y Hy. now apply filter_In in Hy.
    + apply Forall_forall. intros y Hy. apply filter_In in Hy.
      now apply negb_true_iff.
Qed.
End WeakFirst.

Lemma indexOf_cons y xs x :
  y <> x -> In x xs -> indexOf (y :: xs) x = (indexOf xs x + 1)%Z.
Proof.
  intros Hne Hin. simpl. apply String.eqb_neq in Hne. rewrite Hne.
  apply indexOf_In in Hin.
  destruct (Z.ltb_spec (indexOf xs x) 0); [lia | reflexivity].
Qed.

Lemma indexOf_app_r xs ys x :
  ~ In x xs -> In x ys ->
  indexOf (xs ++ ys) x = (Z.of_nat (length xs) + indexOf ys x)%Z.
Proof.
  intros Hout Hin. induction xs as [|y xs IH]; simpl app.
  - simpl. lia.
  - rewrite indexOf_cons.
    + rewrite IH by (simpl in Hout; tauto). simpl length. lia.
    + intros ->. apply Hout. now left.
    + apply in_app_iff. now right.
Qed.

Lemma indexOf_filter (f : string -> bool) xs a b :
  f a = true -> f b = true -> In b xs ->
  (0 <= indexOf xs a < indexOf xs b)%Z ->
  (indexOf (filter f xs) a < indexOf (filter f xs) b)%Z.
Proof.
  intros Ha Hb. induction xs as [|y xs IH]; intros Hin Hlt; [destruct Hin|].
  assert (Hax : In a (y :: xs)) by (apply indexOf_In; lia).
  destruct (string_dec y a) as [->|Hya].
  - assert (Hab : a <> b).
    { intros <-. lia. }
    simpl filter. rewrite Ha.
    assert (Hbx : In b xs) by (destruct Hin; [contradiction | assumption]).
    rewrite (indexOf_cons a _ b Hab) by (apply filter_In; now split).
    assert (H0 : indexOf (a :: filter f xs) a = 0%Z)
      by (simpl; now rewrite String.eqb_refl).
    assert (Hpos : In b (filter f xs)) by (apply filter_In; now split).
    apply indexOf_In in Hpos. lia.
  - assert (Hax' : In a xs) by (destruct Hax; [contradiction | assumption]).
    rewrite (indexOf_cons y xs a Hya Hax') in Hlt.
    assert (Hyb : y <> b).
    { intros Heq. subst y.
      assert (Hb0 : indexOf (b :: xs) b = 0%Z)
        by (simpl; now rewrite String.eqb_refl).
      apply indexOf_In in Hax'. rewrite Hb0 in Hlt. lia. }
    assert (Hbx : In b xs) by (destruct Hin; [contradiction | assumption]).
    rewrite (indexOf_cons y xs b Hyb Hbx) in Hlt.
    assert (IH' : (indexOf (filter f xs) a < indexOf (filter f xs) b)%Z)
      by (apply IH; [assumption | apply indexOf_In in Hax'; lia]).
    simpl filter. destruct (f y); [|exact IH'].
    rewrite !indexOf_cons; try assumption; try (apply filter_In; now split).
    lia.
Qed.

Lemma Permutation_partition (f : string -> bool) xs :
  Permutation (filter f xs ++ filter (fun c => negb (f c)) xs) xs.
Proof.
  induction xs as [|x xs IH]; simpl; [constructor|].
  destruct (f x); simpl.
  - now constructor.
  - rewrite <- Permutation_middle. now constructor.
Qed.

(** The order inside each of the two groups, and from the first group to the
    second, is the one of the list that was sorted. *)
Lemma partition_keeps_order (f : string -> bool) xs a b :
  In a xs -> In b xs ->
  (indexOf xs a < indexOf xs b)%Z ->
  (f b = true -> f a = true) ->
  (indexOf (filter f xs ++ filter (fun c => negb (f c)) xs) a
   < indexOf (filter f xs ++ filter (fun c => negb (f c)) xs) b)%Z.
Proof.
  intros Ha Hb Hlt Hweak.
  assert (H0 : (0 <= indexOf xs a)%Z) by now apply indexOf_In.
  destruct (f a) eqn:Fa; destruct (f b) eqn:Fb.
  - rewrite !indexOf_app_l by (apply filter_In; now split).
    apply indexOf_filter; try assumption. lia.
  - rewrite indexOf_app_l by (apply filter_In; now split).
    rewrite indexOf_app_r.
    + pose proof (indexOf_bounds (filter f xs) a).
      assert (Hb' : In b (filter (fun c => negb (f c)) xs))
        by (apply filter_In; split; [assumption | now rewrite Fb]).
      apply indexOf_In in Hb'. lia.
    + rewrite filter_In. intros [_ H]. congruence.
    + apply filter_In. split; [assumption | now rewrite Fb].
  - discriminate (Hweak eq_refl).
  - rewrite !indexOf_app_r;
      try (rewrite filter_In; intros [_ H]; congruence);
      try (apply filter_In; split; [assumption | now rewrite ?Fa, ?Fb]).
    assert ((indexOf (filter (fun c => negb (f c)) xs) a
             < indexOf (filter (fun c => negb (f c)) xs) b)%Z).
    { apply indexOf_filter; try assumption;
        [now rewrite Fa | now rewrite Fb | lia]. }
    lia.
Qed.

Lemma Qlt_bool_iff a b : Qlt_bool a b = true <-> (a < b)%Q.
Proof.
  unfold Qlt_bool. rewrite negb_true_iff. split.
  - intros H. apply Qnot_le_lt. intros Hle.
    apply Qle_bool_iff in Hle. congruence.
  - intros H. destruct (Qle_bool b a) eqn:E; [|reflexivity].
    apply Qle_bool_iff in E. exfalso. now apply (Qlt_not_le a b).
Qed.

Lemma has_weakConceptsOf sp userId targetConcepts c :
  JSSet.has (StudyPlanner.weakConceptsOf sp userId targetConcepts) c = true
  <-> In c targetConcepts
      /\ (0 < DiagnosticsEngine.getConfidence
                (StudyPlanner.diagnosticsEngine sp) userId c
          < StudyPlanner.knownThreshold)%Q.
Proof.
  rewrite has_In. unfold StudyPlanner.weakConceptsOf.
  assert (H : forall W,
             In c (fold_left
                     (fun weakConcepts conceptId =>
                        if Qlt_bool 0
                             (DiagnosticsEngine.getConfidence
                                (StudyPlanner.diagnosticsEngine sp) userId conceptId)
                           && Qlt_bool
                                (DiagnosticsEngine.getConfidence
                                   (StudyPlanner.diagnosticsEngine sp) userId conceptId)
                                StudyPlanner.knownThreshold
                        then JSSet.add weakConcepts conceptId
                        else weakConcepts) targetConcepts W)
             <-> In c W
                 \/ (In c targetConcepts
                     /\ (0 < DiagnosticsEngine.getConfidence
                               (StudyPlanner.diagnosticsEngine sp) userId c
                         < StudyPlanner.knownThreshold)%Q)).
  { induction targetConcepts as [|x xs IH]; intros W; simpl; [tauto|].
    rewrite IH.
    destruct (Qlt_bool 0 _ && Qlt_bool _ StudyPlanner.knownThreshold) eqn:E.
    - apply andb_true_iff in E. rewrite !Qlt_bool_iff in E.
      rewrite In_add. split; [|intuition congruence].
      intros [[H| ->]|H]; [tauto| |tauto].
      right. split; [now left | exact E].
    - split; [tauto|]. intros [H|[[<-|H] Hc]]; try tauto.
      exfalso. rewrite <- !Qlt_bool_iff in Hc. destruct Hc as [H1 H2].
      rewrite H1, H2 in E. discriminate. }
  rewrite H. simpl. tauto.
Qed.

Lemma toStudyOf_returns ops eng userId targetConcepts :
  exists toStudy,
    StudyPlanner.toStudyOf
      {| StudyPlanner.graph := build ops; StudyPlanner.diagnosticsEngine := eng |}
      userId targetConcepts = Return toStudy.
Proof.
  unfold StudyPlanner.toStudyOf. simpl.
  destruct (forOf_returns
              (fun all conceptId =>
                 prereqs <- MathGraph.getAllPrerequisites (build ops) conceptId ;;
                 Return (JSSet.addAll all prereqs))
              targetConcepts) with (s := JSSet.ofList targetConcepts) as [all Hall].
  { intros s x. destruct (getAllPrerequisites_returns ops x) as [r Hr].
    rewrite Hr. simpl. eexists. reflexivity. }
  rewrite Hall. simpl. eexists. reflexivity.
Qed.

(** C3, as the code has it.  [optimizeStudyOrder] with
    [prioritizeWeakPrereqs = true] returns the topological order of the
    to-study set split in two: first the weak concepts (the targets whose
    confidence lies strictly between 0 and 0.7), then the others, each group
    in its topological order.  A concept therefore stands after an in-set
    REQUIRES prerequisite whenever the prerequisite is weak or the concept is
    not; nothing is promised for a weak concept with a prerequisite that is
    not weak. *)
Theorem optimizeStudyOrder_weak_first (ops : list Op) (eng : DiagnosticsEngine.t)
  (userId : string) (targetConcepts : list string) :
  let sp := {| StudyPlanner.graph := build ops;
               StudyPlanner.diagnosticsEngine := eng |} in
  let isWeak := JSSet.has (StudyPlanner.weakConceptsOf sp userId targetConcepts) in
  exists toStudy ordered out,
    StudyPlanner.toStudyOf sp userId targetConcepts = Return toStudy
    /\ MathGraph.topologicalSort (build ops) toStudy = Return ordered
    /\ StudyPlanner.optimizeStudyOrder sp userId targetConcepts true = Return out
    /\ topologicalOn ops toStudy ordered
    /\ out = filter isWeak ordered ++ filter (fun c => negb (isWeak c)) ordered
    /\ Permutation out ordered
    /\ (forall a b, RequiresWithin ops toStudy a b -> In a out -> In b out ->
          (isWeak b = true -> isWeak a = true) ->
          (indexOf out a < indexOf out b)%Z)
    /\ (forall c, isWeak c = true <->
          In c targetConcepts
          /\ (0 < DiagnosticsEngine.getConfidence eng userId c
              < StudyPlanner.knownThreshold)%Q).
Proof.
  intros sp isWeak.
  destruct (toStudyOf_returns ops eng userId targetConcepts) as [toStudy HtoStudy].
  destruct (topologicalSort_spec (build ops) toStudy)
    as (ordered & Hordered & ND & Hincl & Hord & _).
  assert (Htopo : topologicalOn ops toStudy ordered).
  { intros a b Hab Ha Hb. apply Hord; [exact Hb|].
    apply In_prereqsWithin_build; [now apply Hincl | exact Hab]. }
  set (out := filter isWeak ordered ++ filter (fun c => negb (isWeak c)) ordered).
  assert (Hperm : Permutation out ordered) by apply Permutation_partition.
  exists toStudy, ordered, out.
  split; [exact HtoStudy|]. split; [exact Hordered|]. split.
  { unfold StudyPlanner.optimizeStudyOrder, sp. rewrite HtoStudy. simpl bind.
    rewrite Hordered. simpl bind. now rewrite sort_weakFirst. }
  split; [exact Htopo|]. split; [reflexivity|]. split; [exact Hperm|]. split.
  - intros a b Hab Ha Hb Hweak.
    assert (Ha' : In a ordered) by now apply (Permutation_in _ Hperm).
    assert (Hb' : In b ordered) by now apply (Permutation_in _ Hperm).
    apply partition_keeps_order; try assumption.
    now apply Htopo.
  - intros c. apply (has_weakConceptsOf sp).
Qed.

(** C3 as stated fails: B requires A, the user is weak on B and has not
    started A; with the target B the result is B before A. *)
Lemma optimizeStudyOrder_not_topological :
  exists toStudy out,
    StudyPlanner.toStudyOf weakBeforeMissing "u" ["B"] = Return toStudy
    /\ StudyPlanner.optimizeStudyOrder weakBeforeMissing "u" ["B"] true = Return out
    /\ ~ topologicalOn pairAB toStudy out.
Proof.
  exists ["B"; "A"], ["B"; "A"].
  split; [reflexivity|]. split; [reflexivity|].
  intros H. specialize (H "A" "B").
  assert (Hlt : (indexOf ["B"; "A"] "A" < indexOf ["B"; "A"] "B")%Z).
  { apply H; simpl; try tauto.
    split; [|simpl; tauto].
    exists (requiresEdge "A" "B"). simpl. tauto. }
  vm_compute in Hlt. discriminate Hlt.
Qed.

(** ** [detectGaps] *)

Lemma record_snoc ops op : record (ops ++ [op]) = applyProgress (record ops) op.
Proof. unfold record. now rewrite fold_left_app. Qed.

Lemma progressConsistent_set eng userId m :
  progressConsistent eng ->
  NoDup (JSMap.keys m) ->
  (forall k p, In (k, p) m -> ConceptProgress.concept_id p = k) ->
  progressConsistent
    {| DiagnosticsEngine.progress :=
         JSMap.set (DiagnosticsEngine.progress eng) userId m |}.
Proof.
  intros Heng ND Hid u m'. simpl. rewrite get_set.
  eqb_case userId u.
  - intros [= <-]. now split.
  - apply Heng.
Qed.

Lemma userMap_consistent eng userId :
  progressConsistent eng ->
  NoDup (JSMap.keys (DiagnosticsEngine.userMap eng userId))
  /\ forall k p, In (k, p) (DiagnosticsEngine.userMap eng userId) ->
                 ConceptProgress.concept_id p = k.
Proof.
  intros Heng. unfold DiagnosticsEngine.userMap, orElse.
  destruct (JSMap.get (DiagnosticsEngine.progress eng) userId) eqn:E.
  - now apply (Heng userId).
  - split; [constructor | intros k p []].
Qed.

Lemma progressConsistent_record ops : progressConsistent (record ops).
Proof.
  induction ops as [|op ops IH] using rev_ind.
  - intros u m. discriminate.
  - rewrite record_snoc.
    destruct op as [userId conceptId update now|userId progressArray]; simpl.
    + destruct (userMap_consistent (record ops) userId IH) as [ND Hid].
      apply progressConsistent_set; [exact IH | now apply NoDup_keys_set |].
      intros k p H. apply In_set in H.
      destruct H as [[= -> ->]|H]; [reflexivity | now apply Hid].
    + destruct (userMap_consistent (record ops) userId IH) as [ND Hid].
      unfold DiagnosticsEngine.importProgress.
      revert ND Hid. generalize (DiagnosticsEngine.userMap (record ops) userId).
      induction progressArray as [|prog progs IHp]; intros m ND Hid; simpl.
      * now apply progressConsistent_set.
      * apply IHp; [now apply NoDup_keys_set|].
        intros k p H. apply In_set in H.
        destruct H as [[= -> ->]|H]; [reflexivity | now apply Hid].
Qed.

Section Known.
Variable eng : DiagnosticsEngine.t.
Variable userId : string.
Variable threshold : Q.
Hypothesis consistent : progressConsistent eng.
Hypothesis positive : (0 < threshold)%Q.

Lemma getConfidence_stored c p :
  In p (DiagnosticsEngine.getUserProgress eng userId) ->
  ConceptProgress.concept_id p = c ->
  DiagnosticsEngine.getConfidence eng userId c = ConceptProgress.confidence p.
Proof.
  unfold DiagnosticsEngine.getUserProgress, DiagnosticsEngine.getConfidence,
    DiagnosticsEngine.getProgress.
  destruct (JSMap.get (DiagnosticsEngine.progress eng) userId) as [m|] eqn:E;
    [|intros []].
  destruct (consistent userId m E) as [ND Hid].
  intros Hp Hc. unfold JSMap.values in Hp. apply in_map_iff in Hp.
  destruct Hp as ([k p'] & Hp' & Hin). simpl in Hp'. subst p'.
  rewrite (Hid k p Hin) in Hc. subst k.
  now rewrite (In_get_Some m c p ND Hin).
Qed.

Lemma getConfidence_cases c :
  DiagnosticsEngine.getConfidence eng userId c = 0%Q
  \/ exists p, In p (DiagnosticsEngine.getUserProgress eng userId)
               /\ ConceptProgress.concept_id p = c
               /\ DiagnosticsEngine.getConfidence eng userId c
                  = ConceptProgress.confidence p.
Proof.
  unfold DiagnosticsEngine.getUserProgress, DiagnosticsEngine.getConfidence,
    DiagnosticsEngine.getProgress.
  destruct (JSMap.get (DiagnosticsEngine.progress eng) userId) as [m|] eqn:E;
    [|now left].
  destruct (JSMap.get m c) as [p|] eqn:G; [|now left].
  right. exists p. destruct (consistent userId m E) as [ND Hid].
  apply get_Some_In in G. split; [|split; [now apply (Hid c p) | reflexivity]].
  unfold JSMap.values. apply in_map_iff. now exists (c, p).
Qed.

Lemma known_iff c :
  JSSet.has (DiagnosticsEngine.getKnownConcepts eng userId threshold) c = true
  <-> (threshold <= DiagnosticsEngine.getConfidence eng userId c)%Q.
Proof.
  unfold DiagnosticsEngine.getKnownConcepts.
  rewrite has_In, In_ofList, in_map_iff. split.
  - intros (p & Hc & Hp). apply filter_In in Hp. destruct Hp as [Hp Hle].
    rewrite (getConfidence_stored c p Hp Hc). now apply Qle_bool_iff.
  - intros Hle. destruct (getConfidence_cases c) as [H0|(p & Hp & Hc & Hconf)].
    + exfalso. rewrite H0 in Hle. now apply (Qlt_not_le 0 threshold).
    + exists p. split; [exact Hc|]. apply filter_In. split; [exact Hp|].
      apply Qle_bool_iff. now rewrite <- Hconf.
Qed.
End Known.

Lemma classify_fold eng userId threshold (l : list string) :
  forall mw,
    fold_left (DiagnosticsEngine.classify eng userId threshold) l mw
    = (fst mw
         ++ filter (fun c => Qeq_bool (DiagnosticsEngine.getConfidence eng userId c) 0)
              l,
       snd mw
         ++ filter (fun c =>
                      negb (Qeq_bool (DiagnosticsEngine.getConfidence eng userId c) 0)
                      && Qlt_bool (DiagnosticsEngine.getConfidence eng userId c)
                           threshold) l).
Proof.
  induction l as [|c l IH]; intros [m w]; simpl.
  - now rewrite !app_nil_r.
  - rewrite IH. unfold DiagnosticsEngine.classify. simpl.
    destruct (Qeq_bool (DiagnosticsEngine.getConfidence eng userId c) 0); simpl.
    + now rewrite <- app_assoc.
    + destruct (Qlt_bool (DiagnosticsEngine.getConfidence eng userId c) threshold);
        simpl; [now rewrite <- app_assoc | reflexivity].
Qed.

Lemma allRequired_from ops (targetConcepts : list string) :
  forall s,
    exists all,
      forOf
        (fun all conceptId =>
           prereqs <- MathGraph.getAllPrerequisites (build ops) conceptId ;;
           Return (JSSet.add (JSSet.addAll all prereqs) conceptId))
        targetConcepts s = Return all
      /\ (NoDup s -> NoDup all)
      /\ forall c, In c all <->
                   In c s \/ In c targetConcepts
                   \/ exists t, In t targetConcepts /\ Path (Requires ops) c t.
Proof.
  induction targetConcepts as [|x xs IH]; intros s.
  - exists s. simpl. split; [reflexivity|]. split; [tauto|].
    intros c. split; [tauto|]. intros [H|[[]|(t & [] & _)]]. exact H.
  - destruct (getAllPrerequisites_paths ops x) as (r & Hr & _ & _ & Hin).
    destruct (IH (JSSet.add (JSSet.addAll s r) x)) as (all & Hall & ND & Hc).
    exists all. simpl forOf. rewrite Hr. simpl bind.
    split; [exact Hall|]. split.
    + intros NDs. apply ND. now apply NoDup_add, NoDup_addAll.
    + intros c. rewrite Hc, In_add, In_addAll, Hin. split.
      * intros [[[H|[Hne H]]| ->]|[H|(t & Ht & H)]].
        -- now left.
        -- right. right. exists x. split; [now left | exact H].
        -- right. left. now left.
        -- right. left. now right.
        -- right. right. exists t. split; [now right | exact H].
      * intros [H|[[<-|H]|(t & [<-|Ht] & H)]].
        -- left. left. now left.
        -- left. now right.
        -- right. now left.
        -- destruct (string_dec c x) as [->|Hne]; [left; now right|].
           left. left. right. now split.
        -- right. right. now exists t.
Qed.

Lemma allRequired_spec ops targetConcepts :
  exists all,
    DiagnosticsEngine.allRequired (build ops) targetConcepts = Return all
    /\ NoDup all
    /\ forall c, In c all <->
                 In c targetConcepts
                 \/ exists t, In t targetConcepts /\ Path (Requires ops) c t.
Proof.
  destruct (allRequired_from ops targetConcepts JSSet.empty) as (all & H & ND & Hc).
  exists all. split; [exact H|]. split; [apply ND; constructor|].
  intros c. rewrite Hc. simpl. tauto.
Qed.

Example detectGaps_scenario :
  DiagnosticsEngine.detectGaps (record progressABC) "u" (build chainABC) ["C"]
    literal_0_7
  = Return {| DiagnosticsEngine.missing := ["C"];
              DiagnosticsEngine.weak := ["B"];
              DiagnosticsEngine.strongPrereqs := ["A"] |}.
Proof. reflexivity. Qed.

(** C6, for a positive threshold.  For every user, graph and target list,
    with every stored confidence in [0,1] and a threshold above 0,
    [detectGaps] returns, and splits the prerequisite closure of the targets
    together with the targets into four classes that cover it and exclude one
    another: [missing] (confidence 0), [weak] (confidence strictly between 0
    and the threshold), [strongPrereqs] (confidence at least the threshold,
    not a target) and the known targets (confidence at least the threshold, a
    target, in none of the three lists).  No list repeats a concept. *)
Theorem detectGaps_partition (graphOps : list Op) (progressOps : list ProgressOp)
  (userId : string) (targetConcepts : list string) (threshold : Q) :
  let eng := record progressOps in
  let confidence := DiagnosticsEngine.getConfidence eng userId in
  (0 < threshold)%Q ->
  (forall p, In p (DiagnosticsEngine.getUserProgress eng userId) ->
     (0 <= ConceptProgress.confidence p <= 1)%Q) ->
  exists all gaps,
    DiagnosticsEngine.allRequired (build graphOps) targetConcepts = Return all
    /\ DiagnosticsEngine.detectGaps eng userId (build graphOps) targetConcepts
         threshold = Return gaps
    /\ (forall c, In c all <->
          In c targetConcepts
          \/ exists t, In t targetConcepts /\ Path (Requires graphOps) c t)
    /\ (forall c, In c (DiagnosticsEngine.missing gaps) <->
          In c all /\ (confidence c == 0)%Q)
    /\ (forall c, In c (DiagnosticsEngine.weak gaps) <->
          In c all /\ (0 < confidence c < threshold)%Q)
    /\ (forall c, In c (DiagnosticsEngine.strongPrereqs gaps) <->
          In c all /\ (threshold <= confidence c)%Q /\ ~ In c targetConcepts)
    /\ (forall c, In c all ->
          In c (DiagnosticsEngine.missing gaps)
          \/ In c (DiagnosticsEngine.weak gaps)
          \/ In c (DiagnosticsEngine.strongPrereqs gaps)
          \/ ((threshold <= confidence c)%Q /\ In c targetConcepts))
    /\ (forall c,
          ~ (In c (DiagnosticsEngine.missing gaps)
             /\ In c (DiagnosticsEngine.weak gaps))
          /\ ~ (In c (DiagnosticsEngine.missing gaps)
                /\ In c (DiagnosticsEngine.strongPrereqs gaps))
          /\ ~ (In c (DiagnosticsEngine.weak gaps)
                /\ In c (DiagnosticsEngine.strongPrereqs gaps))
          /\ ~ (In c (DiagnosticsEngine.missing gaps)
                /\ (threshold <= confidence c)%Q)
          /\ ~ (In c (DiagnosticsEngine.weak gaps)
                /\ (threshold <= confidence c)%Q)
          /\ ~ (In c (DiagnosticsEngine.strongPrereqs gaps)
                /\ In c targetConcepts))
    /\ NoDup (DiagnosticsEngine.missing gaps)
    /\ NoDup (DiagnosticsEngine.weak gaps)
    /\ NoDup (DiagnosticsEngine.strongPrereqs gaps).
Proof.
  intros eng confidence Hpos Hrange.
  destruct (allRequired_spec graphOps targetConcepts) as (all & Hall & ND & Hin).
  assert (Hcons : progressConsistent eng) by apply progressConsistent_record.
  assert (Hnonneg : forall c, (0 <= confidence c)%Q).
  { intros c. unfold confidence.
    destruct (getConfidence_cases eng userId Hcons c) as [H0|(p & Hp & _ & Hc)].
    - rewrite H0. apply Qle_refl.
    - rewrite Hc. now apply Hrange. }
  assert (Hmissing : forall c,
            Qeq_bool (confidence c) 0 = true <-> (confidence c == 0)%Q)
    by (intros c; apply Qeq_bool_iff).
  assert (Hweak : forall c,
            negb (Qeq_bool (confidence c) 0) && Qlt_bool (confidence c) threshold
            = true <-> (0 < confidence c < threshold)%Q).
  { intros c. rewrite andb_true_iff, negb_true_iff, Qlt_bool_iff. split.
    - intros [Hne Hlt]. split; [|exact Hlt].
      destruct (Qle_lt_or_eq _ _ (Hnonneg c)) as [H|H]; [exact H|].
      apply Qeq_sym, Hmissing in H. congruence.
    - intros [H0 Hlt]. split; [|exact Hlt].
      destruct (Qeq_bool (confidence c) 0) eqn:E; [|reflexivity].
      apply Hmissing in E. rewrite E in H0. now apply Qlt_irrefl in H0. }
  assert (Hstrong : forall c,
            JSSet.has (DiagnosticsEngine.getKnownConcepts eng userId threshold) c
            && negb (includes targetConcepts c) = true
            <-> (threshold <= confidence c)%Q /\ ~ In c targetConcepts).
  { intros c. rewrite andb_true_iff, negb_true_iff.
    rewrite (known_iff eng userId threshold Hcons Hpos c).
    unfold includes. now rewrite has_false. }
  eexists all, _. split; [exact Hall|]. split.
  { unfold DiagnosticsEngine.detectGaps. rewrite Hall. simpl bind.
    rewrite classify_fold. simpl fst. simpl snd. reflexivity. }
  simpl DiagnosticsEngine.missing. simpl DiagnosticsEngine.weak.
  simpl DiagnosticsEngine.strongPrereqs.
  fold eng. fold confidence.
  assert (Hm : forall c,
            In c (filter (fun c => Qeq_bool (confidence c) 0) all)
            <-> In c all /\ (confidence c == 0)%Q)
    by (intros c; now rewrite filter_In, Hmissing).
  assert (Hw : forall c,
            In c (filter (fun c => negb (Qeq_bool (confidence c) 0)
                                   && Qlt_bool (confidence c) threshold) all)
            <-> In c all /\ (0 < confidence c < threshold)%Q)
    by (intros c; now rewrite filter_In, Hweak).
  assert (Hs : forall c,
            In c (filter
                    (fun id =>
                       JSSet.has
                         (DiagnosticsEngine.getKnownConcepts eng userId threshold) id
                       && negb (includes targetConcepts id)) all)
            <-> In c all /\ (threshold <= confidence c)%Q /\ ~ In c targetConcepts)
    by (intros c; now rewrite filter_In, Hstrong).
  assert (Hlow : forall c, (confidence c == 0)%Q ->
                           ~ (threshold <= confidence c)%Q).
  { intros c H0 Hle. rewrite H0 in Hle. now apply (Qlt_not_le 0 threshold). }
  split; [exact Hin|]. split; [exact Hm|]. split; [exact Hw|].
  split; [exact Hs|]. split; [|split].
  - intros c Hc. rewrite Hm, Hw, Hs.
    destruct (Qlt_le_dec (confidence c) threshold) as [Hlt|Hle].
    + destruct (Qle_lt_or_eq _ _ (Hnonneg c)) as [H|H].
      * right. left. tauto.
      * left. split; [exact Hc | now apply Qeq_sym].
    + destruct (in_dec string_dec c targetConcepts) as [Ht|Ht]; tauto.
  - intros c. rewrite Hm, Hw, Hs. repeat split.
    + intros [[_ H0] [_ [Hlt _]]]. rewrite H0 in Hlt. now apply Qlt_irrefl in Hlt.
    + intros [[_ H0] [_ [Hle _]]]. now apply (Hlow c).
    + intros [[_ [_ Hlt]] [_ [Hle _]]]. now apply (Qlt_not_le _ _ Hlt).
    + intros [[_ H0] Hle]. now apply (Hlow c).
    + intros [[_ [_ Hlt]] Hle]. now apply (Qlt_not_le _ _ Hlt).
    + intros [[_ [_ Hn]] Ht]. contradiction.
  - repeat split; now apply NoDup_filter.
Qed.

Lemma detectGaps_partition_witness :
  (0 < literal_0_7)%Q
  /\ (forall p,
        In p (DiagnosticsEngine.getUserProgress (record progressABC) "u") ->
        (0 <= ConceptProgress.confidence p <= 1)%Q)
  /\ exists all gaps,
       DiagnosticsEngine.allRequired (build chainABC) ["C"] = Return all
       /\ DiagnosticsEngine.detectGaps (record progressABC) "u" (build chainABC)
            ["C"] literal_0_7 = Return gaps
       /\ DiagnosticsEngine.missing gaps = ["C"]
       /\ DiagnosticsEngine.weak gaps = ["B"]
       /\ DiagnosticsEngine.strongPrereqs gaps = ["A"].
Proof.
  assert (Hpos : (0 < literal_0_7)%Q) by reflexivity.
  assert (Hrange : forall p,
             In p (DiagnosticsEngine.getUserProgress (record progressABC) "u") ->
             (0 <= ConceptProgress.confidence p <= 1)%Q).
  { intros p [<-|[<-|[<-|[]]]]; simpl; split; discriminate. }
  split; [exact Hpos|]. split; [exact Hrange|].
  destruct (detectGaps_partition chainABC progressABC "u" ["C"] literal_0_7
              Hpos Hrange) as (all & gaps & Hall & Hgaps & _).
  exists all, gaps. split; [exact Hall|]. split; [exact Hgaps|].
  rewrite detectGaps_scenario in Hgaps. injection Hgaps as <-.
  repeat split.
Defined.

(** C6 as stated fails for the threshold 0: a prerequisite that the user has
    opened with confidence 0 is both missing and a strong prerequisite. *)
Lemma detectGaps_overlap_at_zero :
  (forall p, In p (DiagnosticsEngine.getUserProgress (record progressA0) "u") ->
     (0 <= ConceptProgress.confidence p <= 1)%Q)
  /\ exists gaps,
       DiagnosticsEngine.detectGaps (record progressA0) "u" (build pairAB) ["B"] 0%Q
       = Return gaps
       /\ In "A" (DiagnosticsEngine.missing gaps)
       /\ In "A" (DiagnosticsEngine.strongPrereqs gaps).
Proof.
  split.
  - intros p [<-|[]]; simpl; split; discriminate.
  - eexists. split; [reflexivity|]. simpl. tauto.
Qed.

(** ** [identifyCriticalPath]: the wave loop *)

Lemma In_nextWave g current x :
  In x (StudyPlanner.nextWave g current)
  <-> exists c, In c current /\ In x (MathGraph.getPrerequisites g c).
Proof.
  unfold StudyPlanner.nextWave.
  assert (H : forall s,
             In x (fold_left
                     (fun next c =>
                        JSSet.addAll next (MathGraph.getPrerequisites g c))
                     current s)
             <-> In x s
                 \/ exists c, In c current
                              /\ In x (MathGraph.getPrerequisites g c)).
  { induction current as [|c cs IH]; intros s; simpl.
    - split; [tauto|]. intros [H|(c & [] & _)]. exact H.
    - rewrite IH, In_addAll. split.
      + intros [[H|H]|(c' & Hc' & H)]; [tauto| |].
        * right. exists c. tauto.
        * right. exists c'. tauto.
      + intros [H|(c' & [<-|Hc'] & H)]; [tauto|tauto|].
        right. exists c'. tauto. }
  rewrite H. simpl. tauto.
Qed.

Lemma In_waveAt ops k :
  forall current x,
    In x (waveAt (build ops) k current)
    <-> exists c, In c current /\ StepsTo (Requires ops) k x c.
Proof.
  induction k as [|k IH]; intros current x; simpl.
  - split; [intros H; now exists x | intros (c & Hc & ->); exact Hc].
  - rewrite IH. split.
    + intros (c' & Hc' & Hsteps). apply In_nextWave in Hc'.
      destruct Hc' as (c & Hc & Hpre). apply In_getPrerequisites in Hpre.
      exists c. split; [exact Hc|]. now exists c'.
    + intros (c & Hc & c' & Hpre & Hsteps).
      exists c'. split; [|exact Hsteps].
      apply In_nextWave. exists c. split; [exact Hc|].
      now apply In_getPrerequisites.
Qed.

Lemma waves_returns g fuel :
  forall current depth k,
    k <= fuel -> waveAt g k current = [] ->
    exists d, StudyPlanner.waves g fuel current depth = Return d.
Proof.
  induction fuel as [|fuel IH]; intros [|c cs] depth k Hk Hempty; simpl;
    try (eexists; reflexivity).
  - assert (k = 0) by lia. subst k. discriminate Hempty.
  - destruct k as [|k]; [discriminate Hempty|].
    apply (IH _ _ k); [lia | exact Hempty].
Qed.

Lemma waves_diverges g fuel :
  forall current depth,
    (forall k, waveAt g k current <> []) ->
    StudyPlanner.waves g fuel current depth = OutOfFuel.
Proof.
  induction fuel as [|fuel IH]; intros [|c cs] depth Hne; simpl.
  - now destruct (Hne 0).
  - reflexivity.
  - now destruct (Hne 0).
  - apply IH. intros k. apply (Hne (S k)).
Qed.

Lemma waves_no_TypeError g fuel :
  forall current depth, StudyPlanner.waves g fuel current depth <> TypeError.
Proof.
  induction fuel as [|fuel IH]; intros [|c cs] depth; simpl;
    try discriminate. apply IH.
Qed.

Section Walks.
Variable R : string -> string -> Prop.

Lemma StepsTo_cons k :
  forall p y t, R p y -> StepsTo R k y t -> StepsTo R (S k) p t.
Proof.
  induction k as [|k IH]; intros p y t Hp H; simpl in *.
  - subst. now exists p.
  - destruct H as (z & Hz & H). exists z. split; [exact Hz|].
    apply (IH p y z Hp H).
Qed.

Lemma StepsTo_Reaches k : forall x t, StepsTo R k x t -> Reaches R x t.
Proof.
  induction k as [|k IH]; intros x t H; simpl in H.
  - subst. apply rt_refl.
  - destruct H as (y & Hy & H). apply rt_trans with y; [now apply IH|].
    now apply rt_step.
Qed.

(** Downstream of a cycle every node has a predecessor that is downstream of
    the cycle too. *)
Lemma predecessor_behind y :
  (exists c, Path R c c /\ Reaches R c y) ->
  exists p, R p y /\ exists c, Path R c c /\ Reaches R c p.
Proof.
  intros (c & Hc & Hcy).
  assert (Hpath : Path R c y).
  { apply Reaches_or_Path in Hcy. destruct Hcy as [<-|H]; assumption. }
  apply clos_trans_tn1 in Hpath.
  destruct Hpath as [y Hstep|y z Hstep Hcz].
  - exists c. split; [exact Hstep|]. exists c. split; [exact Hc | apply rt_refl].
  - exists y. split; [exact Hstep|]. exists c. split; [exact Hc|].
    apply clos_t_clos_rt. now apply clos_tn1_trans.
Qed.

Lemma walks_of_every_length t :
  (exists c, Path R c c /\ Reaches R c t) ->
  forall k, exists y, StepsTo R k y t.
Proof.
  intros Ht k.
  assert (H : exists y, StepsTo R k y t
                        /\ exists c, Path R c c /\ Reaches R c y).
  { induction k as [|k (y & Hsteps & Hy)].
    - exists t. split; [reflexivity | exact Ht].
    - destruct (predecessor_behind y Hy) as (p & Hp & Hbehind).
      exists p. split; [|exact Hbehind]. now apply (StepsTo_cons k p y t). }
  destruct H as (y & H & _). now exists y.
Qed.

(** Without a cycle behind [t], the nodes of a walk to [t] are distinct. *)
Lemma walk_nodes k :
  forall x t,
    (forall c, Reaches R c t -> ~ Path R c c) ->
    StepsTo R k x t ->
    exists l, NoDup l /\ length l = S k
              /\ forall z, In z l -> Reaches R x z /\ Reaches R z t.
Proof.
  induction k as [|k IH]; intros x t Hacyclic H; simpl in H.
  - subst. exists [t]. split; [repeat constructor; simpl; tauto|].
    split; [reflexivity|]. intros z [<-|[]]. split; apply rt_refl.
  - destruct H as (y & Hy & H).
    destruct (IH x y) as (l & ND & Hlen & Hl).
    { intros c Hc. apply Hacyclic. apply rt_trans with y; [exact Hc|].
      now apply rt_step. }
    { exact H. }
    exists (t :: l). split; [|split].
    + constructor; [|exact ND]. intros Hin.
      destruct (Hl t Hin) as [_ Hty].
      apply (Hacyclic t (rt_refl _ _ t)).
      apply Reaches_or_Path in Hty. destruct Hty as [<-|Hty].
      * now apply t_step.
      * apply t_trans with y; [exact Hty | now apply t_step].
    + simpl. now rewrite Hlen.
    + intros z [<-|Hz].
      * split; [|apply rt_refl].
        apply rt_trans with y; [now apply (StepsTo_Reaches k) | now apply rt_step].
      * destruct (Hl z Hz) as [Hxz Hzy]. split; [exact Hxz|].
        apply rt_trans with y; [exact Hzy | now apply rt_step].
Qed.
End Walks.

Lemma Reaches_source ops z t :
  Reaches (Requires ops) z t ->
  In z (t :: map GraphEdge.from (edgesOf ops)).
Proof.
  intros H. apply clos_rt_rt1n in H. destruct H as [|y t (e & He & _ & <- & _) _].
  - now left.
  - right. now apply in_map.
Qed.

Lemma walk_length_bound ops t k x :
  ~ cycleBehind ops t ->
  StepsTo (Requires ops) k x t -> k <= length (edgesOf ops).
Proof.
  intros Hacyclic H.
  destruct (walk_nodes (Requires ops) k x t) as (l & ND & Hlen & Hl).
  { intros c Hc Hcycle. apply Hacyclic. now exists c. }
  { exact H. }
  assert (Hincl : incl l (t :: map GraphEdge.from (edgesOf ops))).
  { intros z Hz. apply Reaches_source. now apply Hl. }
  pose proof (NoDup_incl_length ND Hincl) as Hle.
  simpl in Hle. rewrite length_map in Hle. lia.
Qed.

Lemma waveAt_runs_dry ops t :
  ~ cycleBehind ops t ->
  waveAt (build ops) (S (length (edgesOf ops))) [t] = [].
Proof.
  intros Hacyclic.
  destruct (waveAt (build ops) (S (length (edgesOf ops))) [t]) as [|x l] eqn:E;
    [reflexivity|].
  assert (Hx : In x (waveAt (build ops) (S (length (edgesOf ops))) [t]))
    by (rewrite E; now left).
  apply In_waveAt in Hx. destruct Hx as (c & [<-|[]] & Hsteps).
  apply (walk_length_bound ops t _ x Hacyclic) in Hsteps. lia.
Qed.

Lemma waveAt_never_empty ops t :
  cycleBehind ops t -> forall k, waveAt (build ops) k [t] <> [].
Proof.
  intros (c & Hct & Hcycle) k Hempty.
  destruct (walks_of_every_length (Requires ops) t) with (k := k) as [y Hy].
  { now exists c. }
  assert (Hin : In y (waveAt (build ops) k [t])).
  { apply In_waveAt. exists t. split; [now left | exact Hy]. }
  now rewrite Hempty in Hin.
Qed.

Section CriticalPath.
Variable ops : list Op.
Variable eng : DiagnosticsEngine.t.

Let sp := {| StudyPlanner.graph := build ops;
             StudyPlanner.diagnosticsEngine := eng |}.

Let body (fuel : nat) :=
  fun (st : JSSet.t * Z) (conceptId : string) =>
    prereqs <- MathGraph.getAllPrerequisites (build ops) conceptId ;;
    d <- StudyPlanner.waves (build ops) fuel [conceptId] 0%Z ;;
    Return (JSSet.addAll (fst st) prereqs, Z.max (snd st) d).

Lemma targets_loop_returns (targetConcepts : list string) :
  (forall t, In t targetConcepts -> ~ cycleBehind ops t) ->
  forall st, exists st',
    forOf (body (S (length (edgesOf ops)))) targetConcepts st = Return st'.
Proof.
  induction targetConcepts as [|c cs IH]; intros Hacyclic st; simpl.
  - now exists st.
  - destruct (getAllPrerequisites_returns ops c) as [r Hr].
    destruct (waves_returns (build ops) (S (length (edgesOf ops))) [c] 0%Z
                (S (length (edgesOf ops))) (le_n _)) as [d Hd].
    { apply waveAt_runs_dry. apply Hacyclic. now left. }
    unfold body at 1. rewrite Hr. cbn [bind]. rewrite Hd. cbn [bind].
    apply IH. intros t Ht. apply Hacyclic. now right.
Qed.

Lemma targets_loop_diverges (targetConcepts : list string) fuel :
  (exists t, In t targetConcepts /\ cycleBehind ops t) ->
  forall st, forOf (body fuel) targetConcepts st = OutOfFuel.
Proof.
  induction targetConcepts as [|c cs IH]; intros (t & Ht & Hcycle) st.
  - destruct Ht.
  - simpl. destruct (getAllPrerequisites_returns ops c) as [r Hr].
    unfold body at 1. rewrite Hr. cbn [bind].
    destruct (StudyPlanner.waves (build ops) fuel [c] 0%Z) as [d| |] eqn:E.
    + cbn [bind]. apply IH. exists t. split; [|exact Hcycle].
      destruct Ht as [<-|Ht]; [|exact Ht].
      rewrite (waves_diverges (build ops) fuel [c] 0%Z) in E; [discriminate|].
      now apply waveAt_never_empty.
    + now apply waves_no_TypeError in E.
    + reflexivity.
Qed.

Lemma identifyCriticalPath_unfold fuel (targetConcepts : list string) :
  StudyPlanner.identifyCriticalPath fuel sp targetConcepts
  = (st <- forOf (body fuel) targetConcepts (JSSet.empty, 0%Z) ;;
     criticalConcepts <-
       MathGraph.topologicalSort (build ops) (targetConcepts ++ fst st) ;;
     Return {| StudyPlanner.criticalConcepts := criticalConcepts;
               StudyPlanner.depth := snd st;
               StudyPlanner.totalPrerequisites := JSSet.size (fst st) |}).
Proof. reflexivity. Qed.

(** C10.  [identifyCriticalPath] returns, when its wave loops are granted
    enough rounds, exactly for the target lists behind which there is no
    REQUIRES cycle.  When a cycle is reachable backward from a target, the set
    [current] of that target's loop is non-empty after every number of
    rounds, and the call does not return whatever the number of rounds
    granted. *)
Theorem identifyCriticalPath_termination (targetConcepts : list string) :
  ((exists fuel r,
       StudyPlanner.identifyCriticalPath fuel sp targetConcepts = Return r)
   <-> forall t, In t targetConcepts -> ~ cycleBehind ops t)
  /\ (forall t, In t targetConcepts -> cycleBehind ops t ->
        (forall k, waveAt (build ops) k [t] <> [])
        /\ forall fuel,
             StudyPlanner.identifyCriticalPath fuel sp targetConcepts = OutOfFuel).
Proof.
  assert (Hdiv : forall t, In t targetConcepts -> cycleBehind ops t ->
            forall fuel,
              StudyPlanner.identifyCriticalPath fuel sp targetConcepts = OutOfFuel).
  { intros t Ht Hcycle fuel. rewrite identifyCriticalPath_unfold.
    rewrite (targets_loop_diverges targetConcepts fuel); [reflexivity|].
    now exists t. }
  split; [split|].
  - intros (fuel & r & Hr) t Ht Hcycle.
    rewrite (Hdiv t Ht Hcycle fuel) in Hr. discriminate.
  - intros Hacyclic. exists (S (length (edgesOf ops))).
    destruct (targets_loop_returns targetConcepts Hacyclic (JSSet.empty, 0%Z))
      as [st Hst].
    destruct (topologicalSort_spec (build ops) (targetConcepts ++ fst st))
      as (out & Hout & _).
    eexists. rewrite identifyCriticalPath_unfold.
    rewrite Hst. cbn [bind]. rewrite Hout. cbn [bind]. reflexivity.
  - intros t Ht Hcycle. split; [now apply waveAt_never_empty|].
    now apply (Hdiv t).
Qed.
End CriticalPath.

Example identifyCriticalPath_chain :
  StudyPlanner.identifyCriticalPath 3
    {| StudyPlanner.graph := build chainABC;
       StudyPlanner.diagnosticsEngine := DiagnosticsEngine.new |} ["C"]
  = Return {| StudyPlanner.criticalConcepts := ["A"; "B"; "C"];
              StudyPlanner.depth := 2%Z;
              StudyPlanner.totalPrerequisites := 2 |}.
Proof. reflexivity. Qed.

(** ** [detectCycles] *)

Lemma unvisitedCount_mono U v v' :
  incl v v' -> unvisitedCount U v' <= unvisitedCount U v.
Proof.
  intros Hincl. unfold unvisitedCount.
  induction U as [|u U IH]; simpl; [lia|].
  destruct (JSSet.has v u) eqn:E.
  - apply has_In in E. apply Hincl in E. apply has_In in E. rewrite E. exact IH.
  - destruct (JSSet.has v' u); simpl; lia.
Qed.

Lemma unvisitedCount_add U v n :
  In n U -> ~ In n v ->
  S (unvisitedCount U (JSSet.add v n)) <= unvisitedCount U v.
Proof.
  intros Hn Hv. unfold unvisitedCount.
  induction U as [|u U IH]; simpl; [destruct Hn|].
  assert (Hmono : unvisitedCount U (JSSet.add v n) <= unvisitedCount U v).
  { apply unvisitedCount_mono. intros x Hx. apply In_add. now left. }
  unfold unvisitedCount in Hmono.
  destruct (string_dec u n) as [->|Hne].
  - assert (E1 : JSSet.has (JSSet.add v n) n = true)
      by (apply has_In, In_add; now right).
    assert (E2 : JSSet.has v n = false) by now apply has_false.
    rewrite E1, E2. simpl. lia.
  - destruct Hn as [Hn|Hn]; [contradiction|]. specialize (IH Hn).
    assert (E : JSSet.has (JSSet.add v n) u = JSSet.has v u).
    { destruct (JSSet.has v u) eqn:E.
      - apply has_In, In_add. left. now apply has_In.
      - apply has_false. rewrite In_add. apply has_false in E.
        intuition congruence. }
    rewrite E. destruct (JSSet.has v u); simpl; lia.
Qed.

Lemma add_fresh s x : ~ In x s -> JSSet.add s x = s ++ [x].
Proof. intros H. unfold JSSet.add. apply has_false in H. now rewrite H. Qed.

Lemma delete_absent s x : ~ In x s -> JSSet.delete s x = s.
Proof.
  induction s as [|y s IH]; simpl; [reflexivity|].
  intros H. eqb_case y x; [tauto|]. f_equal. apply IH. tauto.
Qed.

Lemma delete_last s x : ~ In x s -> JSSet.delete (s ++ [x]) x = s.
Proof.
  induction s as [|y s IH]; simpl.
  - now rewrite String.eqb_refl.
  - intros H. eqb_case y x; [tauto|]. f_equal. apply IH. tauto.
Qed.

Lemma closed_Reaches (R : string -> string -> Prop) (P : string -> Prop) :
  (forall x y, P x -> R x y -> P y) ->
  forall x y, Reaches R x y -> P x -> P y.
Proof.
  intros Hclosed x y H. induction H as [x y H|x|x y z _ IH1 _ IH2]; auto.
  intros Hx. now apply (Hclosed x y).
Qed.

Lemma Requires_target ops n d : Requires ops n d -> In d (universe ops).
Proof.
  intros (e & He & _ & _ & <-). unfold universe. apply in_app_iff. right.
  now apply in_map.
Qed.

Section DfsLoop.
Variable ops : list Op.
Variable visit : string -> MathGraph.Search -> outcome MathGraph.Search.
Variable budget : nat.
Variable path' : list string.
Variable n : string.
Variable stack0 : JSSet.t.
Hypothesis visit_ok : visitSpec ops visit budget.
Hypothesis root : exists r, In r (nodeIdsOf ops) /\ Reaches (Requires ops) r n.
Hypothesis ancestors : forall a, In a stack0 -> Path (Requires ops) a n.

Lemma on_stack_cycle d :
  Requires ops n d -> In d (stack0 ++ [n]) -> cycleAhead ops.
Proof.
  intros Hnd Hd. destruct root as (r & Hr & Hrn).
  exists r, d. split; [exact Hr|]. split.
  - apply rt_trans with n; [exact Hrn | now apply rt_step].
  - apply in_app_iff in Hd. destruct Hd as [Hd|[<-|[]]].
    + apply t_trans with n; [now apply ancestors | now apply t_step].
    + now apply t_step.
Qed.

Lemma dfs_loop (deps : list string) :
  forall s,
    (forall d, In d deps -> Requires ops n d) ->
    MathGraph.recursionStack s = stack0 ++ [n] ->
    incl (MathGraph.recursionStack s) (MathGraph.visited s) ->
    unvisitedCount (universe ops) (MathGraph.visited s) <= budget ->
    exists s',
      forOf (dfsStep visit path') deps s = Return s'
      /\ MathGraph.recursionStack s' = stack0 ++ [n]
      /\ incl (MathGraph.visited s) (MathGraph.visited s')
      /\ (~ cycleAhead ops -> MathGraph.cycles s' = MathGraph.cycles s)
      /\ (MathGraph.cycles s' = [] -> MathGraph.cycles s = [])
      /\ (searchInv (Requires ops) s -> searchInv (Requires ops) s')
      /\ (MathGraph.cycles s' = [] -> forall d, In d deps -> finished s' d).
Proof.
  induction deps as [|d deps IH]; intros s Hdeps Hstack Hincl Hcount.
  - exists s. simpl. split; [reflexivity|]. split; [exact Hstack|].
    split; [apply incl_refl|]. split; [reflexivity|]. split; [tauto|].
    split; [tauto|]. intros _ d [].
  - assert (Hnd : Requires ops n d) by (apply Hdeps; now left).
    assert (Hdeps' : forall d', In d' deps -> Requires ops n d')
      by (intros d' Hd'; apply Hdeps; now right).
    simpl forOf. unfold dfsStep at 1.
    destruct (JSSet.has (MathGraph.visited s) d) eqn:Ev; simpl negb; cbv iota.
    + destruct (JSSet.has (MathGraph.recursionStack s) d) eqn:Es.
      * (* an edge back to the recursion stack *)
        apply has_In in Es. rewrite Hstack in Es.
        pose proof (on_stack_cycle d Hnd Es) as Hbad.
        set (s1 := {| MathGraph.visited := MathGraph.visited s;
                      MathGraph.recursionStack := MathGraph.recursionStack s;
                      MathGraph.cycles :=
                        MathGraph.cycles s ++ [slice path' (indexOf path' d)] |}).
        destruct (IH s1 Hdeps' Hstack Hincl Hcount)
          as (s' & Hrun & Hst & Hvis & Hsound & Hgrow & Hinv & Hfin).
        assert (Hne : MathGraph.cycles s' <> []).
        { intros H. apply Hgrow in H. simpl in H.
          now destruct (MathGraph.cycles s). }
        exists s'. cbn [bind]. split; [exact Hrun|]. split; [exact Hst|].
        split; [exact Hvis|]. split; [intros Hgood; contradiction|].
        split; [intros H; contradiction|].
        split; [intros _ H; contradiction | intros H; contradiction].
      * (* already finished *)
        apply has_In in Ev. apply has_false in Es.
        destruct (IH s Hdeps' Hstack Hincl Hcount)
          as (s' & Hrun & Hst & Hvis & Hsound & Hgrow & Hinv & Hfin).
        exists s'. cbn [bind]. split; [exact Hrun|]. split; [exact Hst|].
        split; [exact Hvis|]. split; [exact Hsound|]. split; [exact Hgrow|].
        split; [exact Hinv|].
        intros Hc d' [<-|Hd']; [|now apply Hfin].
        split; [now apply Hvis | now rewrite Hst, <- Hstack].
    + (* not visited yet: the recursive call *)
      apply has_false in Ev.
      destruct (visit_ok d s) as (s1 & Hvisit & Hst1 & Hvis1 & Hd1 & Hsound1
                                  & Hgrow1 & Hinv1).
      { now apply (Requires_target ops n). }
      { exact Ev. }
      { exact Hcount. }
      { exact Hincl. }
      { intros a Ha. rewrite Hstack in Ha. apply in_app_iff in Ha.
        destruct Ha as [Ha|[<-|[]]].
        - apply t_trans with n; [now apply ancestors | now apply t_step].
        - now apply t_step. }
      { destruct root as (r & Hr & Hrn). exists r. split; [exact Hr|].
        apply rt_trans with n; [exact Hrn | now apply rt_step]. }
      destruct (IH s1) as (s' & Hrun & Hst & Hvis & Hsound & Hgrow & Hinv & Hfin).
      { exact Hdeps'. }
      { now rewrite Hst1. }
      { rewrite Hst1. intros x Hx. now apply Hvis1, Hincl. }
      { pose proof (unvisitedCount_mono (universe ops) _ _ Hvis1). lia. }
      exists s'. rewrite Hvisit. cbn [bind]. split; [exact Hrun|].
      split; [exact Hst|]. split; [|split; [|split; [|split]]].
      * intros x Hx. now apply Hvis, Hvis1.
      * intros Hgood. now rewrite (Hsound Hgood), (Hsound1 Hgood).
      * intros H. now apply Hgrow1, Hgrow.
      * intros H. now apply Hinv, Hinv1.
      * intros Hc d' [<-|Hd']; [|now apply Hfin].
        split; [now apply Hvis|].
        rewrite Hst, <- Hstack. intros Hd. now apply Ev, Hincl.
Qed.
End DfsLoop.

Section DfsCall.
Variable ops : list Op.

Let R := Requires ops.

Lemma unvisitedCount_pos U v d : In d U -> ~ In d v -> 1 <= unvisitedCount U v.
Proof.
  intros Hd Hv. pose proof (unvisitedCount_add U v d Hd Hv). lia.
Qed.

Lemma dfs_unfold fuel nodeId path s :
  MathGraph.dfs (build ops) (S fuel) nodeId path s
  = (s' <- forOf
             (dfsStep (fun dep s => MathGraph.dfs (build ops) fuel dep
                                      (path ++ [nodeId]) s)
                (path ++ [nodeId]))
             (MathGraph.getDependents (build ops) nodeId)
             {| MathGraph.visited := JSSet.add (MathGraph.visited s) nodeId;
                MathGraph.recursionStack :=
                  JSSet.add (MathGraph.recursionStack s) nodeId;
                MathGraph.cycles := MathGraph.cycles s |} ;;
     Return {| MathGraph.visited := MathGraph.visited s';
               MathGraph.recursionStack :=
                 JSSet.delete (MathGraph.recursionStack s') nodeId;
               MathGraph.cycles := MathGraph.cycles s' |}).
Proof. reflexivity. Qed.

(** Entering a node finishes nothing. *)
Lemma searchInv_enter s n :
  ~ In n (MathGraph.visited s) ->
  incl (MathGraph.recursionStack s) (MathGraph.visited s) ->
  searchInv R s ->
  searchInv R {| MathGraph.visited := JSSet.add (MathGraph.visited s) n;
                 MathGraph.recursionStack := MathGraph.recursionStack s ++ [n];
                 MathGraph.cycles := MathGraph.cycles s |}.
Proof.
  intros Hn Hincl Hinv Hc. simpl in Hc. destruct (Hinv Hc) as [Hclosed Hacyclic].
  assert (Hfin : forall x,
            finished {| MathGraph.visited := JSSet.add (MathGraph.visited s) n;
                        MathGraph.recursionStack := MathGraph.recursionStack s ++ [n];
                        MathGraph.cycles := MathGraph.cycles s |} x
            <-> finished s x).
  { intros x. unfold finished. simpl. rewrite In_add, in_app_iff. simpl.
    split.
    - intros [[Hx| ->] Hs]; [tauto|]. exfalso. apply Hs. right. now left.
    - intros [Hx Hs]. split; [now left|].
      intros [H|[<-|[]]]; [contradiction | contradiction]. }
  split.
  - intros x y Hx Hxy. apply Hfin. apply (Hclosed x y); [now apply Hfin | exact Hxy].
  - intros x Hx. apply Hacyclic. now apply Hfin.
Qed.

(** Leaving a node whose dependents are all finished finishes the node. *)
Lemma searchInv_leave s' n stack0 :
  ~ In n stack0 ->
  In n (MathGraph.visited s') ->
  MathGraph.recursionStack s' = stack0 ++ [n] ->
  searchInv R s' ->
  (MathGraph.cycles s' = [] -> forall d, R n d -> finished s' d) ->
  searchInv R {| MathGraph.visited := MathGraph.visited s';
                 MathGraph.recursionStack := stack0;
                 MathGraph.cycles := MathGraph.cycles s' |}.
Proof.
  intros Hn Hvis Hstack Hinv Hdeps Hc. simpl in Hc.
  destruct (Hinv Hc) as [Hclosed Hacyclic]. specialize (Hdeps Hc).
  assert (Hfin : forall x,
            finished {| MathGraph.visited := MathGraph.visited s';
                        MathGraph.recursionStack := stack0;
                        MathGraph.cycles := MathGraph.cycles s' |} x
            <-> finished s' x \/ x = n).
  { intros x. unfold finished. simpl. rewrite Hstack, in_app_iff. simpl.
    split.
    - intros [Hx Hs]. destruct (string_dec x n) as [->|Hne]; [now right|].
      left. split; [exact Hx|]. intros [H|[H|[]]]; [contradiction | congruence].
    - intros [[Hx Hs]| ->]; split; try assumption. tauto. }
  assert (Hnot : ~ finished s' n).
  { intros [_ H]. apply H. rewrite Hstack. apply in_app_iff. right. now left. }
  split.
  - intros x y Hx Hxy. apply Hfin. apply Hfin in Hx. destruct Hx as [Hx| ->].
    + left. now apply (Hclosed x y).
    + left. now apply Hdeps.
  - intros x Hx Hcycle. apply Hfin in Hx. destruct Hx as [Hx| ->].
    + now apply (Hacyclic x).
    + apply clos_trans_t1n in Hcycle.
      assert (Hfirst : exists d, R n d /\ Reaches R d n).
      { inversion Hcycle as [y H|y z H Hrest]; subst.
        - exists n. split; [exact H | apply rt_refl].
        - exists y. split; [exact H|].
          apply clos_t_clos_rt. now apply clos_t1n_trans. }
      destruct Hfirst as (d & Hnd & Hdn).
      apply Hnot.
      apply (closed_Reaches R (finished s') Hclosed d n Hdn).
      now apply Hdeps.
Qed.

Lemma dfs_spec fuel :
  forall path,
    visitSpec ops (fun d s => MathGraph.dfs (build ops) fuel d path s) fuel.
Proof.
  induction fuel as [|fuel IH]; intros path d s Hd Hv Hcount Hincl Hanc Hroot.
  - pose proof (unvisitedCount_pos _ _ d Hd Hv). lia.
  - rewrite dfs_unfold.
    assert (Hds : ~ In d (MathGraph.recursionStack s))
      by (intros H; now apply Hv, Hincl).
    rewrite (add_fresh (MathGraph.recursionStack s) d Hds).
    set (s1 := {| MathGraph.visited := JSSet.add (MathGraph.visited s) d;
                  MathGraph.recursionStack := MathGraph.recursionStack s ++ [d];
                  MathGraph.cycles := MathGraph.cycles s |}).
    destruct (dfs_loop ops
                (fun dep s => MathGraph.dfs (build ops) fuel dep (path ++ [d]) s)
                fuel (path ++ [d]) d (MathGraph.recursionStack s)
                (IH (path ++ [d])) Hroot Hanc
                (MathGraph.getDependents (build ops) d) s1)
      as (s' & Hrun & Hst & Hvis & Hsound & Hgrow & Hinv & Hfin).
    { intros x Hx. now apply In_getDependents. }
    { reflexivity. }
    { simpl. intros x Hx. apply In_add. apply in_app_iff in Hx.
      destruct Hx as [Hx|[<-|[]]]; [left; now apply Hincl | now right]. }
    { simpl. pose proof (unvisitedCount_add _ _ d Hd Hv). lia. }
    rewrite Hrun. cbn [bind]. eexists. split; [reflexivity|].
    rewrite Hst, (delete_last _ d Hds).
    assert (Hd' : In d (MathGraph.visited s')).
    { apply Hvis. simpl. apply In_add. now right. }
    split; [reflexivity|]. split; [|split; [exact Hd'|split; [|split]]].
    + intros x Hx. apply Hvis. simpl. apply In_add. now left.
    + intros Hgood. simpl. now rewrite (Hsound Hgood).
    + simpl. intros H. now apply Hgrow in H.
    + intros Hs. apply (searchInv_leave s' d); try assumption.
      * apply Hinv. now apply searchInv_enter.
      * intros Hc x Hx. apply (Hfin Hc). now apply In_getDependents.
Qed.
End DfsCall.

Lemma unvisitedCount_bound ops v :
  unvisitedCount (universe ops) v <= MathGraph.depthBound (build ops).
Proof.
  unfold unvisitedCount, MathGraph.depthBound.
  etransitivity; [apply filter_length_le|].
  unfold universe. rewrite length_app, length_map.
  rewrite (Permutation_length (Permutation_edges_build ops)). lia.
Qed.

Lemma roots_loop ops (ks : list string) :
  forall s,
    (forall k, In k ks -> In k (JSMap.keys (MathGraph.nodes (build ops)))) ->
    MathGraph.recursionStack s = [] ->
    exists s',
      forOf
        (fun s nodeId =>
           if negb (JSSet.has (MathGraph.visited s) nodeId)
           then MathGraph.dfs (build ops) (MathGraph.depthBound (build ops))
                  nodeId [] s
           else Return s) ks s = Return s'
      /\ MathGraph.recursionStack s' = []
      /\ incl (MathGraph.visited s) (MathGraph.visited s')
      /\ (~ cycleAhead ops -> MathGraph.cycles s' = MathGraph.cycles s)
      /\ (MathGraph.cycles s' = [] -> MathGraph.cycles s = [])
      /\ (searchInv (Requires ops) s -> searchInv (Requires ops) s')
      /\ (forall k, In k ks -> In k (MathGraph.visited s')).
Proof.
  induction ks as [|k ks IH]; intros s Hks Hstack.
  - exists s. simpl. split; [reflexivity|]. split; [exact Hstack|].
    split; [apply incl_refl|]. split; [reflexivity|]. split; [tauto|].
    split; [tauto|]. intros k [].
  - assert (Hk : In k (JSMap.keys (MathGraph.nodes (build ops))))
      by (apply Hks; now left).
    assert (Hks' : forall k', In k' ks ->
              In k' (JSMap.keys (MathGraph.nodes (build ops))))
      by (intros k' Hk'; apply Hks; now right).
    cbn [forOf].
    destruct (JSSet.has (MathGraph.visited s) k) eqn:Ev; cbn [negb]; cbv iota.
    + apply has_In in Ev.
      destruct (IH s Hks' Hstack)
        as (s' & Hrun & Hst & Hvis & Hsound & Hgrow & Hinv & Hall).
      exists s'. cbn [bind]. split; [exact Hrun|]. split; [exact Hst|].
      split; [exact Hvis|]. split; [exact Hsound|]. split; [exact Hgrow|].
      split; [exact Hinv|].
      intros k' [<-|Hk']; [now apply Hvis | now apply Hall].
    + apply has_false in Ev.
      destruct (dfs_spec ops (MathGraph.depthBound (build ops)) [] k s)
        as (s1 & Hvisit & Hst1 & Hvis1 & Hk1 & Hsound1 & Hgrow1 & Hinv1).
      { unfold universe. apply in_app_iff. now left. }
      { exact Ev. }
      { apply unvisitedCount_bound. }
      { rewrite Hstack. intros x []. }
      { rewrite Hstack. intros a []. }
      { exists k. split; [now apply keys_nodes_build | apply rt_refl]. }
      cbv beta in Hvisit.
      destruct (IH s1 Hks')
        as (s' & Hrun & Hst & Hvis & Hsound & Hgrow & Hinv & Hall).
      { now rewrite Hst1. }
      exists s'. rewrite Hvisit. cbn [bind]. split; [exact Hrun|].
      split; [exact Hst|]. split; [|split; [|split; [|split]]].
      * intros x Hx. now apply Hvis, Hvis1.
      * intros Hgood. now rewrite (Hsound Hgood), (Hsound1 Hgood).
      * intros H. now apply Hgrow1, Hgrow.
      * intros H. now apply Hinv, Hinv1.
      * intros k' [<-|Hk']; [now apply Hvis | now apply Hall].
Qed.

(** C2, as the code has it.  For every graph [detectCycles()] returns, and
    the list it returns is empty exactly when no REQUIRES cycle is reached
    (along REQUIRES edges) from an ID for which a node record was added.  In
    particular, when the source of every REQUIRES edge has a node record, the
    list is empty exactly when the REQUIRES edges form no cycle. *)
Theorem detectCycles_empty_iff (ops : list Op) :
  exists cycles,
    MathGraph.detectCycles (build ops) = Return cycles
    /\ (cycles = [] <-> ~ cycleAhead ops)
    /\ ((forall e, In e (edgesOf ops) -> GraphEdge.type e = REQUIRES ->
           In (GraphEdge.from e) (nodeIdsOf ops)) ->
        (cycles = [] <-> ~ Cyclic (Requires ops))).
Proof.
  destruct (roots_loop ops (JSMap.keys (MathGraph.nodes (build ops)))
              {| MathGraph.visited := JSSet.empty;
                 MathGraph.recursionStack := JSSet.empty;
                 MathGraph.cycles := [] |})
    as (s & Hrun & Hst & _ & Hsound & _ & Hinv & Hall).
  { auto. }
  { reflexivity. }
  assert (Hiff : MathGraph.cycles s = [] <-> ~ cycleAhead ops).
  { split.
    - intros Hc (r & x & Hr & Hrx & Hcycle).
      destruct Hinv as [Hclosed Hacyclic]; [|exact Hc|].
      { intros _. split; [intros x0 y [[] _] | intros x0 [[] _]]. }
      assert (Hfin : finished s r).
      { split; [|rewrite Hst; intros []].
        apply Hall. now apply keys_nodes_build. }
      apply (Hacyclic x); [|exact Hcycle].
      now apply (closed_Reaches (Requires ops) (finished s) Hclosed r x).
    - intros Hgood. now rewrite (Hsound Hgood). }
  exists (MathGraph.cycles s). split; [|split; [exact Hiff|]].
  - unfold MathGraph.detectCycles. now rewrite Hrun.
  - intros Hrecords. rewrite Hiff. split; intros H Hbad; apply H.
    + destruct Hbad as [x Hx]. exists x, x.
      split; [|split; [apply rt_refl | exact Hx]].
      assert (Hout : exists y, Requires ops x y).
      { apply clos_trans_t1n in Hx.
        inversion Hx as [y Hxy|y z Hxy Hrest]; subst; eexists; eassumption. }
      destruct Hout as (y & e & He & Ht & Hfrom & _).
      rewrite <- Hfrom. now apply Hrecords.
    + destruct Hbad as (r & x & _ & _ & Hx). now exists x.
Qed.

(** C2 as stated fails: two IDs that require each other, with no node record
    for either, form a cycle that [detectCycles()] does not report. *)
Lemma detectCycles_misses_unrecorded :
  MathGraph.detectCycles (build cycleWithoutNodes) = Return []
  /\ Cyclic (Requires cycleWithoutNodes).
Proof.
  split; [reflexivity|].
  exists "A". apply t_trans with "B"; apply t_step.
  - exists (requiresEdge "A" "B"). simpl. tauto.
  - exists (requiresEdge "B" "A"). simpl. tauto.
Qed.

Example detectCycles_cycleAB :
  MathGraph.detectCycles (build cycleAB) = Return [["A"; "B"]].
Proof. reflexivity. Qed.

(** ** The scenarios, through the theorems *)

Lemma topologicalSort_respects_edges_witness :
  exists out,
    MathGraph.topologicalSort (build chainABC) ["C"; "A"; "B"] = Return out
    /\ RequiresWithin chainABC ["C"; "A"; "B"] "B" "C"
    /\ In "B" out /\ In "C" out
    /\ (0 <= indexOf out "B" < indexOf out "C")%Z.
Proof.
  destruct (topologicalSort_respects_edges chainABC ["C"; "A"; "B"])
    as (tb & out & _ & Hout & Hord & _).
  assert (HBC : RequiresWithin chainABC ["C"; "A"; "B"] "B" "C").
  { split; [|simpl; tauto]. exists (requiresEdge "B" "C"). simpl. tauto. }
  assert (Hin : In "B" out /\ In "C" out).
  { assert (E : MathGraph.topologicalSort (build chainABC) ["C"; "A"; "B"]
                = Return ["A"; "B"; "C"]) by reflexivity.
    rewrite E in Hout. injection Hout as <-. simpl. tauto. }
  exists out. split; [exact Hout|]. split; [exact HBC|].
  split; [apply Hin|]. split; [apply Hin|].
  apply (Hord "B" "C" HBC); apply Hin.
Defined.

Lemma detectCycles_empty_iff_witness :
  exists cycles,
    MathGraph.detectCycles (build cycleAB) = Return cycles
    /\ Cyclic (Requires cycleAB)
    /\ cycles <> [].
Proof.
  destruct (detectCycles_empty_iff cycleAB) as (cycles & Hrun & _ & Hiff).
  assert (Hcyclic : Cyclic (Requires cycleAB)).
  { exists "A". apply t_trans with "B"; apply t_step.
    - exists (requiresEdge "A" "B"). simpl. tauto.
    - exists (requiresEdge "B" "A"). simpl. tauto. }
  exists cycles. split; [exact Hrun|]. split; [exact Hcyclic|].
  intros Hempty. apply Hiff in Hempty; [now apply Hempty|].
  intros e [<-|[<-|[]]] _; simpl; tauto.
Defined.

Lemma identifyCriticalPath_termination_witness :
  cycleBehind cycleAB "A"
  /\ (forall k, waveAt (build cycleAB) k ["A"] <> [])
  /\ forall fuel,
       StudyPlanner.identifyCriticalPath fuel
         {| StudyPlanner.graph := build cycleAB;
            StudyPlanner.diagnosticsEngine := DiagnosticsEngine.new |} ["A"]
       = OutOfFuel.
Proof.
  assert (Hcycle : cycleBehind cycleAB "A").
  { exists "A". split; [apply rt_refl|].
    apply t_trans with "B"; apply t_step.
    - exists (requiresEdge "A" "B"). simpl. tauto.
    - exists (requiresEdge "B" "A"). simpl. tauto. }
  split; [exact Hcycle|].
  apply (proj2 (identifyCriticalPath_termination cycleAB DiagnosticsEngine.new
                  ["A"]) "A"); [now left | exact Hcycle].
Defined.

(** * Further properties *)

(** ** The adjacency indexes and the node table *)

(** X1.  After any sequence of [addNode] and [addEdge] calls,
    [getOutgoingEdges(a)] is the list of the edges added with [from = a], and
    [getIncomingEdges(a)] the list of those added with [to = a], both in the
    order of the calls and with every repetition kept; [addNode] never changes
    them, and an ID that no edge mentions gets the empty list. *)
Theorem adjacency_lists (ops : list Op) (a : string) :
  MathGraph.getOutgoingEdges (build ops) a
  = filter (fun e => String.eqb (GraphEdge.from e) a) (edgesOf ops)
  /\ MathGraph.getIncomingEdges (build ops) a
     = filter (fun e => String.eqb (GraphEdge.to e) a) (edgesOf ops).
Proof.
  split; [apply getOutgoingEdges_build | apply getIncomingEdges_build].
Qed.

Lemma count_occ_map_filter {A : Type} (f : A -> string) (l : list A) (x : string) :
  count_occ string_dec (map f l) x
  = length (filter (fun e => String.eqb (f e) x) l).
Proof.
  induction l as [|e l IH]; simpl; [reflexivity|].
  destruct (string_dec (f e) x) as [->|Hne].
  - rewrite String.eqb_refl. simpl. now rewrite IH.
  - apply String.eqb_neq in Hne. now rewrite Hne.
Qed.

Lemma filter_filter_and {A : Type} (f g : A -> bool) (l : list A) :
  filter f (filter g l) = filter (fun x => g x && f x) l.
Proof.
  induction l as [|x l IH]; simpl; [reflexivity|].
  destruct (g x); simpl; [|exact IH].
  destruct (f x); now rewrite IH.
Qed.

Lemma count_getPrerequisites ops a b :
  count_occ string_dec (MathGraph.getPrerequisites (build ops) b) a
  = length (requiresEdges ops a b).
Proof.
  unfold MathGraph.getPrerequisites, requiresEdges.
  rewrite count_occ_map_filter, getIncomingEdges_build, !filter_filter_and.
  f_equal. apply filter_ext. intros e.
  destruct (String.eqb (GraphEdge.to e) b), (isREQUIRES (GraphEdge.type e)),
    (String.eqb (GraphEdge.from e) a); reflexivity.
Qed.

Lemma count_getDependents ops a b :
  count_occ string_dec (MathGraph.getDependents (build ops) a) b
  = length (requiresEdges ops a b).
Proof.
  unfold MathGraph.getDependents, requiresEdges.
  rewrite count_occ_map_filter, getOutgoingEdges_build, !filter_filter_and.
  f_equal. apply filter_ext. intros e.
  destruct (String.eqb (GraphEdge.to e) b), (isREQUIRES (GraphEdge.type e)),
    (String.eqb (GraphEdge.from e) a); reflexivity.
Qed.

(** X2.  The forward and the reverse index agree, repetitions included: [a]
    occurs among [getPrerequisites(b)] as often as [b] occurs among
    [getDependents(a)], namely once per REQUIRES edge [a -> b] that was added
    (an edge added twice counts twice); edges of the other types count for
    neither. *)
Theorem prerequisites_dependents_agree (ops : list Op) (a b : string) :
  count_occ string_dec (MathGraph.getPrerequisites (build ops) b) a
  = length (requiresEdges ops a b)
  /\ count_occ string_dec (MathGraph.getDependents (build ops) a) b
     = length (requiresEdges ops a b)
  /\ (In a (MathGraph.getPrerequisites (build ops) b)
      <-> In b (MathGraph.getDependents (build ops) a)).
Proof.
  split; [apply count_getPrerequisites|]. split; [apply count_getDependents|].
  now rewrite In_getPrerequisites, In_getDependents.
Qed.

Lemma getNode_build ops i :
  MathGraph.getNode (build ops) i = lastNodeWith ops i.
Proof.
  unfold MathGraph.getNode, lastNodeWith.
  induction ops as [|op ops IH] using rev_ind; [reflexivity|].
  rewrite build_snoc, nodesOf_snoc. destruct op as [n|e]; simpl.
  - rewrite rev_app_distr. simpl. rewrite get_set.
    destruct (String.eqb (MathNode.id n) i); [reflexivity | exact IH].
  - now rewrite app_nil_r.
Qed.

(** X3.  [addNode] inserts or replaces by ID: [getNode(i)] is the record
    that was added last under the ID [i], whatever edges were added in
    between, it carries that ID, and it is [undefined] exactly when no record
    was added under [i]. *)
Theorem getNode_latest (ops : list Op) (i : string) :
  MathGraph.getNode (build ops) i = lastNodeWith ops i
  /\ (forall n, MathGraph.getNode (build ops) i = Some n -> MathNode.id n = i)
  /\ (MathGraph.getNode (build ops) i = None <-> ~ In i (nodeIdsOf ops)).
Proof.
  split; [apply getNode_build|]. split.
  - intros n H. apply get_Some_In in H. now apply (nodes_build_id ops).
  - unfold MathGraph.getNode. rewrite get_None. now rewrite keys_nodes_build.
Qed.

(** ** [getSubgraph] *)

Lemma getSubgraph_build g nodeIds :
  MathGraph.getSubgraph g nodeIds = build (subOps g nodeIds).
Proof.
  unfold subOps.
  change (MathGraph.getSubgraph g nodeIds
          = build (map AddNode (Snapshot.nodes
                                  {| Snapshot.nodes := subNodes g nodeIds;
                                     Snapshot.edges := subEdges g nodeIds |})
                   ++ map AddEdge (Snapshot.edges
                                     {| Snapshot.nodes := subNodes g nodeIds;
                                        Snapshot.edges := subEdges g nodeIds |}))).
  rewrite <- fromSnapshot_build.
  unfold MathGraph.getSubgraph, fromSnapshot, subNodes, subEdges, keptEdges. simpl.
  generalize (JSSet.ofList nodeIds) as nodeSet. intros nodeSet.
  assert (Hn : forall ids s,
             fold_left
               (fun sub id =>
                  match MathGraph.getNode g id with
                  | Some node => MathGraph.addNode sub node
                  | None => sub
                  end) ids s
             = fold_left MathGraph.addNode
                 (flat_map (fun id => match MathGraph.getNode g id with
                                      | Some node => [node]
                                      | None => []
                                      end) ids) s).
  { induction ids as [|id ids IH]; intros s; simpl; [reflexivity|].
    rewrite fold_left_app, IH. destruct (MathGraph.getNode g id); reflexivity. }
  assert (He : forall l s,
             fold_left
               (fun sub edge =>
                  if JSSet.has nodeSet (GraphEdge.to edge)
                  then MathGraph.addEdge sub edge else sub) l s
             = fold_left MathGraph.addEdge
                 (filter (fun edge => JSSet.has nodeSet (GraphEdge.to edge)) l) s).
  { induction l as [|e l IH]; intros s; simpl; [reflexivity|].
    destruct (JSSet.has nodeSet (GraphEdge.to e)); simpl; apply IH. }
  rewrite Hn. generalize (fold_left MathGraph.addNode
                 (flat_map (fun id => match MathGraph.getNode g id with
                                      | Some node => [node]
                                      | None => []
                                      end) nodeIds) MathGraph.new) as s.
  induction nodeIds as [|id ids IH]; intros s; simpl; [reflexivity|].
  now rewrite fold_left_app, He, IH.
Qed.

Lemma from_getOutgoingEdges ops a e :
  In e (MathGraph.getOutgoingEdges (build ops) a) -> GraphEdge.from e = a.
Proof.
  rewrite getOutgoingEdges_build, filter_In. intros [_ H].
  now apply String.eqb_eq.
Qed.

Lemma filter_from_keptEdges ops nodeIds id a :
  filter (fun e => String.eqb (GraphEdge.from e) a) (keptEdges (build ops) nodeIds id)
  = if String.eqb id a then keptEdges (build ops) nodeIds a else [].
Proof.
  destruct (String.eqb id a) eqn:E.
  - apply String.eqb_eq in E. subst id.
    apply forallb_filter_id. apply forallb_forall. intros e He.
    apply filter_In in He. apply String.eqb_eq.
    now apply (from_getOutgoingEdges ops).
  - assert (H : forall l, (forall e, In e l -> GraphEdge.from e = id) ->
                  filter (fun e => String.eqb (GraphEdge.from e) a) l = []).
    { induction l as [|e l IH]; intros Hl; simpl; [reflexivity|].
      rewrite (Hl e) by now left. rewrite E. apply IH. intros; apply Hl; now right. }
    apply H. intros e He. apply filter_In in He.
    now apply (from_getOutgoingEdges ops).
Qed.

Lemma getOutgoingEdges_getSubgraph ops nodeIds a :
  MathGraph.getOutgoingEdges (MathGraph.getSubgraph (build ops) nodeIds) a
  = concat (repeat (keptEdges (build ops) nodeIds a)
              (count_occ string_dec nodeIds a)).
Proof.
  rewrite getSubgraph_build, getOutgoingEdges_build. unfold subOps.
  rewrite edgesOf_rebuild. unfold subEdges.
  generalize nodeIds at 2 4 as ids.
  induction ids as [|id ids IH]; simpl; [reflexivity|].
  rewrite filter_app, IH, filter_from_keptEdges.
  destruct (string_dec id a) as [->|Hne].
  - now rewrite String.eqb_refl.
  - apply String.eqb_neq in Hne. now rewrite Hne.
Qed.

Lemma getNode_getSubgraph ops nodeIds i :
  MathGraph.getNode (MathGraph.getSubgraph (build ops) nodeIds) i
  = if includes nodeIds i then MathGraph.getNode (build ops) i else None.
Proof.
  rewrite getSubgraph_build, getNode_build. unfold lastNodeWith, subOps.
  rewrite nodesOf_rebuild. unfold subNodes.
  induction nodeIds as [|x ids IH] using rev_ind; [reflexivity|].
  rewrite flat_map_app, rev_app_distr. simpl. rewrite app_nil_r.
  assert (Hinc : includes (ids ++ [x]) i = String.eqb x i || includes ids i).
  { destruct (String.eqb x i) eqn:E; simpl.
    - apply includes_In, in_or_app. right. left. now apply String.eqb_eq.
    - apply String.eqb_neq in E. destruct (includes ids i) eqn:Ei.
      + apply includes_In, in_or_app. left. now apply includes_In.
      + apply has_false. apply has_false in Ei. rewrite in_app_iff. simpl.
        tauto. }
  rewrite Hinc.
  destruct (MathGraph.getNode (build ops) x) as [n|] eqn:Ex; simpl.
  - assert (Hid : MathNode.id n = x).
    { apply get_Some_In in Ex. now apply (nodes_build_id ops). }
    rewrite Hid. destruct (String.eqb x i) eqn:E; simpl; [|exact IH].
    apply String.eqb_eq in E. now subst.
  - rewrite IH. destruct (String.eqb x i) eqn:E; simpl; [|reflexivity].
    apply String.eqb_eq in E. subst. rewrite Ex.
    now destruct (includes ids i).
Qed.

Lemma In_keptEdges ops nodeIds a e :
  In e (keptEdges (build ops) nodeIds a)
  <-> In e (edgesOf ops) /\ GraphEdge.from e = a /\ In (GraphEdge.to e) nodeIds.
Proof.
  unfold keptEdges. rewrite filter_In, getOutgoingEdges_build, filter_In.
  rewrite has_In, In_ofList, String.eqb_eq. tauto.
Qed.

Lemma In_concat_repeat {A : Type} (l : list A) n x :
  In x (concat (repeat l n)) <-> 0 < n /\ In x l.
Proof.
  induction n as [|n IH]; simpl.
  - split; [intros [] | intros [H _]; inversion H].
  - rewrite in_app_iff, IH. split; [|tauto].
    intros [H|[_ H]]; split; auto; apply Nat.lt_0_succ.
Qed.

Lemma In_edges_getSubgraph ops nodeIds e :
  In e (edgesOf (subOps (build ops) nodeIds))
  <-> In e (edgesOf ops)
      /\ In (GraphEdge.from e) nodeIds /\ In (GraphEdge.to e) nodeIds.
Proof.
  unfold subOps. rewrite edgesOf_rebuild. unfold subEdges.
  rewrite in_flat_map. split.
  - intros (id & Hid & He). apply In_keptEdges in He.
    destruct He as (He & Hf & Ht). subst id. auto.
  - intros (He & Hf & Ht). exists (GraphEdge.from e). split; [exact Hf|].
    apply In_keptEdges. auto.
Qed.

Lemma Requires_getSubgraph ops nodeIds a b :
  Requires (subOps (build ops) nodeIds) a b <-> RequiresWithin ops nodeIds a b.
Proof.
  unfold RequiresWithin, Requires. split.
  - intros (e & He & Ht & <- & <-). apply In_edges_getSubgraph in He.
    destruct He as (He & Hf & Hto). split; [|auto]. now exists e.
  - intros ((e & He & Ht & <- & <-) & Ha & Hb). exists e.
    rewrite In_edges_getSubgraph. auto.
Qed.

(** X4.  [getSubgraph(nodeIds)] is the subgraph induced by the IDs: it has
    the record of an ID exactly when the ID is listed and the graph has one;
    its outgoing list of [a] is the graph's, restricted to the edges (of any
    type) that end at a listed ID, once for each time [a] is listed, so that an
    ID listed twice gets each of its edges twice; and [a] is a prerequisite of
    [b] in it exactly when the graph has a REQUIRES edge [a -> b] with both
    ends listed. *)
Theorem getSubgraph_induced (ops : list Op) (nodeIds : list string) :
  let g := build ops in
  let sub := MathGraph.getSubgraph g nodeIds in
  (forall i, MathGraph.getNode sub i
             = if includes nodeIds i then MathGraph.getNode g i else None)
  /\ (forall a, MathGraph.getOutgoingEdges sub a
                = concat (repeat
                            (filter (fun e => includes nodeIds (GraphEdge.to e))
                               (MathGraph.getOutgoingEdges g a))
                            (count_occ string_dec nodeIds a)))
  /\ (forall a b, In a (MathGraph.getPrerequisites sub b)
                  <-> RequiresWithin ops nodeIds a b)
  /\ (forall a b, In b (MathGraph.getDependents sub a)
                  <-> RequiresWithin ops nodeIds a b).
Proof.
  cbv zeta. split; [apply getNode_getSubgraph|]. split; [|split].
  - intros a. rewrite getOutgoingEdges_getSubgraph. f_equal. f_equal.
    unfold keptEdges. apply filter_ext_in. intros e _.
    unfold includes. destruct (JSSet.has nodeIds (GraphEdge.to e)) eqn:E.
    + apply has_In, In_ofList. now apply has_In.
    + apply has_false. rewrite In_ofList. now apply has_false.
  - intros a b. rewrite getSubgraph_build, In_getPrerequisites.
    apply Requires_getSubgraph.
  - intros a b. rewrite getSubgraph_build, In_getDependents.
    apply Requires_getSubgraph.
Qed.

(** ** What [topologicalSort] returns *)

Lemma some_not_in (out l : list string) :
  ~ (forall u, In u l -> In u out) -> exists u, In u l /\ ~ In u out.
Proof.
  induction l as [|x l IH]; intros H.
  - exfalso. apply H. intros u [].
  - destruct (in_dec string_dec x out) as [Hx|Hx].
    + destruct IH as (u & Hu & Hn).
      { intros Hall. apply H. intros u [<-|Hu]; auto. }
      exists u. split; [now right | exact Hn].
    + exists x. split; [now left | exact Hx].
Qed.

(** An ID of the subset that is left out has, for every length, a walk of
    that length into it that starts at an ID left out. *)
Lemma omitted_walks ops S out :
  (forall v, In v S ->
     (forall u, In u (MathGraph.prereqsWithin (build ops) S v) -> In u out) ->
     In v out) ->
  forall v, In v S -> ~ In v out ->
  forall k, exists x,
    StepsTo (RequiresWithin ops S) k x v /\ In x S /\ ~ In x out.
Proof.
  intros Hfull v Hv Hn k. induction k as [|k (x & Hw & Hx & Hxn)].
  - exists v. split; [constructor | auto].
  - destruct (some_not_in out (MathGraph.prereqsWithin (build ops) S x))
      as (u & Hu & Hun).
    { intros Hall. apply Hxn. now apply Hfull. }
    apply (In_prereqsWithin_build ops S u x Hx) in Hu.
    exists u. split; [|split].
    + now apply StepsTo_cons with (y := x).
    + now apply RequiresWithin_left in Hu.
    + exact Hun.
Qed.

Lemma Reaches_RequiresWithin ops S z v :
  In v S -> Reaches (RequiresWithin ops S) z v -> In z S.
Proof.
  intros Hv H. apply Reaches_or_Path in H. destruct H as [->|H]; [exact Hv|].
  now apply Path_RequiresWithin_left in H.
Qed.

Lemma topologicalSort_members ops S :
  exists out,
    MathGraph.topologicalSort (build ops) S = Return out
    /\ NoDup out
    /\ topologicalOn ops S out
    /\ forall v,
         In v out
         <-> In v S
             /\ ~ exists c, Path (RequiresWithin ops S) c c
                            /\ Reaches (RequiresWithin ops S) c v.
Proof.
  destruct (topologicalSort_spec (build ops) S)
    as (out & Hout & ND & Hincl & Hord & Hfull).
  exists out. split; [exact Hout|]. split; [exact ND|]. split.
  { intros a b Hab Ha Hb.
    apply (path_before ops S out Hord Hincl a b); [|exact Hb].
    now apply t_step. }
  intros v. split.
  - intros Hv. split; [now apply Hincl|]. intros (c & Hc & Hcv).
    assert (Hcin : In c out).
    { apply Reaches_or_Path in Hcv. destruct Hcv as [->|Hcv]; [exact Hv|].
      now apply (path_before ops S out Hord Hincl c v). }
    destruct (path_before ops S out Hord Hincl c c Hc Hcin) as [_ Hlt].
    apply (Z.lt_irrefl _ Hlt).
  - intros [Hv Hfree].
    destruct (in_dec string_dec v out) as [Hin|Hn]; [exact Hin|]. exfalso.
    destruct (omitted_walks ops S out Hfull v Hv Hn (length (JSSet.ofList S)))
      as (x & Hw & _).
    destruct (walk_nodes (RequiresWithin ops S) (length (JSSet.ofList S)) x v) as (l & NDl & Hlen & Hl).
    { intros c Hc Hcc. apply Hfree. now exists c. }
    { exact Hw. }
    assert (Hle : length l <= length (JSSet.ofList S)).
    { apply NoDup_incl_length; [exact NDl|]. intros z Hz.
      apply In_ofList. apply (Reaches_RequiresWithin ops S z v Hv).
      now apply Hl. }
    rewrite Hlen in Hle. exact (Nat.nle_succ_diag_l _ Hle).
Qed.

(** X5.  [topologicalSort(S)] returns a duplicate-free list, ordered along the
    REQUIRES edges between members of [S], that holds exactly the IDs of [S]
    which are neither on a cycle of the subgraph induced by [S] nor reached
    from one inside it: nothing else is dropped, and IDs without a node record
    are sorted like any other. *)
Theorem topologicalSort_exact (ops : list Op) (S : list string) :
  exists out,
    MathGraph.topologicalSort (build ops) S = Return out
    /\ NoDup out
    /\ topologicalOn ops S out
    /\ forall v,
         In v out
         <-> In v S
             /\ ~ exists c, Path (RequiresWithin ops S) c c
                            /\ Reaches (RequiresWithin ops S) c v.
Proof. exact (topologicalSort_members ops S). Qed.

(** X6.  [topologicalSort] decides acyclicity: the result holds every ID of
    [S], and is then a rearrangement of the distinct IDs of [S], exactly when
    the REQUIRES subgraph induced by [S] has no cycle. *)
Theorem topologicalSort_complete_iff_acyclic (ops : list Op) (S : list string) :
  exists out,
    MathGraph.topologicalSort (build ops) S = Return out
    /\ ((forall v, In v S -> In v out) <-> ~ Cyclic (RequiresWithin ops S))
    /\ (Permutation out (JSSet.ofList S) <-> ~ Cyclic (RequiresWithin ops S)).
Proof.
  destruct (topologicalSort_members ops S) as (out & Hout & ND & _ & Hmem).
  exists out. split; [exact Hout|].
  assert (Hall : (forall v, In v S -> In v out) <-> ~ Cyclic (RequiresWithin ops S)).
  { split.
    - intros Hcover [c Hc].
      assert (Hin : In c out).
      { apply Hcover. now apply Path_RequiresWithin_left in Hc. }
      apply Hmem in Hin. destruct Hin as [_ Hfree]. apply Hfree.
      exists c. split; [exact Hc | apply rt_refl].
    - intros Hacyclic v Hv. apply Hmem. split; [exact Hv|].
      intros (c & Hc & _). apply Hacyclic. now exists c. }
  split; [exact Hall|]. rewrite <- Hall. split.
  - intros HP v Hv. apply (Permutation_in v (Permutation_sym HP)).
    now apply In_ofList.
  - intros Hcover. apply NoDup_Permutation; [exact ND | apply NoDup_ofList|].
    intros v. rewrite In_ofList. split; [|apply Hcover].
    intros Hv. now apply Hmem in Hv.
Qed.

Lemma drain_without_edges (graph : JSMap.t (list string)) :
  forall queue fuel inDegree result,
    (forall c, In c queue -> JSMap.get graph c = Some []) ->
    length queue <= fuel ->
    MathGraph.drain graph fuel inDegree queue result = Return (result ++ queue).
Proof.
  induction queue as [|c rest IH]; intros fuel inDegree result Hq Hf.
  - destruct fuel; simpl; now rewrite app_nil_r.
  - destruct fuel as [|fuel]; [inversion Hf|]. simpl.
    rewrite (Hq c) by now left. simpl.
    rewrite IH; [now rewrite <- app_assoc | | now apply le_S_n].
    intros c' Hc'. apply Hq. now right.
Qed.

Lemma seeds_all_zero (inDegree : JSMap.t number) :
  (forall k n, In (k, n) inDegree -> n = Num 0) ->
  MathGraph.seeds inDegree = JSMap.keys inDegree.
Proof.
  unfold MathGraph.seeds, JSMap.keys.
  induction inDegree as [|[k n] m IH]; intros H; simpl; [reflexivity|].
  rewrite (H k n) by now left. simpl. f_equal. apply IH.
  intros k' n' Hin. apply (H k'). now right.
Qed.

Lemma topologicalSort_without_edges ops S :
  (forall a b, ~ RequiresWithin ops S a b) ->
  MathGraph.topologicalSort (build ops) S = Return (JSSet.ofList S).
Proof.
  intros Hfree.
  assert (Hnone : forall v, In v S -> MathGraph.prereqsWithin (build ops) S v = []).
  { intros v Hv. destruct (MathGraph.prereqsWithin (build ops) S v) as [|u l] eqn:E;
      [reflexivity|]. exfalso. apply (Hfree u v).
    apply (In_prereqsWithin_build ops S u v Hv). rewrite E. now left. }
  destruct (topologicalSort_tables (build ops) S)
    as ([inDegree graph] & Htb & Hk1 & Hk2 & Hadj & Hdeg).
  simpl in Hk1, Hk2, Hadj, Hdeg.
  unfold MathGraph.topologicalSort. rewrite Htb. cbn [bind fst snd].
  assert (Hseeds : MathGraph.seeds inDegree = JSSet.ofList S).
  { rewrite seeds_all_zero; [exact Hk1|]. intros k n Hin.
    assert (Hk : In k S).
    { apply In_ofList. rewrite <- Hk1. unfold JSMap.keys.
      now apply (in_map fst) in Hin. }
    apply In_get_Some in Hin; [|rewrite Hk1; apply NoDup_ofList].
    rewrite (Hdeg k Hk), (Hnone k Hk) in Hin. simpl in Hin.
    rewrite Nat.mul_0_r in Hin. now injection Hin as <-. }
  rewrite Hseeds.
  apply (drain_without_edges graph (JSSet.ofList S) (length S) inDegree []).
  - intros c Hc.
    assert (Hl : listAt graph c = []).
    { rewrite Hadj.
      assert (H : forall l, incl l S ->
                    flat_map
                      (fun id => repeat id
                                   (count_occ string_dec
                                      (MathGraph.prereqsWithin (build ops) S id) c))
                      l = []).
      { induction l as [|x l IH]; intros Hl; simpl; [reflexivity|].
        rewrite (Hnone x) by (apply Hl; now left). simpl.
        apply IH. intros y Hy. apply Hl. now right. }
      apply H, incl_refl. }
    unfold listAt in Hl. destruct (JSMap.get graph c) as [l|] eqn:E;
      [now subst|].
    exfalso. apply get_None in E. apply E. now rewrite Hk2.
  - apply length_ofList.
Qed.

(** X7.  When no REQUIRES edge joins two listed IDs, [topologicalSort]
    returns the distinct listed IDs in the order of their first occurrence in
    the argument, the empty list for the empty list: ties are broken by
    position, and prerequisites outside the list impose no order. *)
Theorem topologicalSort_unrelated (ops : list Op) (S : list string) :
  (forall a b, ~ RequiresWithin ops S a b) ->
  MathGraph.topologicalSort (build ops) S = Return (JSSet.ofList S).
Proof. exact (topologicalSort_without_edges ops S). Qed.

(** C requires B and B requires A, yet with B left out of the list C stays
    in front of A. *)
Lemma topologicalSort_unrelated_witness :
  (forall a b, ~ RequiresWithin chainABC ["C"; "A"; "C"] a b)
  /\ MathGraph.topologicalSort (build chainABC) ["C"; "A"; "C"]
     = Return ["C"; "A"].
Proof.
  assert (H : forall a b, ~ RequiresWithin chainABC ["C"; "A"; "C"] a b).
  { intros a b ((e & He & _ & <- & <-) & Ha & Hb). simpl in He.
    destruct He as [<-|[<-|[]]]; simpl in Ha, Hb;
      repeat (destruct Ha as [Ha|Ha]; try discriminate Ha);
      repeat (destruct Hb as [Hb|Hb]; try discriminate Hb); assumption. }
  split; [exact H|].
  exact (topologicalSort_unrelated chainABC ["C"; "A"; "C"] H).
Defined.

(** ** [detectCycles]: what is reported is a cycle *)

Lemma forOf_invariant {A S : Type} (body : S -> A -> outcome S) (J : S -> Prop)
  (xs : list A) :
  (forall s x s', In x xs -> J s -> body s x = Return s' -> J s') ->
  forall s s', J s -> forOf body xs s = Return s' -> J s'.
Proof.
  induction xs as [|x xs IH]; intros Hbody s s' Hs Hrun; simpl in Hrun.
  - now injection Hrun as <-.
  - destruct (body s x) as [s1| |] eqn:E; simpl in Hrun; try discriminate.
    apply (IH (fun s0 x0 s0' H => Hbody s0 x0 s0' (or_intror H)) s1 s');
      [|exact Hrun].
    apply (Hbody s x s1); [now left | exact Hs | exact E].
Qed.

Lemma chain_snoc R path n :
  chain R path ->
  (path = [] \/ R (last path EmptyString) n) ->
  chain R (path ++ [n]).
Proof.
  induction path as [|x [|y rest] IH]; intros Hc Hl.
  - exact I.
  - simpl. destruct Hl as [Hl|Hl]; [discriminate | auto].
  - destruct Hc as [Hxy Hc]. split; [exact Hxy|].
    apply IH; [exact Hc|]. right.
    destruct Hl as [Hl|Hl]; [discriminate | exact Hl].
Qed.

Lemma chain_app_r R l1 l2 : chain R (l1 ++ l2) -> chain R l2.
Proof.
  induction l1 as [|x l1 IH]; [auto|]. intros H. apply IH.
  destruct l1 as [|y l1]; simpl in *.
  - destruct l2; [exact I | apply H].
  - apply H.
Qed.

Lemma last_app_cons (l1 l2 : list string) x d :
  last (l1 ++ x :: l2) d = last (x :: l2) d.
Proof.
  induction l1 as [|y l1 IH]; [reflexivity|].
  change ((y :: l1) ++ x :: l2) with (y :: (l1 ++ x :: l2)).
  destruct (l1 ++ x :: l2) eqn:E; [now destruct l1 | exact IH].
Qed.

(** [path.slice(path.indexOf(x))] is the part of [path] from the first [x]
    on. *)
Lemma slice_indexOf (l : list string) x :
  In x l ->
  exists l1 l2, l = l1 ++ x :: l2 /\ slice l (indexOf l x) = x :: l2.
Proof.
  intros Hin.
  assert (H : exists l1 l2, l = l1 ++ x :: l2
                            /\ indexOf l x = Z.of_nat (length l1)).
  { induction l as [|y l IH]; [destruct Hin|]. simpl.
    destruct (String.eqb y x) eqn:E.
    - apply String.eqb_eq in E. subst y. now exists [], l.
    - destruct IH as (l1 & l2 & Hl & Hi).
      { destruct Hin as [->|Hin]; [|exact Hin].
        now rewrite String.eqb_refl in E. }
      exists (y :: l1), l2. split; [now rewrite Hl|].
      rewrite Hi. destruct (Z.ltb_spec (Z.of_nat (length l1)) 0) as [Hneg|_];
        [lia|]. simpl length. lia. }
  destruct H as (l1 & l2 & Hl & Hi). exists l1, l2. split; [exact Hl|].
  unfold slice. rewrite Hi.
  destruct (Z.ltb_spec (Z.of_nat (length l1)) 0) as [Hneg|_]; [lia|].
  rewrite Nat2Z.id, Hl.
  rewrite skipn_app, Nat.sub_diag, skipn_all. reflexivity.
Qed.

Lemma closedChain_suffix R path n dep :
  NoDup (path ++ [n]) ->
  chain R (path ++ [n]) ->
  R n dep ->
  In dep (path ++ [n]) ->
  closedChain R (slice (path ++ [n]) (indexOf (path ++ [n]) dep)).
Proof.
  intros ND Hc Hedge Hin.
  destruct (slice_indexOf (path ++ [n]) dep Hin) as (l1 & l2 & Hl & Hs).
  rewrite Hs. split; [discriminate|]. split; [|split].
  - rewrite Hl in ND. now apply NoDup_app_remove_l in ND.
  - rewrite Hl in Hc. now apply chain_app_r in Hc.
  - rewrite <- (last_app_cons l1 l2 dep EmptyString), <- Hl, last_last.
    exact Hedge.
Qed.

Section DfsSound.
Variable ops : list Op.

Lemma dfs_reports_cycles fuel :
  forall n path s s',
    MathGraph.dfs (build ops) fuel n path s = Return s' ->
    searchOn (Requires ops) path s ->
    ~ In n (MathGraph.visited s) ->
    (path = [] \/ Requires ops (last path EmptyString) n) ->
    searchOn (Requires ops) path s'.
Proof.
  induction fuel as [|fuel IH]; intros n path s s' Hrun Hs Hn Hlast;
    [discriminate|].
  rewrite dfs_unfold in Hrun.
  destruct Hs as (ND & Hc & Hstack & Hvis & Hcyc).
  assert (Hfresh : ~ In n path) by (intros H; apply Hn; now apply Hvis).
  match type of Hrun with
  | bind (forOf ?body ?xs ?s0) _ = _ =>
      destruct (forOf body xs s0) as [s1| |] eqn:Eloop;
        cbn [bind] in Hrun; try discriminate;
        assert (Hloop : searchOn (Requires ops) (path ++ [n]) s1)
  end.
  { revert Eloop.
    apply (forOf_invariant _ (searchOn (Requires ops) (path ++ [n]))).
    - intros t dep t' Hdep Ht Hstep. unfold dfsStep in Hstep.
      apply In_getDependents in Hdep.
      destruct (JSSet.has (MathGraph.visited t) dep) eqn:Ev;
        cbn [negb] in Hstep; cbv iota in Hstep.
      + destruct (JSSet.has (MathGraph.recursionStack t) dep) eqn:Est.
        * injection Hstep as <-.
          destruct Ht as (ND' & Hc' & Hstack' & Hvis' & Hcyc').
          split; [exact ND'|]. split; [exact Hc'|]. split; [exact Hstack'|].
          split; [exact Hvis'|]. simpl.
          apply Forall_app. split; [exact Hcyc'|]. constructor; [|constructor].
          apply closedChain_suffix; try assumption.
          apply Hstack'. now apply has_In.
        * now injection Hstep as <-.
      + apply (IH dep (path ++ [n]) t t' Hstep Ht).
        * now apply has_false.
        * right. now rewrite last_last.
    - split; [|split; [|split; [|split]]]; simpl.
      + apply NoDup_app; [exact ND | repeat constructor; intros [] |].
        intros a Ha [<-|[]]. now apply Hfresh.
      + now apply chain_snoc.
      + intros a. rewrite In_add, in_app_iff, Hstack. simpl. intuition.
      + intros a Ha. apply In_add. apply in_app_or in Ha.
        destruct Ha as [Ha|[<-|[]]]; [left; now apply Hvis | now right].
      + exact Hcyc. }
  injection Hrun as <-.
  destruct Hloop as (ND1 & Hc1 & Hstack1 & Hvis1 & Hcyc1).
  split; [exact ND|]. split; [exact Hc|]. split; [|split]; simpl.
  - intros a. rewrite In_delete, Hstack1, in_app_iff. simpl. split.
    + intros [[Ha|[<-|[]]] Hne]; [exact Ha | now elim Hne].
    + intros Ha. split; [now left|]. intros <-. now apply Hfresh.
  - intros a Ha. apply Hvis1, in_or_app. now left.
  - exact Hcyc1.
Qed.

Lemma detectCycles_reports_cycles cycles :
  MathGraph.detectCycles (build ops) = Return cycles ->
  Forall (closedChain (Requires ops)) cycles.
Proof.
  unfold MathGraph.detectCycles. intros Hrun.
  match type of Hrun with
  | bind (forOf ?body ?xs ?s0) _ = _ =>
      destruct (forOf body xs s0) as [s1| |] eqn:Eloop;
        cbn [bind] in Hrun; try discriminate;
        assert (Hloop : searchOn (Requires ops) [] s1)
  end.
  { revert Eloop. apply (forOf_invariant _ (searchOn (Requires ops) [])).
    - intros t k t' _ Ht Hstep.
      destruct (JSSet.has (MathGraph.visited t) k) eqn:Ev;
        cbn [negb] in Hstep; cbv iota in Hstep.
      + now injection Hstep as <-.
      + apply (dfs_reports_cycles _ k [] t t' Hstep Ht);
          [now apply has_false | now left].
    - split; [constructor|]. split; [exact I|]. split; [simpl; tauto|].
      split; [intros a []|]. constructor. }
  injection Hrun as <-. apply Hloop.
Qed.

End DfsSound.

Lemma detectCycles_returns ops :
  exists cycles, MathGraph.detectCycles (build ops) = Return cycles.
Proof.
  destruct (roots_loop ops (JSMap.keys (MathGraph.nodes (build ops)))
              {| MathGraph.visited := JSSet.empty;
                 MathGraph.recursionStack := JSSet.empty;
                 MathGraph.cycles := [] |})
    as (s & Hrun & _); [auto | reflexivity|].
  exists (MathGraph.cycles s). unfold MathGraph.detectCycles. now rewrite Hrun.
Qed.

Lemma chain_app_l R l1 l2 : chain R (l1 ++ l2) -> chain R l1.
Proof.
  induction l1 as [|x [|y l1] IH]; intros H; try exact I.
  destruct H as [Hxy H]. split; [exact Hxy | now apply IH].
Qed.

Lemma chain_Reaches R l :
  forall x, chain R (x :: l) -> Reaches R x (last (x :: l) EmptyString).
Proof.
  induction l as [|y l IH]; intros x H; [apply rt_refl|].
  destruct H as [Hxy H]. apply rt_trans with y; [now apply rt_step|].
  now apply IH.
Qed.

Lemma Reaches_step_Reaches R a b c d :
  Reaches R a b -> R b c -> Reaches R c d -> Path R a d.
Proof.
  intros Hab Hbc Hcd.
  assert (Hbd : Path R b d).
  { apply Reaches_or_Path in Hcd. destruct Hcd as [<-|Hcd];
      [now apply t_step | apply t_trans with c; [now apply t_step | exact Hcd]]. }
  apply Reaches_or_Path in Hab. destruct Hab as [->|Hab]; [exact Hbd|].
  now apply t_trans with b.
Qed.

Lemma closedChain_Path R c x : closedChain R c -> In x c -> Path R x x.
Proof.
  intros (_ & _ & Hc & Hclose) Hx.
  destruct (in_split x c Hx) as (l1 & l2 & ->).
  apply Reaches_step_Reaches
    with (b := last (l1 ++ x :: l2) EmptyString)
         (c := hd EmptyString (l1 ++ x :: l2)); [|exact Hclose|].
  - rewrite last_app_cons. apply chain_Reaches. now apply chain_app_r in Hc.
  - destruct l1 as [|y l1]; [apply rt_refl|]. simpl hd.
    assert (Hy : Reaches R y (last (y :: l1 ++ [x]) EmptyString)).
    { apply chain_Reaches. apply (chain_app_l R (y :: l1 ++ [x]) l2).
      now rewrite <- app_comm_cons, <- app_assoc. }
    now rewrite app_comm_cons, last_last in Hy.
Qed.

(** X8.  Every list that [detectCycles()] returns is a cycle of the REQUIRES
    edges: it is not empty, it repeats no ID, each ID has a REQUIRES edge to
    the next one, and the last ID has a REQUIRES edge back to the first, so
    that every ID it names lies on a REQUIRES cycle. *)
Theorem detectCycles_sound (ops : list Op) :
  exists cycles,
    MathGraph.detectCycles (build ops) = Return cycles
    /\ forall c, In c cycles ->
         closedChain (Requires ops) c
         /\ forall x, In x c -> Path (Requires ops) x x.
Proof.
  destruct (detectCycles_returns ops) as [cycles Hrun].
  exists cycles. split; [exact Hrun|]. intros c Hc.
  pose proof (detectCycles_reports_cycles ops cycles Hrun) as Hall.
  rewrite Forall_forall in Hall. split; [now apply Hall|].
  intros x Hx. apply (closedChain_Path _ c); [now apply Hall | exact Hx].
Qed.

(** ** What a graph rebuilt from its snapshot answers *)

Lemma Permutation_filter_keep {A : Type} (f : A -> bool) (l1 l2 : list A) :
  Permutation l1 l2 -> Permutation (filter f l1) (filter f l2).
Proof.
  induction 1 as [|x l1 l2 _ IH|x y l|l1 l2 l3 _ IH1 _ IH2]; simpl.
  - constructor.
  - destruct (f x); [now constructor | exact IH].
  - destruct (f x), (f y); try reflexivity. constructor.
  - now transitivity (filter f l2).
Qed.

(** A map without repeated keys is given by its keys and its lookups. *)
Lemma map_ext {V : Type} (m1 : JSMap.t V) :
  forall m2,
    JSMap.keys m1 = JSMap.keys m2 ->
    NoDup (JSMap.keys m1) ->
    (forall k, In k (JSMap.keys m1) -> JSMap.get m1 k = JSMap.get m2 k) ->
    m1 = m2.
Proof.
  induction m1 as [|[k v] m1 IH]; intros [|[k' v'] m2] Hk ND Hget;
    try discriminate; [reflexivity|].
  simpl in Hk. injection Hk as <- Hk. inversion ND as [|? ? Hfresh ND']; subst.
  assert (Hv : v = v').
  { specialize (Hget k (or_introl eq_refl)). simpl in Hget.
    rewrite String.eqb_refl in Hget. congruence. }
  subst v'. f_equal. apply IH; [exact Hk | exact ND'|].
  intros k0 Hk0. specialize (Hget k0 (or_intror Hk0)). simpl in Hget.
  destruct (String.eqb k k0) eqn:E; [|exact Hget].
  apply String.eqb_eq in E. subst k0. now elim Hfresh.
Qed.

Lemma get_listAt {V : Type} (m : JSMap.t (list V)) k :
  In k (JSMap.keys m) -> JSMap.get m k = Some (listAt m k).
Proof.
  intros Hk. unfold listAt. destruct (JSMap.get m k) eqn:E; [reflexivity|].
  apply get_None in E. now elim E.
Qed.

(** [topologicalSort] uses the graph only through the prerequisites of the
    listed IDs, and not through their order. *)
Lemma topologicalSort_ext g1 g2 S :
  (forall id, Permutation (MathGraph.prereqsWithin g1 S id)
                          (MathGraph.prereqsWithin g2 S id)) ->
  MathGraph.topologicalSort g1 S = MathGraph.topologicalSort g2 S.
Proof.
  intros HP.
  destruct (topologicalSort_tables g1 S)
    as ([d1 a1] & Htb1 & Hk1 & Hka1 & Hadj1 & Hdeg1).
  destruct (topologicalSort_tables g2 S)
    as ([d2 a2] & Htb2 & Hk2 & Hka2 & Hadj2 & Hdeg2).
  simpl in *.
  assert (Hd : d1 = d2).
  { apply map_ext; [congruence | rewrite Hk1; apply NoDup_ofList|].
    intros k Hk. rewrite Hk1, In_ofList in Hk.
    rewrite (Hdeg1 k Hk), (Hdeg2 k Hk).
    now rewrite (Permutation_length (HP k)). }
  assert (Ha : a1 = a2).
  { apply map_ext; [congruence | rewrite Hka1; apply NoDup_ofList|].
    intros k Hk. rewrite (get_listAt a1 k Hk).
    rewrite (get_listAt a2 k) by congruence.
    rewrite Hadj1, Hadj2. f_equal. apply flat_map_ext. intros id.
    f_equal. now apply Permutation_count_occ. }
  unfold MathGraph.topologicalSort. rewrite Htb1, Htb2. cbn [bind fst snd].
  now subst.
Qed.

Lemma forOf_ext {A S : Type} (f g : S -> A -> outcome S) (xs : list A) :
  (forall s x, f s x = g s x) -> forall s, forOf f xs s = forOf g xs s.
Proof.
  intros H. induction xs as [|x xs IH]; intros s; simpl; [reflexivity|].
  rewrite H. destruct (g s x); simpl; auto.
Qed.

(** [dfs] uses the graph only through [getDependents]. *)
Lemma dfs_ext g1 g2 :
  (forall a, MathGraph.getDependents g1 a = MathGraph.getDependents g2 a) ->
  forall fuel n path s,
    MathGraph.dfs g1 fuel n path s = MathGraph.dfs g2 fuel n path s.
Proof.
  intros H. induction fuel as [|fuel IH]; intros n path s; [reflexivity|].
  simpl. rewrite H. f_equal. apply forOf_ext. intros t dep.
  now rewrite IH.
Qed.

Section Rebuilt.
Variable ops : list Op.

Let g := build ops.
Let rebuilt := fromSnapshot (exportSnapshot g).

Lemma nodes_rebuilt : MathGraph.nodes rebuilt = MathGraph.nodes g.
Proof.
  unfold rebuilt. rewrite fromSnapshot_build, nodes_build, nodesOf_rebuild.
  unfold exportSnapshot. simpl.
  apply (refill MathNode.id (MathGraph.nodes g) JSMap.empty).
  - apply NoDup_keys_build.
  - intros k v. apply nodes_build_id.
Qed.

Lemma getIncomingEdges_rebuilt a :
  Permutation (MathGraph.getIncomingEdges rebuilt a)
              (MathGraph.getIncomingEdges g a).
Proof.
  unfold rebuilt, g. rewrite fromSnapshot_build, !getIncomingEdges_build.
  rewrite edgesOf_rebuild. unfold exportSnapshot. simpl.
  apply Permutation_filter_keep, Permutation_edges_build.
Qed.

Lemma getOutgoingEdges_rebuilt a :
  MathGraph.getOutgoingEdges rebuilt a = MathGraph.getOutgoingEdges g a.
Proof.
  unfold rebuilt. rewrite fromSnapshot_build, getOutgoingEdges_build.
  rewrite edgesOf_rebuild. unfold exportSnapshot. simpl.
  rewrite concat_values_listAt by apply NoDup_keys_build.
  change (listAt (MathGraph.edges g)) with (MathGraph.getOutgoingEdges g).
  assert (Hk : forall k,
             filter (fun e => String.eqb (GraphEdge.from e) a)
               (MathGraph.getOutgoingEdges g k)
             = if String.eqb k a then MathGraph.getOutgoingEdges g a else []).
  { intros k. destruct (String.eqb k a) eqn:E.
    - apply String.eqb_eq in E. subst k.
      apply forallb_filter_id, forallb_forall. intros e He.
      apply String.eqb_eq. now apply (from_getOutgoingEdges ops).
    - pose proof (from_getOutgoingEdges ops k) as Hfrom. fold g in Hfrom.
      induction (MathGraph.getOutgoingEdges g k) as [|e l IHl];
        [reflexivity|]. simpl.
      rewrite (Hfrom e) by now left. rewrite E. apply IHl.
      intros e' He'. apply Hfrom. now right. }
  assert (H : forall ks, NoDup ks ->
                filter (fun e => String.eqb (GraphEdge.from e) a)
                  (flat_map (MathGraph.getOutgoingEdges g) ks)
                = if JSSet.has ks a then MathGraph.getOutgoingEdges g a else []).
  { induction ks as [|k ks IH]; intros ND; [reflexivity|].
    inversion ND as [|? ? Hfresh ND']; subst. simpl flat_map.
    rewrite filter_app, (IH ND'), Hk. simpl.
    destruct (String.eqb k a) eqn:E; [|reflexivity].
    apply String.eqb_eq in E. subst k.
    apply has_false in Hfresh. rewrite Hfresh. apply app_nil_r. }
  rewrite H by apply NoDup_keys_build.
  destruct (JSSet.has (JSMap.keys (MathGraph.edges g)) a) eqn:E; [reflexivity|].
  apply has_false in E. apply get_None in E.
  unfold MathGraph.getOutgoingEdges. now rewrite E.
Qed.

Lemma getDependents_rebuilt a :
  MathGraph.getDependents rebuilt a = MathGraph.getDependents g a.
Proof. unfold MathGraph.getDependents. now rewrite getOutgoingEdges_rebuilt. Qed.

Lemma getPrerequisites_rebuilt a :
  Permutation (MathGraph.getPrerequisites rebuilt a)
              (MathGraph.getPrerequisites g a).
Proof.
  unfold MathGraph.getPrerequisites.
  apply Permutation_map, Permutation_filter_keep, getIncomingEdges_rebuilt.
Qed.

Lemma topologicalSort_rebuilt S :
  MathGraph.topologicalSort rebuilt S = MathGraph.topologicalSort g S.
Proof.
  apply topologicalSort_ext. intros id. unfold MathGraph.prereqsWithin.
  apply Permutation_filter_keep, getPrerequisites_rebuilt.
Qed.

Lemma detectCycles_rebuilt :
  MathGraph.detectCycles rebuilt = MathGraph.detectCycles g.
Proof.
  unfold MathGraph.detectCycles. rewrite nodes_rebuilt.
  assert (Hb : MathGraph.depthBound rebuilt = MathGraph.depthBound g).
  { unfold MathGraph.depthBound. rewrite nodes_rebuilt. do 2 f_equal.
    apply Permutation_length.
    transitivity (edgesOf ops); [|symmetry; apply Permutation_edges_build].
    unfold rebuilt. rewrite fromSnapshot_build, Permutation_edges_build.
    rewrite edgesOf_rebuild. unfold exportSnapshot. simpl.
    apply Permutation_edges_build. }
  rewrite Hb. f_equal. apply forOf_ext. intros s k.
  now rewrite (dfs_ext rebuilt g getDependents_rebuilt).
Qed.

Lemma getAllPrerequisites_rebuilt n :
  exists r1 r2,
    MathGraph.getAllPrerequisites rebuilt n = Return r1
    /\ MathGraph.getAllPrerequisites g n = Return r2
    /\ Permutation r1 r2.
Proof.
  unfold rebuilt. rewrite fromSnapshot_build.
  destruct (getAllPrerequisites_paths
              (map AddNode (Snapshot.nodes (exportSnapshot g))
               ++ map AddEdge (Snapshot.edges (exportSnapshot g))) n)
    as (r1 & H1 & ND1 & _ & Hin1).
  destruct (getAllPrerequisites_paths ops n) as (r2 & H2 & ND2 & _ & Hin2).
  exists r1, r2. split; [exact H1|]. split; [exact H2|].
  apply NoDup_Permutation; [exact ND1 | exact ND2|].
  intros u. rewrite Hin1, Hin2.
  assert (HR : forall a b,
             Requires (map AddNode (Snapshot.nodes (exportSnapshot g))
                       ++ map AddEdge (Snapshot.edges (exportSnapshot g))) a b
             <-> Requires ops a b).
  { intros a b. rewrite <- !In_getPrerequisites, <- fromSnapshot_build.
    fold rebuilt. split; apply Permutation_in;
      [|symmetry]; apply getPrerequisites_rebuilt. }
  split; intros [Hne HP]; (split; [exact Hne|]);
    revert HP; apply Path_ext; intros a b; apply HR.
Qed.

End Rebuilt.

(** X9.  A graph rebuilt from its own snapshot answers like the graph it
    came from: the node table is the same, [getOutgoingEdges] and
    [getDependents] return the same lists, [getIncomingEdges] and
    [getPrerequisites] the same entries in a possibly different order, and
    [topologicalSort] and [detectCycles] the same results; the collections of
    [getAllPrerequisites] have the same members. *)
Theorem rebuilt_graph_answers_alike (ops : list Op) :
  let g := build ops in
  let rebuilt := fromSnapshot (exportSnapshot g) in
  MathGraph.nodes rebuilt = MathGraph.nodes g
  /\ (forall a, MathGraph.getOutgoingEdges rebuilt a = MathGraph.getOutgoingEdges g a)
  /\ (forall a, MathGraph.getDependents rebuilt a = MathGraph.getDependents g a)
  /\ (forall a, Permutation (MathGraph.getIncomingEdges rebuilt a)
                            (MathGraph.getIncomingEdges g a))
  /\ (forall a, Permutation (MathGraph.getPrerequisites rebuilt a)
                            (MathGraph.getPrerequisites g a))
  /\ (forall S, MathGraph.topologicalSort rebuilt S = MathGraph.topologicalSort g S)
  /\ MathGraph.detectCycles rebuilt = MathGraph.detectCycles g
  /\ (forall n, exists r1 r2,
        MathGraph.getAllPrerequisites rebuilt n = Return r1
        /\ MathGraph.getAllPrerequisites g n = Return r2
        /\ Permutation r1 r2).
Proof.
  cbv zeta. split; [apply nodes_rebuilt|]. split; [apply getOutgoingEdges_rebuilt|].
  split; [apply getDependents_rebuilt|]. split; [apply getIncomingEdges_rebuilt|].
  split; [apply getPrerequisites_rebuilt|]. split; [apply topologicalSort_rebuilt|].
  split; [apply detectCycles_rebuilt | apply getAllPrerequisites_rebuilt].
Qed.

(** ** [getAllPrerequisites]: steps and composition *)

Lemma Path_into ops w :
  (forall a, In a (MathGraph.getPrerequisites (build ops) w) -> a = w) ->
  forall u z, Path (Requires ops) u z -> z = w -> u = w.
Proof.
  intros Hself u z HP. apply clos_trans_t1n in HP.
  induction HP as [u z H|u y z H _ IH]; intros ->.
  - apply Hself. now apply In_getPrerequisites.
  - specialize (IH eq_refl). subst y. apply Hself. now apply In_getPrerequisites.
Qed.

(** X10.  [getAllPrerequisites(w)] holds every direct prerequisite of [w]
    other than [w]; with a member [v] it holds all of
    [getAllPrerequisites(v)] except [w] itself; and it is empty exactly when
    [w] has no prerequisite other than itself, as for an ID the graph has
    never seen. *)
Theorem getAllPrerequisites_composes (ops : list Op) (v w : string) :
  exists rv rw,
    MathGraph.getAllPrerequisites (build ops) v = Return rv
    /\ MathGraph.getAllPrerequisites (build ops) w = Return rw
    /\ (forall u, In u (MathGraph.getPrerequisites (build ops) w) ->
          u = w \/ In u rw)
    /\ (In v rw -> forall u, In u rv -> u = w \/ In u rw)
    /\ (rw = []
        <-> forall a, In a (MathGraph.getPrerequisites (build ops) w) -> a = w).
Proof.
  destruct (getAllPrerequisites_paths ops v) as (rv & Hv & _ & _ & Hinv).
  destruct (getAllPrerequisites_paths ops w) as (rw & Hw & _ & _ & Hinw).
  exists rv, rw. split; [exact Hv|]. split; [exact Hw|]. split; [|split].
  - intros u Hu. destruct (string_dec u w) as [->|Hne]; [now left|].
    right. apply Hinw. split; [exact Hne|].
    apply t_step. now apply In_getPrerequisites.
  - intros Hvw u Hu. destruct (string_dec u w) as [->|Hne]; [now left|].
    right. apply Hinw. split; [exact Hne|].
    apply Hinw in Hvw. apply Hinv in Hu.
    apply t_trans with v; [apply Hu | apply Hvw].
  - split.
    + intros -> a Ha. destruct (string_dec a w) as [->|Hne]; [reflexivity|].
      exfalso. apply (proj2 (Hinw a)). split; [exact Hne|].
      apply t_step. now apply In_getPrerequisites.
    + intros Hself. destruct rw as [|u rw]; [reflexivity|]. exfalso.
      destruct (proj1 (Hinw u) (or_introl eq_refl)) as [Hne HP].
      apply Hne. now apply (Path_into ops w Hself u w).
Qed.

(** ** Recorded progress *)

Lemma getProgress_updateProgress eng u c upd now u' c' :
  DiagnosticsEngine.getProgress
    (DiagnosticsEngine.updateProgress eng u c upd now) u' c'
  = if String.eqb u u'
    then if String.eqb c c'
         then DiagnosticsEngine.getProgress
                (DiagnosticsEngine.updateProgress eng u c upd now) u c
         else DiagnosticsEngine.getProgress eng u' c'
    else DiagnosticsEngine.getProgress eng u' c'.
Proof.
  unfold DiagnosticsEngine.getProgress, DiagnosticsEngine.updateProgress. simpl.
  rewrite !get_set, String.eqb_refl.
  destruct (String.eqb u u') eqn:Eu; [|reflexivity].
  apply String.eqb_eq in Eu. subst u'. rewrite !get_set, String.eqb_refl.
  destruct (String.eqb c c') eqn:Ec; [reflexivity|].
  unfold DiagnosticsEngine.userMap, orElse.
  destruct (JSMap.get (DiagnosticsEngine.progress eng) u); reflexivity.
Qed.

(** X11.  [updateProgress(u, c, update)] files a record under [(u, c)] that
    carries the user and concept of the call (whatever [update] says about
    them), the confidence of [update] when it has one and the confidence
    reported before otherwise, and the review time of [update] or the current
    time; the record of every other user or concept is left as it was. *)
Theorem updateProgress_lookup (eng : DiagnosticsEngine.t) (u c : string)
  (update : PartialProgress.t) (now : Q) :
  let eng' := DiagnosticsEngine.updateProgress eng u c update now in
  (exists p,
      DiagnosticsEngine.getProgress eng' u c = Some p
      /\ ConceptProgress.user_id p = u
      /\ ConceptProgress.concept_id p = c
      /\ ConceptProgress.confidence p
         = orElse (PartialProgress.confidence update)
             (DiagnosticsEngine.getConfidence eng u c)
      /\ ConceptProgress.last_reviewed p
         = orElse (PartialProgress.last_reviewed update) now)
  /\ DiagnosticsEngine.getConfidence eng' u c
     = orElse (PartialProgress.confidence update)
         (DiagnosticsEngine.getConfidence eng u c)
  /\ (forall u' c', (u', c') <> (u, c) ->
        DiagnosticsEngine.getProgress eng' u' c'
        = DiagnosticsEngine.getProgress eng u' c'
        /\ DiagnosticsEngine.getConfidence eng' u' c'
           = DiagnosticsEngine.getConfidence eng u' c').
Proof.
  cbv zeta.
  assert (Hold : orElse
                   (option_map ConceptProgress.confidence
                      (JSMap.get (DiagnosticsEngine.userMap eng u) c)) 0%Q
                 = DiagnosticsEngine.getConfidence eng u c).
  { unfold DiagnosticsEngine.getConfidence, DiagnosticsEngine.getProgress,
      DiagnosticsEngine.userMap, orElse.
    destruct (JSMap.get (DiagnosticsEngine.progress eng) u) as [m|];
      [|reflexivity].
    destruct (JSMap.get m c); reflexivity. }
  assert (Hnew : exists p,
             DiagnosticsEngine.getProgress
               (DiagnosticsEngine.updateProgress eng u c update now) u c = Some p
             /\ ConceptProgress.user_id p = u
             /\ ConceptProgress.concept_id p = c
             /\ ConceptProgress.confidence p
                = orElse (PartialProgress.confidence update)
                    (DiagnosticsEngine.getConfidence eng u c)
             /\ ConceptProgress.last_reviewed p
                = orElse (PartialProgress.last_reviewed update) now).
  { unfold DiagnosticsEngine.getProgress, DiagnosticsEngine.updateProgress.
    simpl. rewrite !get_set, String.eqb_refl, get_set, String.eqb_refl.
    eexists. split; [reflexivity|]. simpl. rewrite Hold. auto. }
  split; [exact Hnew|]. split.
  - destruct Hnew as (p & Hp & _ & _ & Hc & _).
    unfold DiagnosticsEngine.getConfidence at 1. now rewrite Hp.
  - intros u' c' Hne.
    assert (H : DiagnosticsEngine.getProgress
                  (DiagnosticsEngine.updateProgress eng u c update now) u' c'
                = DiagnosticsEngine.getProgress eng u' c').
    { rewrite getProgress_updateProgress.
      destruct (String.eqb u u') eqn:Eu; [|reflexivity].
      destruct (String.eqb c c') eqn:Ec; [|reflexivity].
      apply String.eqb_eq in Eu, Ec. subst. now elim Hne. }
    split; [exact H|]. unfold DiagnosticsEngine.getConfidence. now rewrite H.
Qed.

Lemma get_fold_set {V : Type} (key : V -> string) (l : list V) :
  forall (m : JSMap.t V) k,
    JSMap.get (fold_left (fun m v => JSMap.set m (key v) v) l m) k
    = match find (fun v => String.eqb (key v) k) (rev l) with
      | Some v => Some v
      | None => JSMap.get m k
      end.
Proof.
  induction l as [|v l IH] using rev_ind; intros m k; [reflexivity|].
  rewrite fold_left_app, rev_app_distr. simpl. rewrite get_set.
  destruct (String.eqb (key v) k); [reflexivity | apply IH].
Qed.

Lemma getProgress_importProgress eng u arr u' c :
  DiagnosticsEngine.getProgress (DiagnosticsEngine.importProgress eng u arr) u' c
  = if String.eqb u u'
    then match find (fun p => String.eqb (ConceptProgress.concept_id p) c)
                 (rev arr) with
         | Some p => Some p
         | None => DiagnosticsEngine.getProgress eng u c
         end
    else DiagnosticsEngine.getProgress eng u' c.
Proof.
  unfold DiagnosticsEngine.getProgress, DiagnosticsEngine.importProgress. simpl.
  rewrite get_set. destruct (String.eqb u u') eqn:Eu; [|reflexivity].
  rewrite (get_fold_set ConceptProgress.concept_id).
  destruct (find _ (rev arr)); [reflexivity|].
  unfold DiagnosticsEngine.userMap, orElse.
  destruct (JSMap.get (DiagnosticsEngine.progress eng) u); reflexivity.
Qed.

Lemma getUserProgress_import_export eng u v :
  progressConsistent eng ->
  DiagnosticsEngine.getUserProgress
    (DiagnosticsEngine.importProgress DiagnosticsEngine.new v
       (DiagnosticsEngine.getUserProgress eng u)) v
  = DiagnosticsEngine.getUserProgress eng u.
Proof.
  intros Hc. unfold DiagnosticsEngine.getUserProgress at 1.
  unfold DiagnosticsEngine.importProgress. simpl. rewrite String.eqb_refl.
  unfold DiagnosticsEngine.getUserProgress.
  destruct (JSMap.get (DiagnosticsEngine.progress eng) u) as [m|] eqn:E;
    [|reflexivity].
  destruct (Hc u m E) as [ND Hkey].
  change (DiagnosticsEngine.userMap DiagnosticsEngine.new v) with (@JSMap.empty ConceptProgress.t).
  now rewrite (refill ConceptProgress.concept_id m JSMap.empty ND Hkey).
Qed.

(** X12.  [importProgress(u, records)] files each record under its own
    concept ID in the map of [u]: afterwards the record of a concept is the
    last one of the array with that ID, or the one held before when the array
    has none, and other users are untouched.  Importing into a new engine what
    [getUserProgress] gives for a user restores that user's records, in the
    same order. *)
Theorem importProgress_lookup (ops : list ProgressOp) (eng : DiagnosticsEngine.t)
  (u : string) (progressArray : list ConceptProgress.t) :
  (forall u' c,
      DiagnosticsEngine.getProgress
        (DiagnosticsEngine.importProgress eng u progressArray) u' c
      = if String.eqb u u'
        then match find (fun p => String.eqb (ConceptProgress.concept_id p) c)
                     (rev progressArray) with
             | Some p => Some p
             | None => DiagnosticsEngine.getProgress eng u c
             end
        else DiagnosticsEngine.getProgress eng u' c)
  /\ (forall v,
        DiagnosticsEngine.getUserProgress
          (DiagnosticsEngine.importProgress DiagnosticsEngine.new v
             (DiagnosticsEngine.getUserProgress (record ops) u)) v
        = DiagnosticsEngine.getUserProgress (record ops) u).
Proof.
  split.
  - intros u' c. apply getProgress_importProgress.
  - intros v. apply getUserProgress_import_export, progressConsistent_record.
Qed.

Lemma In_getUserProgress eng u p :
  progressConsistent eng ->
  (In p (DiagnosticsEngine.getUserProgress eng u)
   <-> DiagnosticsEngine.getProgress eng u (ConceptProgress.concept_id p) = Some p).
Proof.
  intros Hc. unfold DiagnosticsEngine.getUserProgress, DiagnosticsEngine.getProgress.
  destruct (JSMap.get (DiagnosticsEngine.progress eng) u) as [m|] eqn:E;
    [|split; [intros [] | discriminate]].
  destruct (Hc u m E) as [ND Hkey]. unfold JSMap.values. rewrite in_map_iff.
  split.
  - intros ([k q] & <- & Hin). simpl. rewrite (Hkey k q Hin).
    now apply In_get_Some.
  - intros H. apply get_Some_In in H.
    now exists (ConceptProgress.concept_id p, p).
Qed.

Lemma In_getKnownConcepts eng u t c :
  progressConsistent eng ->
  (In c (DiagnosticsEngine.getKnownConcepts eng u t)
   <-> exists p, DiagnosticsEngine.getProgress eng u c = Some p
                 /\ (t <= ConceptProgress.confidence p)%Q).
Proof.
  intros Hc. unfold DiagnosticsEngine.getKnownConcepts.
  rewrite In_ofList, in_map_iff. split.
  - intros (p & <- & Hp). apply filter_In in Hp. destruct Hp as [Hin Hle].
    exists p. split; [now apply In_getUserProgress | now apply Qle_bool_iff].
  - intros (p & Hp & Hle).
    assert (Hid : ConceptProgress.concept_id p = c).
    { unfold DiagnosticsEngine.getProgress in Hp.
      destruct (JSMap.get (DiagnosticsEngine.progress eng) u) as [m|] eqn:E;
        [|discriminate].
      apply get_Some_In in Hp. now apply (proj2 (Hc u m E)). }
    exists p. split; [exact Hid|]. apply filter_In.
    split; [|now apply Qle_bool_iff].
    apply In_getUserProgress; [exact Hc | now rewrite Hid].
Qed.

(** X13.  For every recorded state and every threshold,
    [getKnownConcepts(u, threshold)] is a duplicate-free collection of exactly
    the concepts that have a record for [u] with a confidence of at least
    [threshold]: a concept without a record is never in it, not even for a
    threshold of 0 or less; and raising the threshold can only shrink it. *)
Theorem getKnownConcepts_exact (ops : list ProgressOp) (u : string) (t : Q) :
  let known := DiagnosticsEngine.getKnownConcepts (record ops) u t in
  NoDup known
  /\ (forall c, In c known
                <-> exists p, DiagnosticsEngine.getProgress (record ops) u c = Some p
                              /\ (t <= ConceptProgress.confidence p)%Q)
  /\ (forall t', (t <= t')%Q ->
        incl (DiagnosticsEngine.getKnownConcepts (record ops) u t') known).
Proof.
  cbv zeta. pose proof (progressConsistent_record ops) as Hc.
  split; [apply NoDup_ofList|]. split.
  - intros c. now apply In_getKnownConcepts.
  - intros t' Ht c Hin. apply (In_getKnownConcepts _ u t' c Hc) in Hin.
    apply (In_getKnownConcepts _ u t c Hc).
    destruct Hin as (p & Hp & Hle). exists p. split; [exact Hp|].
    now apply Qle_trans with t'.
Qed.

(** ** [getWeakestPrerequisites] *)

Lemma insertBy_Permutation {A : Type} (compare : A -> A -> Q) x l :
  Permutation (insertBy compare x l) (x :: l).
Proof.
  induction l as [|y l IH]; simpl; [reflexivity|].
  destruct (Qle_bool (compare x y) 0); [reflexivity|].
  rewrite IH. apply perm_swap.
Qed.

Lemma sortBy_Permutation {A : Type} (compare : A -> A -> Q) l :
  Permutation (sortBy compare l) l.
Proof.
  induction l as [|x l IH]; simpl; [reflexivity|].
  rewrite insertBy_Permutation. now constructor.
Qed.

Section SortBy.
Context {A : Type}.
Variable f : A -> Q.

Let compare (a b : A) : Q := (f a - f b)%Q.
Let le (a b : A) : Prop := (f a <= f b)%Q.

Lemma compare_le a b : Qle_bool (compare a b) 0 = true <-> le a b.
Proof.
  unfold compare, le. rewrite Qle_bool_iff.
  rewrite (Qle_minus_iff (f a - f b) 0), (Qle_minus_iff (f a) (f b)).
  assert (E : (0 + - (f a - f b) == f b + - f a)%Q) by ring.
  now rewrite E.
Qed.

Lemma insertBy_sorted x l :
  Sorted.StronglySorted le l -> Sorted.StronglySorted le (insertBy compare x l).
Proof.
  induction 1 as [|y l Hl IH Hy]; simpl.
  - repeat constructor.
  - destruct (Qle_bool (compare x y) 0) eqn:E.
    + apply compare_le in E. constructor; [now constructor|].
      constructor; [exact E|]. rewrite Forall_forall in *. intros z Hz.
      unfold le in *. apply Qle_trans with (f y); auto.
    + assert (Hyx : le y x).
      { unfold le. apply Qlt_le_weak, Qnot_le_lt. intros H.
        apply compare_le in H. congruence. }
      constructor; [exact IH|].
      rewrite Forall_forall in *. intros z Hz.
      apply (Permutation_in _ (insertBy_Permutation compare x l)) in Hz.
      destruct Hz as [<-|Hz]; auto.
Qed.

Lemma sortBy_sorted l : Sorted.StronglySorted le (sortBy compare l).
Proof.
  induction l as [|x l IH]; simpl; [constructor | now apply insertBy_sorted].
Qed.

End SortBy.

Lemma StronglySorted_app {A : Type} (R : A -> A -> Prop) (l1 l2 : list A) :
  Sorted.StronglySorted R (l1 ++ l2) ->
  forall x y, In x l1 -> In y l2 -> R x y.
Proof.
  induction l1 as [|a l1 IH]; intros H x y Hx Hy; [destruct Hx|].
  inversion H as [|? ? Hs Hall]; subst. destruct Hx as [<-|Hx].
  - rewrite Forall_forall in Hall. apply Hall, in_or_app. now right.
  - now apply IH.
Qed.

Lemma StronglySorted_firstn {A : Type} (R : A -> A -> Prop) k (l : list A) :
  Sorted.StronglySorted R l -> Sorted.StronglySorted R (firstn k l).
Proof.
  intros H. revert k. induction H as [|a l Hl IH Ha]; intros [|k]; simpl;
    try constructor.
  - apply IH.
  - rewrite Forall_forall in *. intros x Hx. apply Ha.
    rewrite <- (firstn_skipn k l). apply in_or_app. now left.
Qed.

(** [slice(0, end)] takes a prefix. *)
Lemma sliceTo_prefix {A : Type} (l : list A) (e : Z) :
  exists k, sliceTo l e = firstn k l
            /\ ((0 <= e)%Z -> k = Z.to_nat e).
Proof.
  unfold sliceTo. destruct (Z.ltb_spec e 0) as [Hneg|Hpos].
  - eexists. split; [reflexivity | lia].
  - eexists. split; [reflexivity | reflexivity].
Qed.


(** ** What [identifyCriticalPath] returns *)

Lemma waveAt_nil g k : waveAt g k [] = [].
Proof. induction k as [|k IH]; [reflexivity | exact IH]. Qed.

Lemma waveAt_add g a : forall b current,
  waveAt g (a + b) current = waveAt g b (waveAt g a current).
Proof.
  induction a as [|a IH]; intros b current; [reflexivity|]. simpl. apply IH.
Qed.

Lemma waveAt_stays_empty g K k current :
  waveAt g K current = [] -> K <= k -> waveAt g k current = [].
Proof.
  intros HK Hle. replace k with (K + (k - K)) by lia.
  rewrite waveAt_add, HK. apply waveAt_nil.
Qed.

(** The loop counts the rounds that found a prerequisite. *)
Lemma waves_depth g fuel :
  forall current depth d,
    StudyPlanner.waves g fuel current depth = Return d ->
    current <> [] ->
    exists K, waveAt g K current <> []
              /\ waveAt g (S K) current = []
              /\ d = (depth + Z.of_nat K)%Z.
Proof.
  induction fuel as [|fuel IH]; intros current depth d Hrun Hne.
  - destruct current; [now elim Hne | discriminate].
  - destruct current as [|c rest]; [now elim Hne|]. simpl in Hrun.
    destruct (StudyPlanner.nextWave g (c :: rest)) as [|x next] eqn:E.
    + simpl in Hrun. destruct fuel; simpl in Hrun; injection Hrun as <-;
        exists 0; simpl; rewrite E; (split; [discriminate|]);
        (split; [reflexivity | lia]).
    + simpl in Hrun. destruct (IH _ _ _ Hrun) as (K & H1 & H2 & ->);
        [discriminate|].
      exists (S K). simpl. rewrite E. split; [exact H1|].
      split; [exact H2 | lia].
Qed.

Lemma waves_fuel_irrelevant g f1 :
  forall f2 current depth d1 d2,
    StudyPlanner.waves g f1 current depth = Return d1 ->
    StudyPlanner.waves g f2 current depth = Return d2 ->
    d1 = d2.
Proof.
  induction f1 as [|f1 IH]; intros f2 current depth d1 d2 H1 H2.
  - destruct current; [|discriminate]. destruct f2; simpl in *; congruence.
  - destruct current as [|c rest].
    + destruct f2; simpl in *; congruence.
    + destruct f2 as [|f2]; [discriminate|]. simpl in H1, H2.
      exact (IH _ _ _ _ _ H1 H2).
Qed.

Section CriticalPathResult.
Variable ops : list Op.
Variable eng : DiagnosticsEngine.t.

Let R := Requires ops.
Let sp := {| StudyPlanner.graph := build ops;
             StudyPlanner.diagnosticsEngine := eng |}.

Let body (fuel : nat) :=
  fun (st : JSSet.t * Z) (conceptId : string) =>
    prereqs <- MathGraph.getAllPrerequisites (build ops) conceptId ;;
    d <- StudyPlanner.waves (build ops) fuel [conceptId] 0%Z ;;
    Return (JSSet.addAll (fst st) prereqs, Z.max (snd st) d).

(** The depth counted for one target is the length of the longest chain of
    REQUIRES edges that ends at it. *)
Lemma waves_longest fuel t d :
  StudyPlanner.waves (build ops) fuel [t] 0%Z = Return d ->
  (0 <= d)%Z
  /\ (exists x, StepsTo R (Z.to_nat d) x t)
  /\ forall k x, StepsTo R k x t -> (Z.of_nat k <= d)%Z.
Proof.
  intros Hrun. destruct (waves_depth _ _ _ _ _ Hrun) as (K & Hne & Hdry & ->);
    [discriminate|].
  split; [lia|]. split.
  - rewrite Z.add_0_l, Nat2Z.id.
    destruct (waveAt (build ops) K [t]) as [|x l] eqn:E; [now elim Hne|].
    assert (Hx : In x (waveAt (build ops) K [t])) by (rewrite E; now left).
    apply In_waveAt in Hx. destruct Hx as (c & [<-|[]] & Hw). now exists x.
  - intros k x Hw. destruct (Nat.le_gt_cases k K) as [Hle|Hgt]; [lia|].
    exfalso.
    assert (Hx : In x (waveAt (build ops) k [t])).
    { apply In_waveAt. exists t. split; [now left | exact Hw]. }
    rewrite (waveAt_stays_empty _ (S K) k [t] Hdry Hgt) in Hx. exact Hx.
Qed.

Lemma targets_loop_spec fuel (targetConcepts : list string) :
  forall st st',
    forOf (body fuel) targetConcepts st = Return st' ->
    (NoDup (fst st) -> NoDup (fst st'))
    /\ (forall u, In u (fst st')
                  <-> In u (fst st)
                      \/ exists t, In t targetConcepts /\ u <> t /\ Path R u t)
    /\ (snd st <= snd st')%Z
    /\ (forall t k x, In t targetConcepts -> StepsTo R k x t ->
          (Z.of_nat k <= snd st')%Z)
    /\ (snd st' = snd st
        \/ exists t x, In t targetConcepts
                       /\ StepsTo R (Z.to_nat (snd st')) x t).
Proof.
  induction targetConcepts as [|c cs IH]; intros st st' Hrun.
  - injection Hrun as <-. split; [auto|]. split.
    + intros u. split; [now left|]. intros [H|(t & [] & _)]. exact H.
    + split; [lia|]. split; [intros t k x []|]. now left.
  - cbn [forOf] in Hrun. unfold body at 1 in Hrun.
    destruct (getAllPrerequisites_paths ops c) as (r & Hr & NDr & _ & Hinr).
    rewrite Hr in Hrun. cbn [bind] in Hrun.
    destruct (StudyPlanner.waves (build ops) fuel [c] 0%Z) as [d| |] eqn:Ed;
      cbn [bind] in Hrun; try discriminate.
    destruct (waves_longest fuel c d Ed) as (Hd0 & Hdx & Hdmax).
    destruct (IH _ _ Hrun) as (HND & Hin & Hle & Hmax & Hatt).
    cbn [fst snd] in *. split; [|split; [|split; [|split]]].
    + intros H. apply HND. now apply NoDup_addAll.
    + intros u. rewrite Hin, In_addAll, Hinr. split.
      * intros [[H|[Hne HP]]|(t & Ht & H)].
        -- now left.
        -- right. exists c. split; [now left | now split].
        -- right. exists t. split; [now right | exact H].
      * intros [H|(t & [<-|Ht] & Hne & HP)].
        -- left. now left.
        -- left. right. now split.
        -- right. now exists t.
    + lia.
    + intros t k x [<-|Ht] Hw; [|now apply (Hmax t k x)].
      specialize (Hdmax k x Hw). lia.
    + destruct Hatt as [Heq|(t & x & Ht & Hw)].
      * rewrite Heq. destruct (Z.max_spec (snd st) d) as [[_ ->]|[_ ->]].
        -- right. destruct Hdx as [x Hx]. exists c, x. split; [now left | exact Hx].
        -- now left.
      * right. exists t, x. split; [now right | exact Hw].
Qed.

Lemma targets_loop_fuel_irrelevant f1 f2 (targetConcepts : list string) :
  forall st st1 st2,
    forOf (body f1) targetConcepts st = Return st1 ->
    forOf (body f2) targetConcepts st = Return st2 ->
    st1 = st2.
Proof.
  induction targetConcepts as [|c cs IH]; intros st st1 st2 H1 H2.
  - simpl in *. congruence.
  - cbn [forOf] in H1, H2. unfold body at 1 in H1. unfold body at 1 in H2.
    destruct (MathGraph.getAllPrerequisites (build ops) c) as [r| |];
      cbn [bind] in H1, H2; try discriminate.
    destruct (StudyPlanner.waves (build ops) f1 [c] 0%Z) as [d1| |] eqn:E1;
      cbn [bind] in H1; try discriminate.
    destruct (StudyPlanner.waves (build ops) f2 [c] 0%Z) as [d2| |] eqn:E2;
      cbn [bind] in H2; try discriminate.
    rewrite (waves_fuel_irrelevant _ _ _ _ _ _ _ E1 E2) in H1.
    exact (IH _ _ _ H1 H2).
Qed.

Lemma identifyCriticalPath_spec (targetConcepts : list string) :
  (forall t, In t targetConcepts -> ~ cycleBehind ops t) ->
  exists r allPrereqs,
    StudyPlanner.identifyCriticalPath (S (length (edgesOf ops))) sp targetConcepts
    = Return r
    /\ (forall fuel r',
          StudyPlanner.identifyCriticalPath fuel sp targetConcepts = Return r' ->
          r' = r)
    /\ (0 <= StudyPlanner.depth r)%Z
    /\ (forall t k x, In t targetConcepts -> StepsTo R k x t ->
          (Z.of_nat k <= StudyPlanner.depth r)%Z)
    /\ (targetConcepts <> [] ->
        exists t x, In t targetConcepts
                    /\ StepsTo R (Z.to_nat (StudyPlanner.depth r)) x t)
    /\ NoDup allPrereqs
    /\ StudyPlanner.totalPrerequisites r = length allPrereqs
    /\ (forall u, In u allPrereqs
                  <-> exists t, In t targetConcepts /\ u <> t /\ Path R u t)
    /\ NoDup (StudyPlanner.criticalConcepts r)
    /\ topologicalOn ops (targetConcepts ++ allPrereqs)
         (StudyPlanner.criticalConcepts r)
    /\ (forall c, In c (StudyPlanner.criticalConcepts r)
                  <-> In c targetConcepts
                      \/ exists t, In t targetConcepts /\ Path R c t).
Proof.
  intros Hacyclic.
  destruct (targets_loop_returns ops targetConcepts Hacyclic (JSSet.empty, 0%Z))
    as [st Hst].
  fold (body (S (length (edgesOf ops)))) in Hst.
  destruct (targets_loop_spec _ _ _ _ Hst) as (HND & Hin & Hle & Hmax & Hatt).
  cbn [fst snd] in *.
  destruct (topologicalSort_members ops (targetConcepts ++ fst st))
    as (out & Hout & NDout & Htopo & Hmem).
  exists {| StudyPlanner.criticalConcepts := out;
            StudyPlanner.depth := snd st;
            StudyPlanner.totalPrerequisites := JSSet.size (fst st) |}, (fst st).
  assert (Hmine : forall u, In u (fst st)
                    <-> exists t, In t targetConcepts /\ u <> t /\ Path R u t).
  { intros u. rewrite Hin. split; [intros [[]|H]; exact H | now right]. }
  split; [|split].
  { unfold sp. rewrite identifyCriticalPath_unfold.
    fold (body (S (length (edgesOf ops)))). rewrite Hst. cbn [bind].
    rewrite Hout. reflexivity. }
  { intros fuel r' Hr'. unfold sp in Hr'.
    rewrite identifyCriticalPath_unfold in Hr'.
    fold (body fuel) in Hr'.
    destruct (forOf (body fuel) targetConcepts (JSSet.empty, 0%Z))
      as [st'| |] eqn:Est'; cbn [bind] in Hr'; try discriminate.
    rewrite (targets_loop_fuel_irrelevant _ _ _ _ _ _ Est' Hst) in Hr'.
    rewrite Hout in Hr'. cbn [bind] in Hr'. now injection Hr' as <-. }
  cbn [StudyPlanner.depth StudyPlanner.totalPrerequisites
       StudyPlanner.criticalConcepts].
  split; [exact Hle|]. split; [exact Hmax|]. split.
  { intros Hne. destruct Hatt as [Heq|H]; [|exact H].
    destruct targetConcepts as [|t ts]; [now elim Hne|].
    exists t, t. split; [now left|]. rewrite Heq. constructor. }
  split; [apply HND; constructor|]. split; [reflexivity|].
  split; [exact Hmine|]. split; [exact NDout|]. split; [exact Htopo|].
  assert (HS : forall c, In c (targetConcepts ++ fst st)
                 <-> In c targetConcepts
                     \/ exists t, In t targetConcepts /\ Path R c t).
  { intros c. rewrite in_app_iff, Hmine. split.
    - intros [H|(t & Ht & _ & HP)]; [now left | right; now exists t].
    - intros [H|(t & Ht & HP)]; [now left|].
      destruct (string_dec c t) as [->|Hne]; [now left|].
      right. now exists t. }
  intros c. rewrite Hmem, HS. split; [tauto|]. intros Hc. split; [exact Hc|].
  intros (x & Hx & Hxc).
  assert (HxS : In x (targetConcepts ++ fst st))
    by now apply Path_RequiresWithin_left in Hx.
  assert (Hcycle : Path R x x).
  { revert Hx. apply Path_ext. intros a b H. apply H. }
  apply HS in HxS. destruct HxS as [Ht|(t & Ht & HP)].
  - apply (Hacyclic x Ht). exists x. split; [apply rt_refl | exact Hcycle].
  - apply (Hacyclic t Ht). exists x. split; [|exact Hcycle].
    apply Reaches_or_Path. now right.
Qed.

End CriticalPathResult.

Lemma dry_wave_acyclic ops t k :
  waveAt (build ops) k [t] = [] -> ~ cycleBehind ops t.
Proof. intros H Hc. exact (waveAt_never_empty ops t Hc k H). Qed.

(** X15.  When no REQUIRES cycle lies behind a target,
    [identifyCriticalPath] returns the same record however many rounds its
    loops are granted, and in it [depth] is the length of the longest chain of
    REQUIRES edges that ends at a target (0 without targets),
    [totalPrerequisites] is the number of distinct IDs that are a
    prerequisite, direct or not, of some target other than themselves, and
    [criticalConcepts] lists each target and each of their prerequisites once,
    every prerequisite before what requires it. *)
Theorem identifyCriticalPath_result (ops : list Op) (eng : DiagnosticsEngine.t)
  (targetConcepts : list string) :
  let sp := {| StudyPlanner.graph := build ops;
               StudyPlanner.diagnosticsEngine := eng |} in
  (forall t, In t targetConcepts -> ~ cycleBehind ops t) ->
  exists r allPrereqs,
    StudyPlanner.identifyCriticalPath (S (length (edgesOf ops))) sp targetConcepts
    = Return r
    /\ (forall fuel r',
          StudyPlanner.identifyCriticalPath fuel sp targetConcepts = Return r' ->
          r' = r)
    /\ (0 <= StudyPlanner.depth r)%Z
    /\ (forall t k x, In t targetConcepts -> StepsTo (Requires ops) k x t ->
          (Z.of_nat k <= StudyPlanner.depth r)%Z)
    /\ (targetConcepts <> [] ->
        exists t x, In t targetConcepts
                    /\ StepsTo (Requires ops) (Z.to_nat (StudyPlanner.depth r)) x t)
    /\ NoDup allPrereqs
    /\ StudyPlanner.totalPrerequisites r = length allPrereqs
    /\ (forall u, In u allPrereqs
                  <-> exists t, In t targetConcepts /\ u <> t
                                /\ Path (Requires ops) u t)
    /\ NoDup (StudyPlanner.criticalConcepts r)
    /\ topologicalOn ops (targetConcepts ++ allPrereqs)
         (StudyPlanner.criticalConcepts r)
    /\ (forall c, In c (StudyPlanner.criticalConcepts r)
                  <-> In c targetConcepts
                      \/ exists t, In t targetConcepts /\ Path (Requires ops) c t).
Proof. exact (identifyCriticalPath_spec ops eng targetConcepts). Qed.

Lemma identifyCriticalPath_result_witness :
  (forall t, In t ["C"; "B"] -> ~ cycleBehind chainABC t)
  /\ exists r,
       StudyPlanner.identifyCriticalPath 3
         {| StudyPlanner.graph := build chainABC;
            StudyPlanner.diagnosticsEngine := DiagnosticsEngine.new |} ["C"; "B"]
       = Return r
       /\ StudyPlanner.depth r = 2%Z.
Proof.
  assert (H : forall t, In t ["C"; "B"] -> ~ cycleBehind chainABC t).
  { intros t [<-|[<-|[]]]; apply (dry_wave_acyclic chainABC _ 3); reflexivity. }
  split; [exact H|].
  destruct (identifyCriticalPath_result chainABC DiagnosticsEngine.new
              ["C"; "B"] H) as (r & all & Hr & Hrest).
  exists r. split; [exact Hr|].
  simpl in Hr. injection Hr as <-. reflexivity.
Defined.

(** ** [generateStudyPath] *)

Lemma literal_0_7_pos : (0 < literal_0_7)%Q.
Proof. reflexivity. Qed.

(** What [detectGaps] hands on to be studied: the concepts of the closure
    whose confidence is below the threshold. *)
Lemma In_missing_weak eng u (all : list string) threshold c :
  (0 < threshold)%Q ->
  let mw := fold_left (DiagnosticsEngine.classify eng u threshold) all ([], []) in
  (In c (fst mw ++ snd mw)
   <-> In c all /\ (DiagnosticsEngine.getConfidence eng u c < threshold)%Q).
Proof.
  intros Hpos. cbv zeta. rewrite classify_fold. simpl.
  rewrite in_app_iff, !filter_In, andb_true_iff, negb_true_iff, Qlt_bool_iff.
  rewrite Qeq_bool_iff. split.
  - intros [[Hin Hz]|[Hin [_ Hlt]]]; (split; [exact Hin|]); [|exact Hlt].
    now rewrite Hz.
  - intros [Hin Hlt].
    destruct (Qeq_bool (DiagnosticsEngine.getConfidence eng u c) 0) eqn:E.
    + left. split; [exact Hin|]. now apply Qeq_bool_iff.
    + right. auto.
Qed.

Lemma NoDup_missing_weak eng u (all : list string) threshold :
  NoDup all ->
  let mw := fold_left (DiagnosticsEngine.classify eng u threshold) all ([], []) in
  NoDup (fst mw ++ snd mw).
Proof.
  intros ND. cbv zeta. rewrite classify_fold. simpl.
  induction ND as [|x l Hx ND IH]; simpl; [constructor|].
  destruct (Qeq_bool (DiagnosticsEngine.getConfidence eng u x) 0); simpl.
  - constructor; [|exact IH]. rewrite in_app_iff, !filter_In. tauto.
  - destruct (Qlt_bool (DiagnosticsEngine.getConfidence eng u x) threshold).
    + apply (Permutation_NoDup (Permutation_middle _ _ x)).
      constructor; [|exact IH]. rewrite in_app_iff, !filter_In. tauto.
    + exact IH.
Qed.

Lemma get_objectSet o k v k' :
  JSMap.get (objectSet o k v) k'
  = if String.eqb k "__proto__" then JSMap.get o k'
    else if String.eqb k k' then Some v else JSMap.get o k'.
Proof.
  unfold objectSet. destruct (String.eqb k "__proto__"); [reflexivity|].
  apply get_set.
Qed.

Lemma get_confidenceMap (f : string -> Q) (l : list string) :
  forall o k,
    JSMap.get (fold_left (fun o c => objectSet o c (f c)) l o) k
    = if includes l k && negb (String.eqb k "__proto__") then Some (f k)
      else JSMap.get o k.
Proof.
  induction l as [|x l IH]; intros o k; [reflexivity|].
  simpl fold_left. rewrite IH, get_objectSet.
  unfold includes in *. simpl JSSet.has.
  destruct (String.eqb x k) eqn:E.
  - apply String.eqb_eq in E. subst x. simpl.
    destruct (String.eqb k "__proto__"); simpl.
    + now rewrite andb_false_r.
    + now destruct (JSSet.has l k).
  - destruct (JSSet.has l k && negb (String.eqb k "__proto__")); [reflexivity|].
    now destruct (String.eqb x "__proto__").
Qed.

Section StudyPathFacts.
Variable D : Doubles.t.

Lemma generateStudyPath_spec ops eng u targetConcepts days exam system year :
  let confidence := DiagnosticsEngine.getConfidence eng u in
  exists gaps path,
    DiagnosticsEngine.detectGaps eng u (build ops) targetConcepts literal_0_7
    = Return gaps
    /\ generateStudyPath D eng u (build ops) targetConcepts days exam system year
       = Return path
    /\ let toStudy := DiagnosticsEngine.missing gaps ++ DiagnosticsEngine.weak gaps in
       StudyPath.user_id path = u
       /\ StudyPath.target_exam path = exam
       /\ StudyPath.curriculum path = system
       /\ StudyPath.year_level path = year
       /\ StudyPath.time_remaining_days path = days
       /\ StudyPath.gaps path = DiagnosticsEngine.missing gaps
       /\ NoDup toStudy
       /\ (forall c, In c toStudy
                     <-> (In c targetConcepts
                          \/ exists t, In t targetConcepts
                                       /\ Path (Requires ops) c t)
                         /\ (confidence c < literal_0_7)%Q)
       /\ NoDup (StudyPath.ordered_concepts path)
       /\ topologicalOn ops toStudy (StudyPath.ordered_concepts path)
       /\ (forall c, In c (StudyPath.ordered_concepts path)
                     <-> In c toStudy
                         /\ ~ exists x, Path (RequiresWithin ops toStudy) x x
                                        /\ Reaches (RequiresWithin ops toStudy) x c)
       /\ (forall c, JSMap.get (StudyPath.confidence_map path) c
                     = if includes (StudyPath.ordered_concepts path) c
                          && negb (String.eqb c "__proto__")
                       then Some (confidence c) else None).
Proof.
  cbv zeta.
  destruct (allRequired_spec ops targetConcepts) as (all & Hall & ND & Hin).
  set (mw := fold_left (DiagnosticsEngine.classify eng u literal_0_7) all ([], [])).
  destruct (topologicalSort_members ops (fst mw ++ snd mw))
    as (out & Hout & NDout & Htopo & Hmem).
  eexists. eexists. split; [|split].
  - unfold DiagnosticsEngine.detectGaps. rewrite Hall. reflexivity.
  - unfold generateStudyPath, DiagnosticsEngine.detectGaps. rewrite Hall.
    cbn [bind DiagnosticsEngine.missing DiagnosticsEngine.weak].
    fold mw. rewrite Hout. reflexivity.
  - cbn [StudyPath.user_id StudyPath.target_exam StudyPath.curriculum
         StudyPath.year_level StudyPath.time_remaining_days StudyPath.gaps
         StudyPath.ordered_concepts StudyPath.confidence_map
         DiagnosticsEngine.missing DiagnosticsEngine.weak].
    fold mw. repeat (split; [reflexivity|]).
    split; [now apply NoDup_missing_weak|]. split.
    { intros c. unfold mw.
      rewrite (In_missing_weak eng u all literal_0_7 c literal_0_7_pos).
      now rewrite Hin. }
    split; [exact NDout|]. split; [exact Htopo|]. split; [exact Hmem|].
    intros c. apply get_confidenceMap.
Qed.

End StudyPathFacts.

(** X16.  [generateStudyPath] returns a path that carries the arguments it
    was given, whose [gaps] are the [missing] list of [detectGaps], and whose
    [ordered_concepts] are taken from the targets and their prerequisites with
    a confidence below 0.7: each of these once, a prerequisite before what
    requires it, those on or behind a REQUIRES cycle among them left out.
    [confidence_map] gives each ordered concept the confidence that
    [getConfidence] reports, and has no entry for anything else nor for a
    concept named [__proto__]. *)
Theorem generateStudyPath_plan (D : Doubles.t) (ops : list Op)
  (eng : DiagnosticsEngine.t) (u : string)
  (targetConcepts : list string) (days : Q) (exam system : string) (year : Q) :
  let confidence := DiagnosticsEngine.getConfidence eng u in
  exists gaps path,
    DiagnosticsEngine.detectGaps eng u (build ops) targetConcepts literal_0_7
    = Return gaps
    /\ generateStudyPath D eng u (build ops) targetConcepts days exam system year
       = Return path
    /\ let toStudy := DiagnosticsEngine.missing gaps ++ DiagnosticsEngine.weak gaps in
       StudyPath.user_id path = u
       /\ StudyPath.target_exam path = exam
       /\ StudyPath.curriculum path = system
       /\ StudyPath.year_level path = year
       /\ StudyPath.time_remaining_days path = days
       /\ StudyPath.gaps path = DiagnosticsEngine.missing gaps
       /\ NoDup toStudy
       /\ (forall c, In c toStudy
                     <-> (In c targetConcepts
                          \/ exists t, In t targetConcepts
                                       /\ Path (Requires ops) c t)
                         /\ (confidence c < literal_0_7)%Q)
       /\ NoDup (StudyPath.ordered_concepts path)
       /\ topologicalOn ops toStudy (StudyPath.ordered_concepts path)
       /\ (forall c, In c (StudyPath.ordered_concepts path)
                     <-> In c toStudy
                         /\ ~ exists x, Path (RequiresWithin ops toStudy) x x
                                        /\ Reaches (RequiresWithin ops toStudy) x c)
       /\ (forall c, JSMap.get (StudyPath.confidence_map path) c
                     = if includes (StudyPath.ordered_concepts path) c
                          && negb (String.eqb c "__proto__")
                       then Some (confidence c) else None).
Proof.
  exact (generateStudyPath_spec D ops eng u targetConcepts days exam system year).
Qed.

(** ** [recommendNextConcepts] *)

Section Recommend.
Variable D : Doubles.t.
Variable gops : list Op.
Variable pops : list ProgressOp.
Variable u : string.

Let eng := record pops.
Let known := DiagnosticsEngine.getKnownConcepts eng u literal_0_7.
Let confidence := DiagnosticsEngine.getConfidence eng u.

Let ready (c : string) : bool :=
  negb (JSSet.has known c)
  && forallb (fun p => JSSet.has known p) (MathGraph.getPrerequisites (build gops) c).

Let entry (c : string) : Candidate D :=
  {| candidateId := c;
     priority := Doubles.mul D
                   (Doubles.sub D (Doubles.ofQ D 1) (Doubles.ofQ D (confidence c)))
                   (Doubles.ofQ D 10) |}.

Lemma candidates_fold (l : list string) :
  forall acc,
    fold_left
      (fun candidates conceptId =>
         if JSSet.has known conceptId then candidates
         else
           if forallb (fun p => JSSet.has known p)
                (MathGraph.getPrerequisites (build gops) conceptId)
           then candidates ++ [entry conceptId]
           else candidates) l acc
    = acc ++ map entry (filter ready l).
Proof.
  induction l as [|c l IH]; intros acc; simpl; [now rewrite app_nil_r|].
  rewrite IH. unfold ready at 2.
  destruct (JSSet.has known c); simpl; [reflexivity|].
  destruct (forallb _ _); simpl; [now rewrite <- app_assoc | reflexivity].
Qed.

Lemma known_confidence c :
  JSSet.has known c = true <-> (literal_0_7 <= confidence c)%Q.
Proof.
  apply known_iff; [apply progressConsistent_record | apply literal_0_7_pos].
Qed.

Lemma ready_iff c :
  ready c = true
  <-> (confidence c < literal_0_7)%Q
      /\ forall p, Requires gops p c -> (literal_0_7 <= confidence p)%Q.
Proof.
  unfold ready. rewrite andb_true_iff, negb_true_iff, forallb_forall.
  assert (Hc : JSSet.has known c = false <-> (confidence c < literal_0_7)%Q).
  { rewrite <- Qlt_bool_iff. unfold Qlt_bool. rewrite negb_true_iff.
    destruct (JSSet.has known c) eqn:E.
    - apply known_confidence in E. apply Qle_bool_iff in E. rewrite E.
      split; discriminate.
    - split; [intros _|reflexivity].
      destruct (Qle_bool literal_0_7 (confidence c)) eqn:E'; [|reflexivity].
      apply Qle_bool_iff, known_confidence in E'. congruence. }
  rewrite Hc. split; intros [H1 H2]; (split; [exact H1|]); intros p Hp.
  - apply known_confidence, H2. now apply In_getPrerequisites.
  - apply known_confidence, H2. now apply In_getPrerequisites.
Qed.

Lemma recommendNextConcepts_spec targetConcepts limit :
  exists path result,
    generateStudyPath D eng u (build gops) targetConcepts 30
      "unknown" "UNKNOWN" 0 = Return path
    /\ recommendNextConcepts D eng u (build gops) targetConcepts limit
       = Return result
    /\ NoDup result
    /\ ((0 <= limit)%Z -> length result <= Z.to_nat limit)
    /\ (forall c, In c result ->
          In c (StudyPath.ordered_concepts path)
          /\ (confidence c < literal_0_7)%Q
          /\ forall p, Requires gops p c -> (literal_0_7 <= confidence p)%Q)
    /\ ((Z.of_nat (length (StudyPath.ordered_concepts path)) <= limit)%Z ->
        forall c, In c (StudyPath.ordered_concepts path) ->
          (forall p, Requires gops p c -> (literal_0_7 <= confidence p)%Q) ->
          In c result).
Proof.
  destruct (generateStudyPath_spec D gops eng u targetConcepts 30
              "unknown" "UNKNOWN" 0)
    as (gaps & path & _ & Hpath & Hfacts).
  cbv zeta in Hfacts.
  destruct Hfacts as (_ & _ & _ & _ & _ & _ & _ & Hstudy & NDo & _ & Hmem & _).
  set (ordered := StudyPath.ordered_concepts path) in *.
  set (sorted := sortBy (fun a b => Doubles.sign D
                                      (Doubles.sub D (priority D b) (priority D a)))
                   (map entry (filter ready ordered))).
  exists path, (map (candidateId D) (sliceTo sorted limit)).
  split; [exact Hpath|]. split.
  { unfold recommendNextConcepts. rewrite Hpath. cbn [bind].
    change (Return
              (map (candidateId D)
                 (sliceTo
                    (sortBy (fun a b => Doubles.sign D
                                          (Doubles.sub D (priority D b) (priority D a)))
                       (fold_left
                          (fun candidates conceptId =>
                             if JSSet.has known conceptId then candidates
                             else
                               if forallb (fun p => JSSet.has known p)
                                    (MathGraph.getPrerequisites (build gops) conceptId)
                               then candidates ++ [entry conceptId]
                               else candidates) ordered []))
                    limit))
            = Return (map (candidateId D) (sliceTo sorted limit))).
    now rewrite (candidates_fold ordered []). }
  assert (HP : Permutation (map (candidateId D) sorted) (filter ready ordered)).
  { unfold sorted. rewrite sortBy_Permutation, map_map. simpl.
    now rewrite map_id. }
  assert (HND : NoDup (map (candidateId D) sorted)).
  { apply (Permutation_NoDup (Permutation_sym HP)). now apply NoDup_filter. }
  destruct (sliceTo_prefix sorted limit) as (k & -> & Hk).
  split; [|split; [|split]].
  - rewrite <- (firstn_skipn k sorted), map_app in HND.
    now apply NoDup_app_remove_r in HND.
  - intros Hpos. rewrite length_map, length_firstn, (Hk Hpos). apply Nat.le_min_l.
  - intros c Hc.
    assert (Hin : In c (filter ready ordered)).
    { apply (Permutation_in _ HP). rewrite <- (firstn_skipn k sorted), map_app.
      apply in_or_app. now left. }
    apply filter_In in Hin. destruct Hin as [Hin Hready].
    split; [exact Hin|]. now apply ready_iff.
  - intros Hlimit c Hc Hmet.
    assert (Hall : firstn k sorted = sorted).
    { assert (Hlen : length sorted <= length ordered).
      { rewrite <- (length_map (candidateId D)), (Permutation_length HP).
        apply filter_length_le. }
      assert (Hpos : (0 <= limit)%Z) by lia.
      apply firstn_all2. rewrite (Hk Hpos). unfold ordered in Hlen. lia. }
    rewrite Hall. apply (Permutation_in _ (Permutation_sym HP)).
    apply filter_In. split; [exact Hc|]. apply ready_iff. split; [|exact Hmet].
    apply Hmem in Hc. destruct Hc as [Hc _]. now apply Hstudy in Hc.
Qed.

End Recommend.

(** X17.  [recommendNextConcepts] returns concepts of the study path it
    generates, none twice and at most [limit] of them (for a whole number
    [limit >= 0]); each has a confidence below 0.7 and every direct
    prerequisite of it has a confidence of at least 0.7.  When [limit] is not
    below the length of the path, every concept of the path whose direct
    prerequisites all have a confidence of at least 0.7 is returned. *)
Theorem recommendNextConcepts_ready (D : Doubles.t) (gops : list Op)
  (pops : list ProgressOp) (u : string) (targetConcepts : list string)
  (limit : Z) :
  let eng := record pops in
  let confidence := DiagnosticsEngine.getConfidence eng u in
  exists path result,
    generateStudyPath D eng u (build gops) targetConcepts 30
      "unknown" "UNKNOWN" 0 = Return path
    /\ recommendNextConcepts D eng u (build gops) targetConcepts limit
       = Return result
    /\ NoDup result
    /\ ((0 <= limit)%Z -> length result <= Z.to_nat limit)
    /\ (forall c, In c result ->
          In c (StudyPath.ordered_concepts path)
          /\ (confidence c < literal_0_7)%Q
          /\ forall p, Requires gops p c -> (literal_0_7 <= confidence p)%Q)
    /\ ((Z.of_nat (length (StudyPath.ordered_concepts path)) <= limit)%Z ->
        forall c, In c (StudyPath.ordered_concepts path) ->
          (forall p, Requires gops p c -> (literal_0_7 <= confidence p)%Q) ->
          In c result).
Proof. exact (recommendNextConcepts_spec D gops pops u targetConcepts limit). Qed.

(** ** [suggestReviewSchedule] *)

Section Chunks.
Variable l : list string.
Variable c : nat.

Let chunk (day : nat) : list string :=
  sliceBetween l (day * c) (Nat.min (day * c + c) (length l)).

Let sessions (m : nat) : list Session.t :=
  flat_map
    (fun day =>
       if Nat.ltb 0 (length (chunk day))
       then [{| Session.date := day; Session.concepts := chunk day |}]
       else [])
    (seq 0 m).

Lemma chunk_firstn day : chunk day = firstn c (skipn (day * c) l).
Proof.
  unfold chunk, sliceBetween.
  destruct (Nat.le_gt_cases (day * c + c) (length l)) as [H|H].
  - rewrite Nat.min_l by exact H. f_equal. lia.
  - rewrite Nat.min_r by lia.
    rewrite !firstn_all2; [reflexivity | |]; rewrite length_skipn; lia.
Qed.

Lemma length_chunk day : length (chunk day) = Nat.min c (length l - day * c).
Proof. now rewrite chunk_firstn, length_firstn, length_skipn. Qed.

Lemma firstn_plus (a b : nat) (xs : list string) :
  firstn (a + b) xs = firstn a xs ++ firstn b (skipn a xs).
Proof.
  revert xs. induction a as [|a IH]; intros [|x xs]; simpl.
  - reflexivity.
  - reflexivity.
  - now rewrite firstn_nil.
  - now rewrite IH.
Qed.

Lemma sessions_S m :
  sessions (S m)
  = sessions m
    ++ (if Nat.ltb 0 (length (chunk m))
        then [{| Session.date := m; Session.concepts := chunk m |}]
        else []).
Proof.
  unfold sessions. rewrite seq_S, flat_map_app. simpl. now rewrite app_nil_r.
Qed.

Lemma sessions_concat m :
  concat (map Session.concepts (sessions m)) = firstn (m * c) l.
Proof.
  induction m as [|m IH]; [reflexivity|].
  rewrite sessions_S, map_app, concat_app, IH.
  replace (S m * c) with (m * c + c) by lia. rewrite firstn_plus. f_equal.
  rewrite <- chunk_firstn.
  destruct (chunk m) as [|x xs] eqn:E; simpl; [reflexivity|].
  now rewrite app_nil_r.
Qed.

Lemma sessions_each m s :
  In s (sessions m) ->
  Session.concepts s <> [] /\ length (Session.concepts s) <= c
  /\ Session.concepts s = chunk (Session.date s).
Proof.
  unfold sessions. rewrite in_flat_map. intros (day & _ & Hs).
  destruct (Nat.ltb_spec 0 (length (chunk day))) as [Hpos|_]; [|destruct Hs].
  destruct Hs as [<-|[]]. simpl. split; [|split; [|reflexivity]].
  - intros E. rewrite E in Hpos. inversion Hpos.
  - rewrite length_chunk. apply Nat.le_min_l.
Qed.

Lemma sessions_dates m :
  map Session.date (sessions m) = seq 0 (length (sessions m))
  /\ length (sessions m) <= m
  /\ (c = 0 \/ length (sessions m) = m \/ length l <= m * c).
Proof.
  induction m as [|m (Hd & Hle & Hfull)].
  - simpl. split; [reflexivity|]. split; [apply le_n | right; now left].
  - rewrite sessions_S.
    destruct (Nat.ltb_spec 0 (length (chunk m))) as [Hpos|Hzero].
    + rewrite length_chunk in Hpos.
      assert (Hm : length (sessions m) = m) by lia.
      rewrite map_app, length_app, Hd, Hm. simpl.
      rewrite Nat.add_1_r, seq_S. split; [reflexivity|].
      split; [lia | right; now left].
    + rewrite app_nil_r. split; [exact Hd|]. split; [lia|].
      rewrite length_chunk in Hzero.
      destruct (Nat.eq_dec c 0) as [Hc|Hc]; [now left|].
      right. right. simpl. lia.
Qed.

End Chunks.

Lemma ceiling_quotient (n d : Z) :
  (0 <= n)%Z -> (0 < d)%Z ->
  (0 <= Qround.Qceiling (inject_Z n / inject_Z d)
   /\ n <= Qround.Qceiling (inject_Z n / inject_Z d) * d)%Z.
Proof.
  intros Hn Hd.
  assert (Hdq : (inject_Z 0 < inject_Z d)%Q) by (rewrite <- Zlt_Qlt; exact Hd).
  assert (Hnq : (inject_Z 0 <= inject_Z n)%Q) by (rewrite <- Zle_Qle; exact Hn).
  split.
  - rewrite <- (Qround.Qceiling_Z 0). apply Qround.Qceiling_resp_le.
    apply Qle_shift_div_l; [exact Hdq|]. now rewrite Qmult_0_l.
  - pose proof (Qround.Qle_ceiling (inject_Z n / inject_Z d)) as H.
    apply (Qmult_le_r _ _ _ Hdq) in H.
    rewrite Zle_Qle, inject_Z_mult.
    assert (E : (inject_Z n / inject_Z d * inject_Z d == inject_Z n)%Q).
    { field. intros E0. rewrite E0 in Hdq. discriminate. }
    now rewrite E in H.
Qed.

Lemma suggestReviewSchedule_spec {F : Type} (u : string) (path : StudyPath.t F)
  (d : Z) :
  StudyPath.time_remaining_days path = inject_Z d ->
  let ordered := StudyPath.ordered_concepts path in
  let schedule := suggestReviewSchedule u path in
  let perSession :=
    Qround.Qceiling (inject_Z (Z.of_nat (length ordered)) / inject_Z d) in
  ((d <= 0)%Z -> schedule = [])
  /\ ((0 < d)%Z -> concat (map Session.concepts schedule) = ordered)
  /\ map Session.date schedule = seq 0 (length schedule)
  /\ (Z.of_nat (length schedule) <= Z.max 0 d)%Z
  /\ (forall s, In s schedule ->
        Session.concepts s <> []
        /\ (Z.of_nat (length (Session.concepts s)) <= perSession)%Z
        /\ Session.concepts s
           = sliceBetween ordered
               (Session.date s * Z.to_nat perSession)
               (Nat.min (Session.date s * Z.to_nat perSession + Z.to_nat perSession)
                  (length ordered))).
Proof.
  intros Hdays. cbv zeta. unfold suggestReviewSchedule. rewrite Hdays.
  rewrite Qround.Qceiling_Z.
  set (c := Z.to_nat
              (Qround.Qceiling
                 (inject_Z (Z.of_nat (length (StudyPath.ordered_concepts path)))
                  / inject_Z d))).
  cbv zeta.
  destruct (sessions_dates (StudyPath.ordered_concepts path) c (Z.to_nat d))
    as (Hdates & Hlen & _).
  split; [|split; [|split; [|split]]].
  - intros Hd. replace (Z.to_nat d) with 0 by lia. reflexivity.
  - intros Hd.
    rewrite (sessions_concat (StudyPath.ordered_concepts path) c (Z.to_nat d)).
    apply firstn_all2.
    destruct (ceiling_quotient
                (Z.of_nat (length (StudyPath.ordered_concepts path))) d)
      as [Hq0 Hq]; [lia | exact Hd|].
    unfold c. nia.
  - exact Hdates.
  - lia.
  - intros s Hs.
    destruct (sessions_each (StudyPath.ordered_concepts path) c (Z.to_nat d) s Hs)
      as (Hne & Hle & Heq).
    split; [exact Hne|]. split; [|exact Heq].
    assert (Hpos : 0 < length (Session.concepts s)).
    { destruct (Session.concepts s); [now elim Hne | apply Nat.lt_0_succ]. }
    unfold c in Hle. lia.
Qed.

(** X18.  For a path whose [time_remaining_days] is a whole number [d],
    [suggestReviewSchedule] returns no session when [d <= 0]; when [d > 0] the
    sessions, read in order, hold the ordered concepts of the path, each once
    and in the order of the path.  The sessions fall on consecutive days from
    the day of the call on, there are at most [d] of them, none is empty and
    none holds more than [ceil(length / d)] concepts. *)
Theorem suggestReviewSchedule_covers (F : Type) (u : string)
  (path : StudyPath.t F) (d : Z) :
  StudyPath.time_remaining_days path = inject_Z d ->
  let ordered := StudyPath.ordered_concepts path in
  let schedule := suggestReviewSchedule u path in
  let perSession :=
    Qround.Qceiling (inject_Z (Z.of_nat (length ordered)) / inject_Z d) in
  ((d <= 0)%Z -> schedule = [])
  /\ ((0 < d)%Z -> concat (map Session.concepts schedule) = ordered)
  /\ map Session.date schedule = seq 0 (length schedule)
  /\ (Z.of_nat (length schedule) <= Z.max 0 d)%Z
  /\ (forall s, In s schedule ->
        Session.concepts s <> []
        /\ (Z.of_nat (length (Session.concepts s)) <= perSession)%Z
        /\ Session.concepts s
           = sliceBetween ordered
               (Session.date s * Z.to_nat perSession)
               (Nat.min (Session.date s * Z.to_nat perSession + Z.to_nat perSession)
                  (length ordered))).
Proof. exact (suggestReviewSchedule_spec u path d). Qed.

Lemma suggestReviewSchedule_covers_witness :
  StudyPath.time_remaining_days fiveInThreeDays = inject_Z 3
  /\ suggestReviewSchedule "u" fiveInThreeDays
     = [ {| Session.date := 0; Session.concepts := ["A"; "B"] |};
         {| Session.date := 1; Session.concepts := ["C"; "D"] |};
         {| Session.date := 2; Session.concepts := ["E"] |} ]
  /\ concat (map Session.concepts (suggestReviewSchedule "u" fiveInThreeDays))
     = ["A"; "B"; "C"; "D"; "E"].
Proof.
  split; [reflexivity|]. split; [reflexivity|].
  apply (suggestReviewSchedule_covers unit "u" fiveInThreeDays 3 eq_refl).
  reflexivity.
Defined.

(** ** ExamEngine: the exam subgraph and the study plan *)

Lemma In_examConcepts_set profile (includeOptional : bool) (c : string) :
  In c (if includeOptional
        then JSSet.addAll (JSSet.ofList (ExamProfile.required_concepts profile))
               (ExamProfile.optional_concepts profile)
        else JSSet.ofList (ExamProfile.required_concepts profile))
  <-> In c (examConcepts profile includeOptional).
Proof.
  unfold examConcepts. rewrite in_app_iff.
  destruct includeOptional.
  - now rewrite In_addAll, In_ofList.
  - rewrite In_ofList. simpl. tauto.
Qed.

Lemma NoDup_examConcepts_set profile (includeOptional : bool) :
  NoDup (if includeOptional
         then JSSet.addAll (JSSet.ofList (ExamProfile.required_concepts profile))
                (ExamProfile.optional_concepts profile)
         else JSSet.ofList (ExamProfile.required_concepts profile)).
Proof.
  destruct includeOptional; [apply NoDup_addAll|]; apply NoDup_ofList.
Qed.

Lemma collect_from ops (conceptSet : list string) :
  forall s, NoDup s ->
    exists all,
      forOf
        (fun allPrereqs conceptId =>
           prereqs <- MathGraph.getAllPrerequisites (build ops) conceptId ;;
           Return (JSSet.addAll allPrereqs prereqs))
        conceptSet s = Return all
      /\ NoDup all
      /\ forall c, In c all
                   <-> In c s
                       \/ exists t, In t conceptSet /\ c <> t
                                    /\ Path (Requires ops) c t.
Proof.
  induction conceptSet as [|t ts IH]; intros s ND.
  - exists s. split; [reflexivity|]. split; [exact ND|].
    intros c. split; [now left|]. intros [H|(t & [] & _)]. exact H.
  - cbn [forOf].
    destruct (getAllPrerequisites_paths ops t) as (r & Hr & _ & _ & Hin).
    rewrite Hr. cbn [bind].
    destruct (IH (JSSet.addAll s r)) as (all & Hall & NDall & Hmem);
      [now apply NoDup_addAll|].
    exists all. split; [exact Hall|]. split; [exact NDall|].
    intros c. rewrite Hmem, In_addAll, Hin. split.
    + intros [[H|[Hne HP]]|(t' & Ht' & H)].
      * now left.
      * right. exists t. split; [now left | now split].
      * right. exists t'. split; [now right | exact H].
    + intros [H|(t' & [<-|Ht'] & Hne & HP)].
      * left. now left.
      * left. right. now split.
      * right. now exists t'.
Qed.

Lemma collectPrereqs_spec ops (conceptSet : list string) :
  exists allPrereqs,
    ExamEngine.collectPrereqs (build ops) conceptSet = Return allPrereqs
    /\ NoDup allPrereqs
    /\ forall c, In c allPrereqs
                 <-> exists t, In t conceptSet /\ c <> t /\ Path (Requires ops) c t.
Proof.
  unfold ExamEngine.collectPrereqs.
  destruct (collect_from ops conceptSet JSSet.empty) as (all & Hall & ND & Hmem);
    [constructor|].
  exists all. split; [exact Hall|]. split; [exact ND|].
  intros c. rewrite Hmem. split; [intros [[]|H]; exact H | now right].
Qed.

Lemma In_fold_add_allowed (excluded prereqs : list string) :
  forall s c,
    In c (fold_left
            (fun allPrereqs p =>
               if negb (includes excluded p) then JSSet.add allPrereqs p
               else allPrereqs) prereqs s)
    <-> In c s \/ (In c prereqs /\ ~ In c excluded).
Proof.
  induction prereqs as [|p ps IH]; intros s c; simpl; [tauto|].
  rewrite IH. destruct (includes excluded p) eqn:E; simpl.
  - apply includes_In in E. split; [tauto|].
    intros [H|[[<-|H] Hn]]; [tauto | now elim Hn | tauto].
  - apply has_false in E. rewrite In_add. split.
    + intros [[H| ->]|H]; [now left | right; split; [now left | exact E] | tauto].
    + intros [H|[[<-|H] Hn]]; auto.
Qed.

Lemma NoDup_fold_add_allowed (excluded prereqs : list string) :
  forall s, NoDup s ->
    NoDup (fold_left
             (fun allPrereqs p =>
                if negb (includes excluded p) then JSSet.add allPrereqs p
                else allPrereqs) prereqs s).
Proof.
  induction prereqs as [|p ps IH]; intros s ND; simpl; [exact ND|].
  apply IH. destruct (negb (includes excluded p)); [now apply NoDup_add | exact ND].
Qed.

Lemma collectAllowedPrereqs_spec ops profile (allConcepts : list string) :
  exists allPrereqs,
    ExamEngine.collectAllowedPrereqs (build ops) profile allConcepts
    = Return allPrereqs
    /\ NoDup allPrereqs
    /\ forall c, In c allPrereqs
                 <-> ~ In c (ExamProfile.excluded_concepts profile)
                     /\ exists t, In t allConcepts /\ c <> t
                                  /\ Path (Requires ops) c t.
Proof.
  unfold ExamEngine.collectAllowedPrereqs.
  set (excluded := ExamProfile.excluded_concepts profile).
  assert (Hloop : forall s, NoDup s ->
            exists all,
              forOf
                (fun allPrereqs conceptId =>
                   prereqs <- MathGraph.getAllPrerequisites (build ops) conceptId ;;
                   Return
                     (fold_left
                        (fun allPrereqs p =>
                           if negb (includes excluded p)
                           then JSSet.add allPrereqs p else allPrereqs)
                        prereqs allPrereqs))
                allConcepts s = Return all
              /\ NoDup all
              /\ forall c, In c all
                           <-> In c s
                               \/ (~ In c excluded
                                   /\ exists t, In t allConcepts /\ c <> t
                                                /\ Path (Requires ops) c t)).
  { induction allConcepts as [|t ts IH]; intros s ND.
    - exists s. split; [reflexivity|]. split; [exact ND|].
      intros c. split; [now left|]. intros [H|(_ & t & [] & _)]. exact H.
    - cbn [forOf].
      destruct (getAllPrerequisites_paths ops t) as (r & Hr & _ & _ & Hin).
      rewrite Hr. cbn [bind].
      destruct (IH (fold_left
                      (fun allPrereqs p =>
                         if negb (includes excluded p)
                         then JSSet.add allPrereqs p else allPrereqs) r s))
        as (all & Hall & NDall & Hmem); [now apply NoDup_fold_add_allowed|].
      exists all. split; [exact Hall|]. split; [exact NDall|].
      intros c. rewrite Hmem, In_fold_add_allowed, Hin. split.
      + intros [[H|[[Hne HP] Hx]]|(Hx & t' & Ht' & H)].
        * now left.
        * right. split; [exact Hx|]. exists t. split; [now left | now split].
        * right. split; [exact Hx|]. exists t'. split; [now right | exact H].
      + intros [H|(Hx & t' & [<-|Ht'] & Hne & HP)].
        * left. now left.
        * left. right. split; [now split | exact Hx].
        * right. split; [exact Hx|]. now exists t'. }
  destruct (Hloop JSSet.empty) as (all & Hall & ND & Hmem); [constructor|].
  exists all. split; [exact Hall|]. split; [exact ND|].
  intros c. rewrite Hmem. split; [intros [[]|H]; exact H | now right].
Qed.

Lemma InClosure_iff ops targets c :
  InClosure ops targets c
  <-> In c targets
      \/ exists t, In t targets /\ c <> t /\ Path (Requires ops) c t.
Proof.
  unfold InClosure. split.
  - intros [H|(t & Ht & HP)]; [now left|].
    destruct (string_dec c t) as [->|Hne]; [now left|]. right. now exists t.
  - intros [H|(t & Ht & _ & HP)]; [now left | right; now exists t].
Qed.

Lemma getExamSubgraph_spec ops eng examId includeOptional :
  exists sub,
    ExamEngine.getExamSubgraph eng (build ops) examId includeOptional = Return sub
    /\ match ExamEngine.getProfile eng examId with
       | None => sub = MathGraph.new
       | Some profile =>
           exists filtered,
             sub = MathGraph.getSubgraph (build ops) filtered
             /\ NoDup filtered
             /\ (forall c, In c filtered
                           <-> InClosure ops (examConcepts profile includeOptional) c
                               /\ ~ In c (ExamProfile.excluded_concepts profile))
             /\ (forall i, MathGraph.getNode sub i
                           = if includes filtered i
                             then MathGraph.getNode (build ops) i else None)
             /\ (forall a, MathGraph.getOutgoingEdges sub a
                           = if includes filtered a
                             then filter (fun e => includes filtered (GraphEdge.to e))
                                    (MathGraph.getOutgoingEdges (build ops) a)
                             else [])
             /\ (forall a b, In a (MathGraph.getPrerequisites sub b)
                             <-> RequiresWithin ops filtered a b)
       end.
Proof.
  unfold ExamEngine.getExamSubgraph.
  destruct (ExamEngine.getProfile eng examId) as [profile|];
    [|now exists MathGraph.new].
  set (conceptSet := if includeOptional
                     then JSSet.addAll
                            (JSSet.ofList (ExamProfile.required_concepts profile))
                            (ExamProfile.optional_concepts profile)
                     else JSSet.ofList (ExamProfile.required_concepts profile)).
  destruct (collectPrereqs_spec ops conceptSet) as (allPrereqs & Hrun & ND & Hmem).
  rewrite Hrun. cbn [bind].
  set (filtered := filter _ (JSSet.addAll conceptSet allPrereqs)).
  exists (MathGraph.getSubgraph (build ops) filtered). split; [reflexivity|].
  exists filtered. split; [reflexivity|].
  assert (NDf : NoDup filtered).
  { apply NoDup_filter, NoDup_addAll, NoDup_examConcepts_set. }
  split; [exact NDf|]. split; [|split; [|split]].
  - intros c. unfold filtered. rewrite filter_In, In_addAll, negb_true_iff.
    rewrite InClosure_iff, Hmem. unfold includes. rewrite has_false.
    unfold conceptSet. setoid_rewrite In_examConcepts_set. tauto.
  - intros i. apply getNode_getSubgraph.
  - intros a. rewrite getOutgoingEdges_getSubgraph.
    assert (Hkept : keptEdges (build ops) filtered a
                    = filter (fun e => includes filtered (GraphEdge.to e))
                        (MathGraph.getOutgoingEdges (build ops) a)).
    { unfold keptEdges. apply filter_ext_in. intros e _. unfold includes.
      destruct (JSSet.has filtered (GraphEdge.to e)) eqn:E.
      - apply has_In, In_ofList. now apply has_In.
      - apply has_false. rewrite In_ofList. now apply has_false. }
    rewrite Hkept. unfold includes.
    destruct (JSSet.has filtered a) eqn:E.
    + apply has_In in E.
      rewrite (proj1 (NoDup_count_occ' string_dec filtered) NDf a E).
      simpl. apply app_nil_r.
    + apply has_false in E.
      now rewrite (proj1 (count_occ_not_In string_dec filtered a) E).
  - intros a b. rewrite getSubgraph_build, In_getPrerequisites.
    apply Requires_getSubgraph.
Qed.

(** X19.  [getExamSubgraph] returns an empty graph for an unknown exam.
    Otherwise it returns the subgraph induced by the concepts the exam asks
    for (the required ones, with the optional ones on request) and all their
    prerequisites, minus every excluded concept, required or not: a node
    record, an edge of any type and a REQUIRES relation of the graph is kept
    exactly when all the IDs involved are among these, and no edge is
    doubled. *)
Theorem getExamSubgraph_induced (ops : list Op) (eng : ExamEngine.t)
  (examId : string) (includeOptional : bool) :
  exists sub,
    ExamEngine.getExamSubgraph eng (build ops) examId includeOptional = Return sub
    /\ match ExamEngine.getProfile eng examId with
       | None => sub = MathGraph.new
       | Some profile =>
           exists filtered,
             sub = MathGraph.getSubgraph (build ops) filtered
             /\ NoDup filtered
             /\ (forall c, In c filtered
                           <-> InClosure ops (examConcepts profile includeOptional) c
                               /\ ~ In c (ExamProfile.excluded_concepts profile))
             /\ (forall i, MathGraph.getNode sub i
                           = if includes filtered i
                             then MathGraph.getNode (build ops) i else None)
             /\ (forall a, MathGraph.getOutgoingEdges sub a
                           = if includes filtered a
                             then filter (fun e => includes filtered (GraphEdge.to e))
                                    (MathGraph.getOutgoingEdges (build ops) a)
                             else [])
             /\ (forall a b, In a (MathGraph.getPrerequisites sub b)
                             <-> RequiresWithin ops filtered a b)
       end.
Proof. exact (getExamSubgraph_spec ops eng examId includeOptional). Qed.

Lemma has_ofList l c : JSSet.has (JSSet.ofList l) c = includes l c.
Proof.
  unfold includes. destruct (JSSet.has l c) eqn:E.
  - apply has_In, In_ofList. now apply has_In.
  - apply has_false. rewrite In_ofList. now apply has_false.
Qed.

Lemma getStudyPlan_spec ops eng examId (knownConcepts : JSSet.t) includeOptional :
  exists plan,
    ExamEngine.getStudyPlan eng (build ops) examId knownConcepts includeOptional
    = Return plan
    /\ match ExamEngine.getProfile eng examId with
       | None =>
           plan = {| ExamEngine.ordered := []; ExamEngine.required := [];
                     ExamEngine.optional := []; ExamEngine.gaps := [];
                     ExamEngine.totalConcepts := 0 |}
       | Some profile =>
           let asked := examConcepts profile includeOptional in
           let required := ExamProfile.required_concepts profile in
           let optional := ExamProfile.optional_concepts profile in
           let excluded := ExamProfile.excluded_concepts profile in
           let ordered := ExamEngine.ordered plan in
           exists toStudy,
             NoDup toStudy
             /\ (forall c, In c toStudy
                           <-> (In c asked
                                \/ (InClosure ops asked c /\ ~ In c excluded))
                               /\ ~ In c knownConcepts)
             /\ NoDup ordered
             /\ topologicalOn ops toStudy ordered
             /\ (forall c, In c ordered
                           <-> In c toStudy
                               /\ ~ exists x,
                                      Path (RequiresWithin ops toStudy) x x
                                      /\ Reaches (RequiresWithin ops toStudy) x c)
             /\ ExamEngine.required plan = filter (includes required) ordered
             /\ ExamEngine.optional plan = filter (includes optional) ordered
             /\ ExamEngine.gaps plan
                = filter (fun c => negb (includes required c)
                                   && negb (includes optional c)) ordered
             /\ ExamEngine.totalConcepts plan = length ordered
             /\ (forall c, In c (ExamEngine.gaps plan) ->
                   ~ In c excluded /\ InClosure ops asked c /\ ~ In c asked)
       end.
Proof.
  unfold ExamEngine.getStudyPlan.
  destruct (ExamEngine.getProfile eng examId) as [profile|];
    [|eexists; split; reflexivity].
  set (allConcepts :=
         if includeOptional
         then JSSet.addAll
                (JSSet.addAll JSSet.empty (ExamProfile.required_concepts profile))
                (ExamProfile.optional_concepts profile)
         else JSSet.addAll JSSet.empty (ExamProfile.required_concepts profile)).
  assert (Hasked : forall c, In c allConcepts
                     <-> In c (examConcepts profile includeOptional)).
  { intros c. apply In_examConcepts_set. }
  destruct (collectAllowedPrereqs_spec ops profile allConcepts)
    as (allPrereqs & Hrun & NDp & Hmem).
  rewrite Hrun. cbn [bind].
  set (toStudy := filter (fun id => negb (JSSet.has knownConcepts id))
                    (JSSet.ofList (allConcepts ++ allPrereqs))).
  destruct (topologicalSort_members ops toStudy)
    as (out & Hout & NDout & Htopo & Hout_mem).
  rewrite Hout. cbn [bind]. eexists. split; [reflexivity|].
  cbv zeta. cbn [ExamEngine.ordered ExamEngine.required ExamEngine.optional
                 ExamEngine.gaps ExamEngine.totalConcepts].
  assert (HtoStudy : forall c, In c toStudy
            <-> (In c (examConcepts profile includeOptional)
                 \/ (InClosure ops (examConcepts profile includeOptional) c
                     /\ ~ In c (ExamProfile.excluded_concepts profile)))
                /\ ~ In c knownConcepts).
  { intros c. unfold toStudy.
    rewrite filter_In, In_ofList, in_app_iff, negb_true_iff, has_false.
    rewrite Hmem, InClosure_iff. setoid_rewrite Hasked. tauto. }
  exists toStudy. split; [apply NoDup_filter, NoDup_ofList|].
  split; [exact HtoStudy|]. split; [exact NDout|]. split; [exact Htopo|].
  split; [exact Hout_mem|].
  split; [apply filter_ext; intros c; apply has_ofList|].
  split; [apply filter_ext; intros c; apply has_ofList|].
  split; [apply filter_ext; intros c; now rewrite !has_ofList|].
  split; [reflexivity|].
  intros c Hc. apply filter_In in Hc. destruct Hc as [Hc Hnot].
  rewrite !has_ofList in Hnot.
  apply andb_true_iff in Hnot. destruct Hnot as [Hr Ho].
  apply negb_true_iff, has_false in Hr. apply negb_true_iff, has_false in Ho.
  assert (Hna : ~ In c (examConcepts profile includeOptional)).
  { unfold examConcepts. rewrite in_app_iff. intros [H|H]; [now apply Hr|].
    destruct includeOptional; [now apply Ho | destruct H]. }
  apply Hout_mem in Hc. destruct Hc as [Hc _]. apply HtoStudy in Hc.
  destruct Hc as [[Hc|[Hc Hx]] _]; [now elim Hna|]. auto.
Qed.

(** X20.  [getStudyPlan] returns the empty plan for an unknown exam.
    Otherwise [ordered] is drawn from the concepts the exam asks for and
    those of their prerequisites that the profile does not exclude, without
    the known ones: each of these once, a prerequisite before what requires
    it, and those on or behind a REQUIRES cycle among them left out.  A
    concept the exam asks for stays in the plan even when the profile excludes
    it.  [required], [optional] and [gaps] are the members of [ordered] that
    are required, optional or neither; a gap is never an excluded concept. *)
Theorem getStudyPlan_plan (ops : list Op) (eng : ExamEngine.t) (examId : string)
  (knownConcepts : JSSet.t) (includeOptional : bool) :
  exists plan,
    ExamEngine.getStudyPlan eng (build ops) examId knownConcepts includeOptional
    = Return plan
    /\ match ExamEngine.getProfile eng examId with
       | None =>
           plan = {| ExamEngine.ordered := []; ExamEngine.required := [];
                     ExamEngine.optional := []; ExamEngine.gaps := [];
                     ExamEngine.totalConcepts := 0 |}
       | Some profile =>
           let asked := examConcepts profile includeOptional in
           let required := ExamProfile.required_concepts profile in
           let optional := ExamProfile.optional_concepts profile in
           let excluded := ExamProfile.excluded_concepts profile in
           let ordered := ExamEngine.ordered plan in
           exists toStudy,
             NoDup toStudy
             /\ (forall c, In c toStudy
                           <-> (In c asked
                                \/ (InClosure ops asked c /\ ~ In c excluded))
                               /\ ~ In c knownConcepts)
             /\ NoDup ordered
             /\ topologicalOn ops toStudy ordered
             /\ (forall c, In c ordered
                           <-> In c toStudy
                               /\ ~ exists x,
                                      Path (RequiresWithin ops toStudy) x x
                                      /\ Reaches (RequiresWithin ops toStudy) x c)
             /\ ExamEngine.required plan = filter (includes required) ordered
             /\ ExamEngine.optional plan = filter (includes optional) ordered
             /\ ExamEngine.gaps plan
                = filter (fun c => negb (includes required c)
                                   && negb (includes optional c)) ordered
             /\ ExamEngine.totalConcepts plan = length ordered
             /\ (forall c, In c (ExamEngine.gaps plan) ->
                   ~ In c excluded /\ InClosure ops asked c /\ ~ In c asked)
       end.
Proof. exact (getStudyPlan_spec ops eng examId knownConcepts includeOptional). Qed.

(** ** [generateExamStudyPath] *)

Lemma generateExamStudyPath_spec (D : Doubles.t) gops pops examEngine u examId
  days includeOptional :
  let eng := record pops in
  let sp := {| StudyPlanner.graph := build gops;
               StudyPlanner.diagnosticsEngine := eng |} in
  let confidence := DiagnosticsEngine.getConfidence eng u in
  exists r,
    generateExamStudyPath D sp examEngine u examId days includeOptional = Return r
    /\ match ExamEngine.getProfile examEngine examId with
       | None => r = None
       | Some profile =>
           exists plan path,
             ExamEngine.getStudyPlan examEngine (build gops) examId
               (DiagnosticsEngine.getKnownConcepts eng u literal_0_7)
               includeOptional = Return plan
             /\ generateStudyPath D eng u (build gops) (ExamEngine.ordered plan)
                  days examId (CurriculumSystem_name (ExamProfile.system profile))
                  (ExamProfile.year_level profile) = Return path
             /\ r = Some path
             /\ (forall c, In c (ExamEngine.ordered plan) ->
                   (confidence c < literal_0_7)%Q)
             /\ (forall c, In c (StudyPath.ordered_concepts path) ->
                   InClosure gops (ExamEngine.ordered plan) c
                   /\ (confidence c < literal_0_7)%Q)
             /\ (~ Cyclic (Requires gops) ->
                 forall c, InClosure gops (ExamEngine.ordered plan) c ->
                   (confidence c < literal_0_7)%Q ->
                   In c (StudyPath.ordered_concepts path))
       end.
Proof.
  cbv zeta. unfold generateExamStudyPath.
  cbn [StudyPlanner.graph StudyPlanner.diagnosticsEngine].
  destruct (getStudyPlan_spec gops examEngine examId
              (DiagnosticsEngine.getKnownConcepts (record pops) u literal_0_7)
              includeOptional) as (plan & Hplan & Hfacts).
  destruct (ExamEngine.getProfile examEngine examId) as [profile|];
    [|now exists None].
  rewrite Hplan. cbn [bind].
  destruct (generateStudyPath_spec D gops (record pops) u (ExamEngine.ordered plan)
              days examId (CurriculumSystem_name (ExamProfile.system profile))
              (ExamProfile.year_level profile))
    as (gaps & path & _ & Hpath & Hp).
  rewrite Hpath. cbn [bind]. exists (Some path). split; [reflexivity|].
  exists plan, path. split; [reflexivity|]. split; [exact Hpath|].
  split; [reflexivity|].
  cbv zeta in Hfacts, Hp.
  destruct Hfacts as (toStudy & _ & HtoStudy & _ & _ & Hord & _).
  destruct Hp as (_ & _ & _ & _ & _ & _ & _ & Hstudy & _ & _ & Hmem & _).
  split; [|split].
  - intros c Hc. apply Hord in Hc. destruct Hc as [Hc _].
    apply HtoStudy in Hc. destruct Hc as [_ Hunknown].
    apply Qnot_le_lt. intros Hle. apply Hunknown. apply has_In.
    apply known_iff; [apply progressConsistent_record | apply literal_0_7_pos|].
    exact Hle.
  - intros c Hc. apply Hmem in Hc. destruct Hc as [Hc _].
    apply Hstudy in Hc. exact Hc.
  - intros Hacyclic c Hc Hlow. apply Hmem. split.
    + apply Hstudy. split; [exact Hc | exact Hlow].
    + intros (x & Hx & _). apply Hacyclic. exists x.
      revert Hx. apply Path_ext. intros a b H. apply H.
Qed.


(** ** [optimizeStudyOrder]: what is ordered *)

Lemma toStudyOf_spec gops pops u targetConcepts :
  let eng := record pops in
  let sp := {| StudyPlanner.graph := build gops;
               StudyPlanner.diagnosticsEngine := eng |} in
  exists toStudy,
    StudyPlanner.toStudyOf sp u targetConcepts = Return toStudy
    /\ NoDup toStudy
    /\ forall c, In c toStudy
                 <-> InClosure gops targetConcepts c
                     /\ (DiagnosticsEngine.getConfidence eng u c < literal_0_7)%Q.
Proof.
  cbv zeta. unfold StudyPlanner.toStudyOf.
  cbn [StudyPlanner.graph StudyPlanner.diagnosticsEngine].
  destruct (collect_from gops targetConcepts (JSSet.ofList targetConcepts))
    as (all & Hall & ND & Hmem); [apply NoDup_ofList|].
  rewrite Hall. cbn [bind]. eexists. split; [reflexivity|].
  split; [now apply NoDup_filter|].
  intros c. rewrite filter_In, negb_true_iff, Hmem, In_ofList, InClosure_iff.
  assert (Hk : JSSet.has
                 (DiagnosticsEngine.getKnownConcepts (record pops) u
                    StudyPlanner.knownThreshold) c = false
               <-> (DiagnosticsEngine.getConfidence (record pops) u c
                    < literal_0_7)%Q).
  { change StudyPlanner.knownThreshold with literal_0_7.
    pose proof (known_iff (record pops) u literal_0_7
                  (progressConsistent_record pops) literal_0_7_pos c) as Hiff.
    destruct (JSSet.has _ c) eqn:E.
    - split; [discriminate|]. intros Hlt. exfalso.
      apply (Qlt_not_le _ _ Hlt). now apply Hiff.
    - split; [|reflexivity]. intros _. apply Qnot_le_lt. intros Hle.
      apply Hiff in Hle. discriminate. }
  now rewrite Hk.
Qed.

Lemma In_sort_weakFirst W l c : In c (sort (StudyPlanner.weakFirst W) l) <-> In c l.
Proof.
  rewrite (sort_weakFirst W l), in_app_iff, !filter_In.
  destruct (JSSet.has W c); simpl; intuition congruence.
Qed.

Lemma NoDup_sort_weakFirst W l : NoDup l -> NoDup (sort (StudyPlanner.weakFirst W) l).
Proof.
  intros ND. apply (Permutation_NoDup (l := l)); [|exact ND].
  symmetry. rewrite (sort_weakFirst W l). apply Permutation_partition.
Qed.


(** ** The table of exam profiles *)

Lemma fold_set_consistent {V : Type} (key : V -> string) (l : list V) :
  forall m : JSMap.t V,
    NoDup (JSMap.keys m) ->
    (forall k v, In (k, v) m -> key v = k) ->
    NoDup (JSMap.keys (fold_left (fun m v => JSMap.set m (key v) v) l m))
    /\ forall k v, In (k, v) (fold_left (fun m v => JSMap.set m (key v) v) l m) ->
                   key v = k.
Proof.
  induction l as [|x l IH]; intros m ND Hkey; [now split|].
  simpl. apply IH; [now apply NoDup_keys_set|].
  intros k v Hin. apply In_set in Hin. destruct Hin as [Heq|Hin].
  - now injection Heq as -> ->.
  - now apply Hkey.
Qed.

Lemma profiles_fromProfiles parsed :
  ExamEngine.profiles (ExamEngine.fromProfiles parsed)
  = fold_left (fun m p => JSMap.set m (ExamProfile.id p) p) parsed JSMap.empty.
Proof.
  unfold ExamEngine.fromProfiles.
  change (@JSMap.empty ExamProfile.t) with (ExamEngine.profiles ExamEngine.new).
  generalize ExamEngine.new.
  induction parsed as [|p ps IH]; intros eng; [reflexivity|].
  simpl. now rewrite IH.
Qed.

(** X23.  An exam engine filled by [addProfile] calls, as [fromJSON] fills
    it, holds one profile per ID: [getProfile(i)] is the profile that was
    added last under the ID [i], or [undefined] when there was none, and the
    profile it returns carries the ID asked for.  Loading the list of profiles
    that the engine holds gives the same engine again, so that [fromJSON]
    restores it whenever [JSON.parse] gives that list back. *)
Theorem ExamEngine_profiles (parsed : list ExamProfile.t) :
  let eng := ExamEngine.fromProfiles parsed in
  (forall i, ExamEngine.getProfile eng i
             = find (fun p => String.eqb (ExamProfile.id p) i) (rev parsed))
  /\ (forall i p, ExamEngine.getProfile eng i = Some p -> ExamProfile.id p = i)
  /\ NoDup (map ExamProfile.id (ExamEngine.profileList eng))
  /\ ExamEngine.fromProfiles (ExamEngine.profileList eng) = eng
  /\ (forall (JSON_parse : string -> option (list ExamProfile.t)) json,
        JSON_parse json = Some (ExamEngine.profileList eng) ->
        ExamEngine.fromJSON JSON_parse json = Some eng).
Proof.
  cbv zeta.
  destruct (fold_set_consistent ExamProfile.id parsed JSMap.empty)
    as [ND Hkey]; [constructor | intros k v []|].
  rewrite <- profiles_fromProfiles in ND, Hkey.
  assert (Hget : forall i,
             ExamEngine.getProfile (ExamEngine.fromProfiles parsed) i
             = find (fun p => String.eqb (ExamProfile.id p) i) (rev parsed)).
  { intros i. unfold ExamEngine.getProfile.
    rewrite profiles_fromProfiles, (get_fold_set ExamProfile.id).
    now destruct (find _ (rev parsed)). }
  assert (Hround : ExamEngine.fromProfiles
                     (ExamEngine.profileList (ExamEngine.fromProfiles parsed))
                   = ExamEngine.fromProfiles parsed).
  { destruct (ExamEngine.fromProfiles parsed) as [m] eqn:E.
    assert (Hm : ExamEngine.profiles
                   (ExamEngine.fromProfiles
                      (ExamEngine.profileList {| ExamEngine.profiles := m |}))
                 = m).
    { rewrite profiles_fromProfiles. unfold ExamEngine.profileList. simpl.
      apply (refill ExamProfile.id m JSMap.empty); [exact ND | exact Hkey]. }
    destruct (ExamEngine.fromProfiles
                (ExamEngine.profileList {| ExamEngine.profiles := m |})).
    simpl in Hm. now subst. }
  split; [exact Hget|]. split; [|split; [|split]].
  - intros i p Hp. apply get_Some_In in Hp. now apply Hkey.
  - unfold ExamEngine.profileList, JSMap.values. rewrite map_map.
    assert (Hmap : forall m : JSMap.t ExamProfile.t,
               (forall k v, In (k, v) m -> ExamProfile.id v = k) ->
               map (fun kv => ExamProfile.id (snd kv)) m = JSMap.keys m).
    { induction m as [|[k v] m IH]; intros H; [reflexivity|]. simpl.
      rewrite (H k v) by now left. f_equal. apply IH.
      intros k' v' Hin. apply H. now right. }
    rewrite Hmap; [exact ND | exact Hkey].
  - exact Hround.
  - intros JSON_parse json Hparse. unfold ExamEngine.fromJSON.
    now rewrite Hparse, Hround.
Qed.

(** ** [getStudyStats]: the counts *)

Lemma ofList_NoDup l : NoDup l -> JSSet.ofList l = l.
Proof.
  unfold JSSet.ofList, JSSet.addAll.
  assert (H : forall l s, NoDup (s ++ l) -> fold_left JSSet.add l s = s ++ l).
  { clear l. induction l as [|x l IH]; intros s ND; simpl;
      [now rewrite app_nil_r|].
    assert (Hx : JSSet.has s x = false).
    { apply has_false. intros Hin. apply NoDup_remove_2 in ND. apply ND.
      apply in_or_app. now left. }
    unfold JSSet.add at 2. rewrite Hx, IH; [now rewrite <- app_assoc|].
    now rewrite <- app_assoc. }
  intros ND. now apply (H l []).
Qed.

Lemma NoDup_concept_ids eng u :
  progressConsistent eng ->
  NoDup (map ConceptProgress.concept_id (DiagnosticsEngine.getUserProgress eng u)).
Proof.
  intros Hc. unfold DiagnosticsEngine.getUserProgress.
  destruct (JSMap.get (DiagnosticsEngine.progress eng) u) as [m|] eqn:E;
    [|constructor].
  destruct (Hc u m E) as [ND Hkey]. unfold JSMap.values. rewrite map_map.
  assert (Hmap : map (fun kv => ConceptProgress.concept_id (snd kv)) m
                 = JSMap.keys m).
  { clear ND E. induction m as [|[k v] m IH]; [reflexivity|]. simpl.
    rewrite (Hkey k v) by now left. f_equal. apply IH.
    intros k' v' Hin. apply Hkey. now right. }
  now rewrite Hmap.
Qed.

Lemma NoDup_map_filter {A : Type} (f : A -> string) (p : A -> bool) (l : list A) :
  NoDup (map f l) -> NoDup (map f (filter p l)).
Proof.
  induction l as [|x l IH]; intros ND; simpl; [constructor|].
  inversion ND as [|? ? Hx ND']; subst.
  destruct (p x); simpl; [|now apply IH].
  constructor; [|now apply IH]. intros Hin. apply Hx.
  apply in_map_iff in Hin. destruct Hin as (y & Hy & Hin).
  apply filter_In in Hin. apply in_map_iff. exists y. tauto.
Qed.

Lemma confidence_classes (l : list ConceptProgress.t) :
  length (filter (fun p => Qle_bool literal_0_7 (ConceptProgress.confidence p)) l)
  + length (filter (fun p => Qlt_bool 0 (ConceptProgress.confidence p)
                             && Qlt_bool (ConceptProgress.confidence p) literal_0_7) l)
  + length (filter (fun p => Qeq_bool (ConceptProgress.confidence p) 0) l)
  + length (filter (fun p => Qlt_bool (ConceptProgress.confidence p) 0) l)
  = length l.
Proof.
  induction l as [|p l IH]; [reflexivity|]. simpl.
  set (c := ConceptProgress.confidence p).
  assert (Hcase : (Qle_bool literal_0_7 c = true /\ Qlt_bool 0 c = true
                   /\ Qlt_bool c literal_0_7 = false /\ Qeq_bool c 0 = false
                   /\ Qlt_bool c 0 = false)
                  \/ (Qle_bool literal_0_7 c = false /\ Qlt_bool 0 c = true
                      /\ Qlt_bool c literal_0_7 = true /\ Qeq_bool c 0 = false
                      /\ Qlt_bool c 0 = false)
                  \/ (Qle_bool literal_0_7 c = false /\ Qlt_bool 0 c = false
                      /\ Qeq_bool c 0 = true /\ Qlt_bool c 0 = false)
                  \/ (Qle_bool literal_0_7 c = false /\ Qlt_bool 0 c = false
                      /\ Qeq_bool c 0 = false /\ Qlt_bool c 0 = true)).
  { pose proof literal_0_7_pos as Hpos.
    assert (Hle : forall a b, Qle_bool a b = false <-> (b < a)%Q).
    { intros a b. rewrite <- Qlt_bool_iff. unfold Qlt_bool.
      now rewrite negb_true_iff. }
    assert (Hlt : forall a b, Qlt_bool a b = false <-> (b <= a)%Q).
    { intros a b. unfold Qlt_bool. rewrite negb_false_iff. apply Qle_bool_iff. }
    assert (Heq : Qeq_bool c 0 = false <-> ~ (c == 0)%Q).
    { rewrite <- Qeq_bool_iff. destruct (Qeq_bool c 0); split; congruence. }
    destruct (Q_dec c 0) as [[Hneg|Hposc]|Hzero].
    - right. right. right. split; [|split; [|split]].
      + apply Hle. now apply Qlt_trans with 0%Q.
      + apply Hlt. now apply Qlt_le_weak.
      + apply Heq. intros E. rewrite E in Hneg. discriminate.
      + now apply Qlt_bool_iff.
    - destruct (Qlt_le_dec c literal_0_7) as [Hlow|Hhigh].
      + right. left. split; [now apply Hle|]. split; [now apply Qlt_bool_iff|].
        split; [now apply Qlt_bool_iff|]. split.
        * apply Heq. intros E. rewrite E in Hposc. discriminate.
        * apply Hlt. now apply Qlt_le_weak.
      + left. split; [now apply Qle_bool_iff|]. split; [now apply Qlt_bool_iff|].
        split; [now apply Hlt|]. split.
        * apply Heq. intros E. rewrite E in Hposc. discriminate.
        * apply Hlt. now apply Qlt_le_weak.
    - right. right. left. split; [|split; [|split]].
      + apply Hle. now rewrite Hzero.
      + apply Hlt. rewrite Hzero. apply Qle_refl.
      + now apply Qeq_bool_iff.
      + apply Hlt. rewrite Hzero. apply Qle_refl. }
  destruct Hcase as [H|[H|[H|H]]];
    repeat match goal with H : _ /\ _ |- _ => destruct H as [?E H] end;
    repeat match goal with E : _ = _ |- _ => rewrite E; clear E end;
    simpl; lia.
Qed.


(** ** CurriculumEngine *)

Lemma getSubgraph_NoDup ops (filtered : list string) :
  NoDup filtered ->
  let sub := MathGraph.getSubgraph (build ops) filtered in
  (forall i, MathGraph.getNode sub i
             = if includes filtered i then MathGraph.getNode (build ops) i else None)
  /\ (forall a, MathGraph.getOutgoingEdges sub a
                = if includes filtered a
                  then filter (fun e => includes filtered (GraphEdge.to e))
                         (MathGraph.getOutgoingEdges (build ops) a)
                  else [])
  /\ (forall a b, In a (MathGraph.getPrerequisites sub b)
                  <-> RequiresWithin ops filtered a b).
Proof.
  intros NDf. cbv zeta. split; [|split].
  - intros i. apply getNode_getSubgraph.
  - intros a. rewrite getOutgoingEdges_getSubgraph.
    assert (Hkept : keptEdges (build ops) filtered a
                    = filter (fun e => includes filtered (GraphEdge.to e))
                        (MathGraph.getOutgoingEdges (build ops) a)).
    { unfold keptEdges. apply filter_ext_in. intros e _. apply has_ofList. }
    rewrite Hkept. unfold includes.
    destruct (JSSet.has filtered a) eqn:E.
    + apply has_In in E.
      rewrite (proj1 (NoDup_count_occ' string_dec filtered) NDf a E).
      simpl. apply app_nil_r.
    + apply has_false in E.
      now rewrite (proj1 (count_occ_not_In string_dec filtered a) E).
  - intros a b. rewrite getSubgraph_build, In_getPrerequisites.
    apply Requires_getSubgraph.
Qed.

(** X25.  [getCurriculumSubgraph] returns an empty graph when the engine has
    no mapping under the key of the system and year.  Otherwise it returns the
    subgraph induced by the concepts of the mapping, together with all their
    prerequisites when [includePrerequisites] is set, minus the excluded
    concepts; the optional concepts of the mapping play no part. *)
Theorem getCurriculumSubgraph_induced (Number_toString : Q -> string)
  (ops : list Op) (eng : CurriculumEngine.t) (system : string) (yearLevel : Q)
  (includePrerequisites : bool) :
  exists sub,
    CurriculumEngine.getCurriculumSubgraph Number_toString eng (build ops)
      system yearLevel includePrerequisites = Return sub
    /\ match CurriculumEngine.getMapping Number_toString eng system yearLevel with
       | None => sub = MathGraph.new
       | Some mapping =>
           exists filtered,
             sub = MathGraph.getSubgraph (build ops) filtered
             /\ NoDup filtered
             /\ (forall c, In c filtered
                           <-> (In c (CurriculumMapping.concepts mapping)
                                \/ (includePrerequisites = true
                                    /\ exists t,
                                         In t (CurriculumMapping.concepts mapping)
                                         /\ Path (Requires ops) c t))
                               /\ ~ In c (CurriculumMapping.excluded_concepts mapping))
             /\ (forall i, MathGraph.getNode sub i
                           = if includes filtered i
                             then MathGraph.getNode (build ops) i else None)
             /\ (forall a, MathGraph.getOutgoingEdges sub a
                           = if includes filtered a
                             then filter (fun e => includes filtered (GraphEdge.to e))
                                    (MathGraph.getOutgoingEdges (build ops) a)
                             else [])
             /\ (forall a b, In a (MathGraph.getPrerequisites sub b)
                             <-> RequiresWithin ops filtered a b)
       end.
Proof.
  unfold CurriculumEngine.getCurriculumSubgraph.
  destruct (CurriculumEngine.getMapping Number_toString eng system yearLevel)
    as [mapping|]; [|now exists MathGraph.new].
  set (concepts := CurriculumMapping.concepts mapping).
  set (excluded := CurriculumMapping.excluded_concepts mapping).
  assert (Hset : exists conceptSet,
             (if includePrerequisites
              then
                allPrereqs <-
                  forOf
                    (fun allPrereqs conceptId =>
                       prereqs <- MathGraph.getAllPrerequisites (build ops) conceptId ;;
                       Return (JSSet.addAll allPrereqs prereqs))
                    concepts JSSet.empty ;;
                Return (JSSet.addAll (JSSet.ofList concepts) allPrereqs)
              else Return (JSSet.ofList concepts)) = Return conceptSet
             /\ NoDup conceptSet
             /\ forall c, In c conceptSet
                          <-> In c concepts
                              \/ (includePrerequisites = true
                                  /\ exists t, In t concepts
                                               /\ Path (Requires ops) c t)).
  { destruct includePrerequisites.
    - destruct (collect_from ops concepts JSSet.empty)
        as (all & Hall & ND & Hmem); [constructor|].
      rewrite Hall. cbn [bind]. eexists. split; [reflexivity|].
      split; [apply NoDup_addAll, NoDup_ofList|].
      intros c. rewrite In_addAll, In_ofList, Hmem. split.
      + intros [H|[[]|(t & Ht & _ & HP)]]; [now left|].
        right. split; [reflexivity|]. now exists t.
      + intros [H|(_ & t & Ht & HP)]; [now left|].
        destruct (string_dec c t) as [->|Hne]; [now left|].
        right. right. now exists t.
    - eexists. split; [reflexivity|]. split; [apply NoDup_ofList|].
      intros c. rewrite In_ofList. split; [now left|].
      intros [H|[H _]]; [exact H | discriminate]. }
  destruct Hset as (conceptSet & Hrun & ND & Hmem).
  rewrite Hrun. cbn [bind].
  set (filtered := filter (fun id => negb (includes excluded id)) conceptSet).
  assert (NDf : NoDup filtered) by now apply NoDup_filter.
  exists (MathGraph.getSubgraph (build ops) filtered). split; [reflexivity|].
  exists filtered. split; [reflexivity|]. split; [exact NDf|]. split.
  - intros c. unfold filtered. rewrite filter_In, negb_true_iff, Hmem.
    unfold includes. now rewrite has_false.
  - exact (getSubgraph_NoDup ops filtered NDf).
Qed.

Lemma split_fold (p : string -> bool) (l : list string) :
  forall acc,
    fold_left
      (fun acc c => if p c then (fst acc ++ [c], snd acc)
                    else (fst acc, snd acc ++ [c])) l acc
    = (fst acc ++ filter p l, snd acc ++ filter (fun c => negb (p c)) l).
Proof.
  induction l as [|x l IH]; intros [a b]; simpl; [now rewrite !app_nil_r|].
  rewrite IH. destruct (p x); simpl; now rewrite <- app_assoc.
Qed.

Lemma keep_fold (p : string -> bool) (l : list string) :
  forall acc,
    fold_left (fun acc c => if p c then acc ++ [c] else acc) l acc
    = acc ++ filter p l.
Proof.
  induction l as [|x l IH]; intros acc; simpl; [now rewrite app_nil_r|].
  rewrite IH. destruct (p x); simpl; [now rewrite <- app_assoc | reflexivity].
Qed.

(** X26.  [comparePrograms] splits the concepts of two programs (required and
    optional ones, none for a program without a mapping) into three lists
    without repetitions: [shared] holds the concepts of both programs, [only1]
    those of the first that the second lacks, [only2] those of the second that
    the first lacks. *)
Theorem comparePrograms_partition (Number_toString : Q -> string)
  (eng : CurriculumEngine.t) (system1 : string) (year1 : Q)
  (system2 : string) (year2 : Q) :
  let all1 := CurriculumEngine.getAllConcepts Number_toString eng system1 year1 in
  let all2 := CurriculumEngine.getAllConcepts Number_toString eng system2 year2 in
  let r := CurriculumEngine.comparePrograms Number_toString eng
             system1 year1 system2 year2 in
  NoDup (CurriculumEngine.shared r ++ CurriculumEngine.only1 r
         ++ CurriculumEngine.only2 r)
  /\ (forall c, In c (CurriculumEngine.shared r) <-> In c all1 /\ In c all2)
  /\ (forall c, In c (CurriculumEngine.only1 r) <-> In c all1 /\ ~ In c all2)
  /\ (forall c, In c (CurriculumEngine.only2 r) <-> In c all2 /\ ~ In c all1).
Proof.
  cbv zeta. unfold CurriculumEngine.comparePrograms.
  set (all1 := CurriculumEngine.getAllConcepts Number_toString eng system1 year1).
  set (all2 := CurriculumEngine.getAllConcepts Number_toString eng system2 year2).
  rewrite split_fold, keep_fold.
  cbn [CurriculumEngine.shared CurriculumEngine.only1 CurriculumEngine.only2
       fst snd app].
  assert (Hs : forall c, In c (filter (fun c => JSSet.has (JSSet.ofList all2) c)
                                 (JSSet.ofList all1))
                         <-> In c all1 /\ In c all2).
  { intros c. now rewrite filter_In, In_ofList, has_In, In_ofList. }
  assert (H1 : forall c, In c (filter (fun c => negb (JSSet.has (JSSet.ofList all2) c))
                                 (JSSet.ofList all1))
                         <-> In c all1 /\ ~ In c all2).
  { intros c.
    now rewrite filter_In, In_ofList, negb_true_iff, has_false, In_ofList. }
  assert (H2 : forall c, In c (filter (fun c => negb (JSSet.has (JSSet.ofList all1) c))
                                 (JSSet.ofList all2))
                         <-> In c all2 /\ ~ In c all1).
  { intros c.
    now rewrite filter_In, In_ofList, negb_true_iff, has_false, In_ofList. }
  split; [|split; [exact Hs | split; [exact H1 | exact H2]]].
  apply NoDup_app; [apply NoDup_filter, NoDup_ofList | |].
  - apply NoDup_app; [apply NoDup_filter, NoDup_ofList
                     | apply NoDup_filter, NoDup_ofList|].
    intros c Hc1 Hc2. apply H1 in Hc1. apply H2 in Hc2. tauto.
  - intros c Hc Hc'. apply Hs in Hc. apply in_app_or in Hc'.
    destruct Hc' as [Hc'|Hc']; [apply H1 in Hc' | apply H2 in Hc']; tauto.
Qed.


(** ** [generateStudyPath]: the hours *)

Lemma fold_left_ext_in {A B : Type} (f g : A -> B -> A) (l : list B) :
  (forall a x, In x l -> f a x = g a x) ->
  forall a, fold_left f l a = fold_left g l a.
Proof.
  induction l as [|x l IH]; intros H a; [reflexivity|]. simpl.
  rewrite (H a x) by now left. apply IH. intros a' y Hy. apply H. now right.
Qed.

(** What [confidenceMap[conceptId] || 0] reads for a concept of the path. *)
Lemma confidenceDiscountOf_ordered (D : Doubles.t) (f : string -> Q)
  (ordered : list string) c :
  In c ordered ->
  confidenceDiscountOf D
    (fold_left (fun o x => objectSet o x (f x)) ordered JSMap.empty) c
  = if String.eqb c "__proto__" then Doubles.nan D else Doubles.ofQ D (f c).
Proof.
  intros Hc. unfold confidenceDiscountOf. rewrite get_confidenceMap.
  apply includes_In in Hc. rewrite Hc. simpl.
  now destruct (String.eqb c "__proto__").
Qed.

Section ExactHours.
Variable D : Doubles.t.
Variable val : Doubles.F D -> Q.
Hypothesis exact : Exact D val.

Lemma val_hoursTerm complexity confidence :
  (val (hoursTerm D complexity (Doubles.ofQ D confidence))
   == nominalHours complexity * discountFactor confidence)%Q.
Proof.
  unfold hoursTerm, nominalHours, discountFactor.
  rewrite (val_mul D val exact), (val_mul D val exact), (val_add D val exact).
  rewrite (val_sub D val exact), (val_mul D val exact).
  rewrite (val_div D val exact);
    [|rewrite (val_ofQ D val exact); discriminate].
  rewrite !(val_ofQ D val exact). reflexivity.
Qed.

Lemma val_totalHours g (conf : string -> Q) (l : list string) :
  forall (total : Doubles.F D) (sum : Q),
    (val total == sum)%Q ->
    (val (fold_left
            (fun total c =>
               match MathGraph.getNode g c with
               | Some node =>
                   Doubles.add D total
                     (hoursTerm D (MathNode.complexity node)
                        (Doubles.ofQ D (conf c)))
               | None => total
               end) l total)
     == fold_left
          (fun sum c =>
             match MathGraph.getNode g c with
             | Some node =>
                 sum + nominalHours (MathNode.complexity node)
                       * discountFactor (conf c)
             | None => sum
             end) l sum)%Q.
Proof.
  induction l as [|c l IH]; intros total sum H; [exact H|]. simpl.
  apply IH. destruct (MathGraph.getNode g c) as [node|]; [|exact H].
  now rewrite (val_add D val exact), val_hoursTerm, H.
Qed.

End ExactHours.

Lemma Exact_exactArithmetic : Exact exactArithmetic (fun x => x).
Proof.
  constructor; simpl; intros; reflexivity.
Qed.

Lemma discountFactor_bound confidence :
  (confidence < literal_0_7)%Q -> (1 # 2 < discountFactor confidence)%Q.
Proof.
  intros H. unfold discountFactor.
  apply (proj2 (Qlt_minus_iff _ _)).
  pose proof (proj1 (Qlt_minus_iff _ _) H) as Hlt.
  assert (E : (1 - confidence * (1 # 2) + - (1 # 2)
               == (1 # 2) * (literal_0_7 + - confidence)
                  + (1 # 2) * (1 - literal_0_7))%Q) by ring.
  rewrite E.
  apply Qlt_le_trans with ((1 # 2) * (literal_0_7 + - confidence) + 0)%Q.
  - rewrite Qplus_0_r. apply Qmult_lt_0_compat; [reflexivity | exact Hlt].
  - apply Qplus_le_r. discriminate.
Qed.

Lemma generateStudyPath_hours_spec (D : Doubles.t) ops eng u targetConcepts
  days exam system year :
  let g := build ops in
  let confidence := DiagnosticsEngine.getConfidence eng u in
  exists path,
    generateStudyPath D eng u g targetConcepts days exam system year = Return path
    /\ let ordered := StudyPath.ordered_concepts path in
       StudyPath.estimated_total_hours path
       = Doubles.ceil D
           (fold_left
              (fun total c =>
                 match MathGraph.getNode g c with
                 | Some node =>
                     Doubles.add D total
                       (hoursTerm D (MathNode.complexity node)
                          (if String.eqb c "__proto__" then Doubles.nan D
                           else Doubles.ofQ D (confidence c)))
                 | None => total
                 end)
              ordered (Doubles.ofQ D 0))
       /\ (forall val, Exact D val -> ~ In "__proto__" ordered ->
             (val (StudyPath.estimated_total_hours path)
              == inject_Z (claimedHours g eng u ordered))%Q)
       /\ (forall c, In c ordered ->
             (1 # 2 < discountFactor (confidence c))%Q
             /\ forall node, MathGraph.getNode g c = Some node ->
                  (0 <= nominalHours (MathNode.complexity node))%Q ->
                  ((1 # 2) * nominalHours (MathNode.complexity node)
                   <= nominalHours (MathNode.complexity node)
                      * discountFactor (confidence c))%Q).
Proof.
  cbv zeta.
  destruct (generateStudyPath_spec D ops eng u targetConcepts days exam system year)
    as (gaps & path & Hgaps & Hpath & Hp).
  cbv zeta in Hp.
  destruct Hp as (_ & _ & _ & _ & _ & _ & _ & Hstudy & _ & _ & Hmem & _).
  exists path. split; [exact Hpath|].
  assert (Hhours :
            StudyPath.estimated_total_hours path
            = Doubles.ceil D
                (fold_left
                   (fun total c =>
                      match MathGraph.getNode (build ops) c with
                      | Some node =>
                          Doubles.add D total
                            (hoursTerm D (MathNode.complexity node)
                               (if String.eqb c "__proto__" then Doubles.nan D
                                else Doubles.ofQ D
                                       (DiagnosticsEngine.getConfidence eng u c)))
                      | None => total
                      end)
                   (StudyPath.ordered_concepts path) (Doubles.ofQ D 0))).
  { unfold generateStudyPath in Hpath. rewrite Hgaps in Hpath.
    cbn [bind] in Hpath.
    destruct (MathGraph.topologicalSort (build ops)
                (DiagnosticsEngine.missing gaps ++ DiagnosticsEngine.weak gaps))
      as [ordered| |]; cbn [bind] in Hpath; try discriminate.
    injection Hpath as <-.
    cbn [StudyPath.estimated_total_hours StudyPath.ordered_concepts].
    f_equal. apply fold_left_ext_in. intros total c Hc.
    destruct (MathGraph.getNode (build ops) c) as [node|]; [|reflexivity].
    cbv zeta.
    rewrite (confidenceDiscountOf_ordered D
               (DiagnosticsEngine.getConfidence eng u) ordered c Hc).
    reflexivity. }
  split; [exact Hhours|]. split.
  - intros val Hexact Hproto. rewrite Hhours, (val_ceil D val Hexact).
    unfold claimedHours, claimedSum.
    assert (Hfold :
              fold_left
                (fun total c =>
                   match MathGraph.getNode (build ops) c with
                   | Some node =>
                       Doubles.add D total
                         (hoursTerm D (MathNode.complexity node)
                            (if String.eqb c "__proto__" then Doubles.nan D
                             else Doubles.ofQ D
                                    (DiagnosticsEngine.getConfidence eng u c)))
                   | None => total
                   end)
                (StudyPath.ordered_concepts path) (Doubles.ofQ D 0)
              = fold_left
                  (fun total c =>
                     match MathGraph.getNode (build ops) c with
                     | Some node =>
                         Doubles.add D total
                           (hoursTerm D (MathNode.complexity node)
                              (Doubles.ofQ D
                                 (DiagnosticsEngine.getConfidence eng u c)))
                     | None => total
                     end)
                  (StudyPath.ordered_concepts path) (Doubles.ofQ D 0)).
    { apply fold_left_ext_in. intros total c Hc.
      destruct (String.eqb c "__proto__") eqn:E; [|reflexivity].
      apply String.eqb_eq in E. subst c. now elim Hproto. }
    rewrite Hfold.
    rewrite (Qround.Qceiling_comp _ _
               (val_totalHours D val Hexact (build ops)
                  (DiagnosticsEngine.getConfidence eng u)
                  (StudyPath.ordered_concepts path) (Doubles.ofQ D 0) 0%Q
                  (val_ofQ D val Hexact 0%Q))).
    reflexivity.
  - intros c Hc. apply Hmem in Hc. destruct Hc as [Hc _].
    apply Hstudy in Hc. destruct Hc as [_ Hlow].
    pose proof (discountFactor_bound _ Hlow) as Hf.
    split; [exact Hf|]. intros node _ Hnominal.
    rewrite (Qmult_comm (nominalHours (MathNode.complexity node))).
    apply Qmult_le_compat_r; [now apply Qlt_le_weak | exact Hnominal].
Qed.



